(* ========================================================================= *)
(*  Budapest Metro: construction rule engine and scoring (src/main.js)        *)
(*                                                                           *)
(*  A shallow embedding of the rule engine of main.js: station indexing,     *)
(*  geometry helpers, per-line build state, the connection validator, the    *)
(*  card/round state machine and the scoring engine.                         *)
(*                                                                           *)
(*  Conventions of the embedding.                                            *)
(*   - Station ids, line ids and grid coordinates are JS numbers holding     *)
(*     integers: Z.  Counters and sizes are nat.                             *)
(*   - `lineStates` is a JS Map iterated in insertion order, by loops that   *)
(*     can return or throw midway: an association list with Map.get/set      *)
(*     written out.  The Sets `endpoints` and `visited` are gsets (their     *)
(*     loops only count, whatever the order); `stationOwner`, `stationById`  *)
(*     and `stationAt` are gmaps (they are only looked up).                  *)
(*   - The module-level mutable objects (state, lineStates, stationOwner,    *)
(*     roundResults, selectedStationId) form one record Engine, threaded     *)
(*     through a state monad M.  A JS TypeError (reading a property of       *)
(*     undefined) is the result None; the state reached when it is thrown    *)
(*     is kept, as it is in the browser.                                     *)
(*   - Math.random is an oracle argument `rnd`.                              *)
(*   - DOM writes (HUD text, buttons, SVG) and the score store are outside   *)
(*     the engine and are not modelled; the one DOM test that decides a      *)
(*     returned value (updatePPView) reads two booleans of the page.         *)
(* ========================================================================= *)

From stdpp Require Import gmap strings list fin_maps fin_sets.
From Stdlib Require Import ZArith Lia.

Local Open Scope Z_scope.

(* ------------------------------------------------------------------------- *)
(* 0) Constants                                                              *)
(* ------------------------------------------------------------------------- *)

(** Transfer exception: Deak ter. *)
Definition STATION_TRANSFER_EXCEPTION : Z := 30.

(* ------------------------------------------------------------------------- *)
(* Data model                                                                *)
(* ------------------------------------------------------------------------- *)

(** Modelled from the spec: the station dataset (stations.json) is not part of
    the sources; its records carry `side`, "one of two enumerated bank
    labels, or absent".  The code only tests a label for truthiness and
    compares two labels. *)
Inductive Bank : Type := LeftBank | RightBank.

Global Instance Bank_eq_dec : EqDecision Bank.
Proof. solve_decision. Defined.

(** A record of stations.json: { id, x, y, type, train, side, district }. *)
Record StationData : Type := mkStationData {
  sd_id : Z;
  sd_x : Z;
  sd_y : Z;
  sd_type : string;
  sd_train : bool;
  sd_side : option Bank;
  sd_district : option Z
}.

(** The basic station kept in lastStations: { id, x, y, type }. *)
Record Station : Type := mkStation {
  st_id : Z;
  st_x : Z;
  st_y : Z;
  st_type : string
}.

(** A coordinate pair { x, y }. *)
Record Point : Type := mkPoint { px : Z; py : Z }.

(** An entry of LINES: { id, name, color, start }. *)
Record Line : Type := mkLine {
  line_id : Z;
  line_name : string;
  line_color : string;
  line_start : Z
}.

(** A card { ptype, sym }. *)
Record Card : Type := mkCard { ptype : string; sym : string }.

Global Instance Card_eq_dec : EqDecision Card.
Proof. solve_decision. Defined.

(** A placed segment { a, b }. *)
Record Segment : Type := mkSegment { seg_a : Z; seg_b : Z }.

Global Instance Segment_eq_dec : EqDecision Segment.
Proof. solve_decision. Defined.

(** { segments:[{a,b}], endpoints:Set<number>, visited:Set<number> } *)
Record LineState : Type := mkLineState {
  segments : list Segment;
  endpoints : gset Z;
  visited : gset Z
}.

(** A per-round result { lineId, PK, PM, PD, FP }. *)
Record RoundResult : Type := mkRoundResult {
  rr_lineId : Z;
  PK : nat;
  PM : nat;
  PD : nat;
  FP : nat
}.

(** The object `state` (player name and timer are presentation state). *)
Record State : Type := mkState {
  order : list Z;
  roundIndex : nat;
  deck : list Card;
  drawsThisRound : nat;
  centerCount : nat;
  sideCount : nat;
  currentCard : option Card;
  buildUsedForThisCard : bool;
  roundComplete : bool;
  heldCard : option Card;
  switchUsedThisRound : bool;
  pencilMode : bool
}.

(** All mutable engine objects of the script. *)
Record Engine : Type := mkEngine {
  state : State;
  lineStates : list (Z * LineState);
  stationOwner : gmap Z Z;
  roundResults : list RoundResult;
  selectedStationId : option Z
}.

(** What finishGame displays and stores. *)
Record GameResult : Type := mkGameResult {
  gr_PP : nat;
  gr_P2 : nat;
  gr_P3 : nat;
  gr_P4 : nat;
  gr_sumFP : nat;
  gr_finalScore : nat
}.

Definition LINES : list Line :=
  [ mkLine 0 "M1" "#FFD800" 19;
    mkLine 1 "M2" "#E41F18" 28;
    mkLine 2 "M3" "#005CA5" 3;
    mkLine 3 "M4" "#4CA22F" 39 ].

(** LINES.find(l => l.id === lineId) *)
Definition findLine (lineId : Z) : option Line :=
  List.find (fun l => bool_decide (line_id l = lineId)) LINES.

(** The value of the module-level variables when the script has loaded. *)
Definition initialState : State :=
  mkState [] 0 [] 0 0 0 None false false None false false.

Definition initialEngine : Engine :=
  mkEngine initialState [] ∅ [] None.

(* ------------------------------------------------------------------------- *)
(* Field updates                                                             *)
(* ------------------------------------------------------------------------- *)

Definition withState (f : State -> State) (E : Engine) : Engine :=
  mkEngine (f (state E)) (lineStates E) (stationOwner E) (roundResults E)
           (selectedStationId E).
Definition withLineStates (ls : list (Z * LineState)) (E : Engine) : Engine :=
  mkEngine (state E) ls (stationOwner E) (roundResults E) (selectedStationId E).
Definition withStationOwner (o : gmap Z Z) (E : Engine) : Engine :=
  mkEngine (state E) (lineStates E) o (roundResults E) (selectedStationId E).
Definition withRoundResults (r : list RoundResult) (E : Engine) : Engine :=
  mkEngine (state E) (lineStates E) (stationOwner E) r (selectedStationId E).
Definition withSelected (s : option Z) (E : Engine) : Engine :=
  mkEngine (state E) (lineStates E) (stationOwner E) (roundResults E) s.

(* ------------------------------------------------------------------------- *)
(* The engine monad: state passing, None for a thrown TypeError              *)
(* ------------------------------------------------------------------------- *)

Definition M (A : Type) : Type := Engine -> option A * Engine.

Definition ret {A} (x : A) : M A := fun E => (Some x, E).
Definition throw {A} : M A := fun E => (None, E).
Definition bind {A B} (m : M A) (k : A -> M B) : M B :=
  fun E => match m E with
           | (Some x, E') => k x E'
           | (None, E') => (None, E')
           end.
Definition gets {A} (f : Engine -> A) : M A := fun E => (Some (f E), E).
Definition modify (f : Engine -> Engine) : M unit := fun E => (Some tt, f E).

Declare Scope engine_scope.
Delimit Scope engine_scope with engine.
Notation "'let*' x ':=' m 'in' k" := (bind m (fun x => k))
  (at level 10, x name, m at level 100, k at level 200) : engine_scope.
Notation "m ';;' k" := (bind m (fun _ => k))
  (at level 100, k at level 200, right associativity) : engine_scope.

(** `if (c) stmt;` without else. *)
Definition when (c : bool) (m : M unit) : M unit := if c then m else ret tt.

(** The result and the final state of running a command. *)
Definition result {A} (m : M A) (E : Engine) : option A := fst (m E).
Definition exec {A} (m : M A) (E : Engine) : Engine := snd (m E).

Local Open Scope engine_scope.

(* ------------------------------------------------------------------------- *)
(* 2) Data loading and station indexing                                      *)
(* ------------------------------------------------------------------------- *)

Section Engine.

(** The parsed content of stations.json (`full` in initData). *)
Variable full : list StationData.

(** The page has the #hud-pp element / the #train-slider element. *)
Variable hudPP : bool.
Variable trainSlider : bool.

Definition basicOf (s : StationData) : Station :=
  mkStation (sd_id s) (sd_x s) (sd_y s) (sd_type s).

Definition lastStations : list Station := map basicOf full.

(** new Map(pairs): a later pair with the same key replaces an earlier one. *)
Definition mapOfPairs `{Countable K} {V} (l : list (K * V)) : gmap K V :=
  foldl (fun m p => <[p.1 := p.2]> m) ∅ l.

Definition stationById : gmap Z Station :=
  mapOfPairs (map (fun s => (st_id s, s)) lastStations).

(** Keys are the strings `${x},${y}`; a pair of integers stands for them. *)
Definition stationAt : gmap (Z * Z) Station :=
  mapOfPairs (map (fun s => ((st_x s, st_y s), s)) lastStations).

Definition stationMetaById : gmap Z StationData :=
  mapOfPairs (map (fun s => (sd_id s, s)) full).

Definition TRAIN_STATION_IDS : list Z :=
  map sd_id (filter (fun s => sd_train s = true) full).

(** Full metadata for a station id; null is None. *)
Definition getStationMeta (id : Z) : option StationData :=
  match stationMetaById !! id with
  | Some meta => Some meta
  | None =>
      match stationById !! id with
      | None => None
      | Some basic =>
          Some (mkStationData (st_id basic) (st_x basic) (st_y basic)
                              (st_type basic) false None None)
      end
  end.

(* ------------------------------------------------------------------------- *)
(* 3) Geometry helpers                                                       *)
(* ------------------------------------------------------------------------- *)

Definition isStraightOrDiag (a b : Station) : bool :=
  let dx := Z.abs (st_x a - st_x b) in
  let dy := Z.abs (st_y a - st_y b) in
  bool_decide (dx = 0) || bool_decide (dy = 0) || bool_decide (dx = dy).

(** The while loop of pathPassesThroughStation, entered at (x, y).  The loop
    need not end when a and b are not aligned: `fuel` bounds the number of
    iterations and None means it was used up. *)
Fixpoint walkPath (fuel : nat) (dx dy x y : Z) (b : Station) : option bool :=
  if bool_decide (x ≠ st_x b) || bool_decide (y ≠ st_y b) then
    match fuel with
    | O => None
    | S fuel' =>
        if bool_decide (is_Some (stationAt !! (x, y))) then Some true
        else walkPath fuel' dx dy (x + dx) (y + dy) b
    end
  else Some false.

(** Disallow passing through stations strictly between A and B. *)
Definition pathPassesThroughStation (fuel : nat) (a b : Station) : option bool :=
  let dx := Z.sgn (st_x b - st_x a) in
  let dy := Z.sgn (st_y b - st_y a) in
  walkPath fuel dx dy (st_x a + dx) (st_y a + dy) b.

(** Iterations that suffice for aligned stations. *)
Definition pathFuel (a b : Station) : nat :=
  Z.to_nat (Z.max (Z.abs (st_x b - st_x a)) (Z.abs (st_y b - st_y a))).

(** The cross product of segmentsIntersect.  The source computes it on
    doubles; it is written here on the integers the coordinates hold, which
    is the value the doubles have as long as the differences, the products
    and their difference stay within 2^53 in magnitude, as they do for the
    small coordinates of the grid. *)
Definition cross (p q r : Point) : Z :=
  (px q - px p) * (py r - py p) - (py q - py p) * (px r - px p).

Definition onSeg (p q r : Point) : bool :=
  bool_decide (Z.min (px p) (px r) ≤ px q) &&
  bool_decide (px q ≤ Z.max (px p) (px r)) &&
  bool_decide (Z.min (py p) (py r) ≤ py q) &&
  bool_decide (py q ≤ Z.max (py p) (py r)).

(** Segment intersection (allow shared endpoints, but detect others). *)
Definition segmentsIntersect (a1 a2 b1 b2 : Point) : bool :=
  let d1 := cross a1 a2 b1 in
  let d2 := cross a1 a2 b2 in
  let d3 := cross b1 b2 a1 in
  let d4 := cross b1 b2 a2 in
  if ((bool_decide (d1 > 0) && bool_decide (d2 < 0)) ||
      (bool_decide (d1 < 0) && bool_decide (d2 > 0))) &&
     ((bool_decide (d3 > 0) && bool_decide (d4 < 0)) ||
      (bool_decide (d3 < 0) && bool_decide (d4 > 0)))
  then true
  else if bool_decide (d1 = 0) && onSeg a1 b1 a2 then true
  else if bool_decide (d2 = 0) && onSeg a1 b2 a2 then true
  else if bool_decide (d3 = 0) && onSeg b1 a1 b2 then true
  else if bool_decide (d4 = 0) && onSeg b1 a2 b2 then true
  else false.

(* ------------------------------------------------------------------------- *)
(* 5) Deck                                                                   *)
(* ------------------------------------------------------------------------- *)

(** [deck[i], deck[j]] = [deck[j], deck[i]] *)
Definition swapCards (i j : nat) (d : list Card) : list Card :=
  match d !! i, d !! j with
  | Some ci, Some cj => <[j := ci]> (<[i := cj]> d)
  | _, _ => d
  end.

(** The loop `for (i = deck.length - 1; i > 0; i--)` entered at i.  The draw
    `(Math.random() * (i + 1)) | 0` is an integer of 0..i: the oracle value
    for this iteration, reduced modulo i + 1. *)
Fixpoint shuffleFrom (rnd : nat -> nat) (i : nat) (d : list Card) : list Card :=
  match i with
  | O => d
  | S i' => shuffleFrom rnd i' (swapCards i (rnd i mod (i + 1))%nat d)
  end.

Definition baseDeck : list Card :=
  let base := ["A"; "B"; "C"; "D"; "Joker"] in
  flat_map (fun pt => map (fun sy => mkCard pt sy) base) ["center"; "side"].

(** Deck (A/B/C/D/Joker x center/side), shuffled. *)
Definition buildDeck (rnd : nat -> nat) : list Card :=
  shuffleFrom rnd (length baseDeck - 1) baseDeck.

(** Array.prototype.pop: the removed last element (undefined is None) and
    the remaining array. *)
Definition pop {A} (l : list A) : option A * list A := (last l, removelast l).

(* ------------------------------------------------------------------------- *)
(* 6) Per-line build state                                                   *)
(* ------------------------------------------------------------------------- *)

(** lineStates.get(lineId) *)
Fixpoint lsGet (l : Z) (ls : list (Z * LineState)) : option LineState :=
  match ls with
  | [] => None
  | (k, v) :: rest => if bool_decide (k = l) then Some v else lsGet l rest
  end.

(** lineStates.set(lineId, v): an existing key keeps its place. *)
Fixpoint lsSet (l : Z) (v : LineState) (ls : list (Z * LineState))
  : list (Z * LineState) :=
  match ls with
  | [] => [(l, v)]
  | (k, w) :: rest =>
      if bool_decide (k = l) then (k, v) :: rest else (k, w) :: lsSet l v rest
  end.

(** state.order[state.roundIndex]; undefined is None. *)
Definition currentLineId (E : Engine) : option Z :=
  order (state E) !! roundIndex (state E).

Definition currentLine (E : Engine) : option Line :=
  match currentLineId E with
  | Some lineId => findLine lineId
  | None => None
  end.

(** The build state a line starts from. *)
Definition freshLineState (startId : Z) : LineState :=
  mkLineState [] ∅ {[ startId ]}.

(** ensureLineState(lineId).  The keys of lineStates are line ids, so the key
    undefined is never present and the lookup in LINES then fails; reading
    `.start` of the failed lookup throws.  The numeric id is returned along
    with the build state. *)
Definition ensureLineState (lineId : option Z) : M (Z * LineState) :=
  match lineId with
  | None => throw
  | Some l =>
      fun E =>
        match lsGet l (lineStates E) with
        | Some LS => (Some (l, LS), E)
        | None =>
            match findLine l with
            | None => (None, E)
            | Some ln =>
                let LS := freshLineState (line_start ln) in
                (Some (l, LS), withLineStates (lsSet l LS (lineStates E)) E)
            end
        end
  end.

(** Every placed segment, in the order of the nested loops
    `for (const [, OLS] of lineStates) for (const s of OLS.segments)`. *)
Definition allSegments (ls : list (Z * LineState)) : list Segment :=
  flat_map (fun p => segments p.2) ls.

(* ------------------------------------------------------------------------- *)
(* 7) Card helpers                                                           *)
(* ------------------------------------------------------------------------- *)

(** Station symbol vs card. *)
Definition stationMatchesCard (E : Engine) (target : Station) : bool :=
  match currentCard (state E) with
  | None => false
  | Some card =>
      if bool_decide (st_id target = STATION_TRANSFER_EXCEPTION) then true
      else
        let sym := sym card in
        if bool_decide (sym = "Joker") || bool_decide (st_type target = "?")
        then true
        else bool_decide (st_type target = sym)
  end.

(* ------------------------------------------------------------------------- *)
(* 8) Validation and mutations                                               *)
(* ------------------------------------------------------------------------- *)

(** The loop of updatePPView over one visited set. *)
Definition addTrainStations (acc : gset Z) (LS : LineState) : gset Z :=
  foldl (fun acc sid =>
           match getStationMeta sid with
           | Some meta => if sd_train meta then acc ∪ {[ sid ]} else acc
           | None => acc
           end)
        acc (elements (visited LS)).

(** Update PP (train stations visited); returns PP. *)
Definition updatePPView : M nat :=
  if negb hudPP && negb trainSlider then ret 0%nat
  else
    let* ls := gets lineStates in
    let visitedTrainStations :=
      foldl (fun acc p => addTrainStations acc p.2) ∅ ls in
    ret (size visitedTrainStations).

(** districtCounts after the loop over the visited stations. *)
Definition districtCountsOf (visitedArr : list Z) : gmap Z nat :=
  foldl (fun m sid =>
           match getStationMeta sid with
           | None => m
           | Some meta =>
               match sd_district meta with
               | None => m
               | Some d => <[ d := (default 0 (m !! d) + 1)%nat ]> m
               end
           end)
        ∅ visitedArr.

(** The test of the Danube-crossing loop for one segment. *)
Definition crossesDanube (seg : Segment) : bool :=
  match getStationMeta (seg_a seg), getStationMeta (seg_b seg) with
  | Some a, Some b =>
      match sd_side a, sd_side b with
      | Some sa, Some sb => bool_decide (sa ≠ sb)
      | _, _ => false
      end
  | _, _ => false
  end.

(** Compute and store score for the current round (line). *)
Definition computeCurrentRoundScore : M RoundResult :=
  let* lineId := gets currentLineId in
  let* cur := ensureLineState lineId in
  let '(l, LS) := cur in
  let visitedArr := elements (visited LS) in
  let districtCounts := districtCountsOf visitedArr in
  let PK := size districtCounts in
  let PM := if bool_decide (size districtCounts ≠ 0%nat)
            then max_list (map snd (map_to_list districtCounts))
            else 0%nat in
  let PD := foldl (fun PD seg => if crossesDanube seg then S PD else PD)
                  0%nat (segments LS) in
  let FP := (PK * PM + PD)%nat in
  let result := mkRoundResult l PK PM PD FP in
  modify (fun E => withRoundResults (roundResults E ++ [result]) E) ;;
  ret result.

(** `owner !== undefined && owner !== lineId && !isTransferAllowed(id)` *)
Definition ownedByOther (owner : option Z) (lineId : Z) (allowed : bool) : bool :=
  match owner with
  | None => false
  | Some o => bool_decide (o ≠ lineId) && negb allowed
  end.

(** The duplicate test of canConnect for one existing segment. *)
Definition samePair (fromId toId : Z) (s : Segment) : bool :=
  (bool_decide (seg_a s = fromId) && bool_decide (seg_b s = toId)) ||
  (bool_decide (seg_a s = toId) && bool_decide (seg_b s = fromId)).

(** The crossing loop of canConnect: Some true when it returns false from
    canConnect (a crossing segment that shares no endpoint), Some false when
    it runs to its end, None when a segment end is not a known station. *)
Fixpoint crossesOther (fromId toId : Z) (a1 a2 : Point) (segs : list Segment)
  : option bool :=
  match segs with
  | [] => Some false
  | s :: rest =>
      match stationById !! seg_a s, stationById !! seg_b s with
      | Some C, Some D =>
          let b1 := mkPoint (st_x C) (st_y C) in
          let b2 := mkPoint (st_x D) (st_y D) in
          if negb (segmentsIntersect a1 a2 b1 b2) then
            crossesOther fromId toId a1 a2 rest
          else
            let sharesEndpoint :=
              bool_decide (fromId = seg_a s) || bool_decide (fromId = seg_b s) ||
              bool_decide (toId = seg_a s) || bool_decide (toId = seg_b s) in
            if negb sharesEndpoint then Some true
            else crossesOther fromId toId a1 a2 rest
      | _, _ => None
      end
  end.

(** canConnect(fromId, toId). *)
Definition canConnect (fromId toId : Z) : M bool :=
  let* lineId := gets currentLineId in
  let* cur := ensureLineState lineId in
  let '(l, LS) := cur in
  match stationById !! fromId, stationById !! toId with
  | Some A, Some B =>
      if bool_decide (fromId = toId) then ret false else
      let* line := gets currentLine in
      match line with
      | None => throw
      | Some line =>
          let startId := line_start line in
          let isTransferAllowed := fun id =>
            bool_decide (id = STATION_TRANSFER_EXCEPTION) ||
            bool_decide (id = startId) in
          let* ownerFrom := gets (fun E => stationOwner E !! fromId) in
          let* ownerTo := gets (fun E => stationOwner E !! toId) in
          if ownedByOther ownerFrom l (isTransferAllowed fromId) then ret false else
          if ownedByOther ownerTo l (isTransferAllowed toId) then ret false else
          (* Geometry: must be straight or 45 degrees *)
          if negb (isStraightOrDiag A B) then ret false else
          (* Origin: first segment from start, later from endpoints *)
          let isFirst := bool_decide (length (segments LS) = 0%nat) in
          if (if isFirst then bool_decide (fromId ≠ startId)
              else negb (bool_decide (fromId ∈ endpoints LS)))
          then ret false else
          (* Target must match card *)
          let* matches := gets (fun E => stationMatchesCard E B) in
          if negb matches then ret false else
          (* No pass-through stations *)
          match pathPassesThroughStation (pathFuel A B) A B with
          | None => throw (* not reached: A and B are aligned here *)
          | Some true => ret false
          | Some false =>
              (* No duplicate segments anywhere (any line, either direction) *)
              let* ls := gets lineStates in
              if existsb (samePair fromId toId) (allSegments ls) then ret false else
              (* No crossings unless sharing an endpoint *)
              let a1 := mkPoint (st_x A) (st_y A) in
              let a2 := mkPoint (st_x B) (st_y B) in
              match crossesOther fromId toId a1 a2 (allSegments ls) with
              | None => throw
              | Some true => ret false
              | Some false =>
                  (* No loops: cannot go to station already visited *)
                  if bool_decide (toId ∈ visited LS) then ret false
                  else ret true
              end
          end
      end
  | _, _ => ret false
  end.

(** const toggle = (set, v) => (set.has(v) ? set.delete(v) : set.add(v)) *)
Definition toggle (set : gset Z) (v : Z) : gset Z :=
  if bool_decide (v ∈ set) then set ∖ {[ v ]} else set ∪ {[ v ]}.

(** The build state of addSegment after the push, the toggles and the adds. *)
Definition extendLine (fromId toId : Z) (LS : LineState) : LineState :=
  mkLineState (segments LS ++ [mkSegment fromId toId])
              (toggle (toggle (endpoints LS) fromId) toId)
              (visited LS ∪ {[ fromId ]} ∪ {[ toId ]}).

(** One of the two ownership blocks of addSegment, for station `id`. *)
Definition assignOwner (id startId2 lineId : Z) : M unit :=
  when (bool_decide (id ≠ STATION_TRANSFER_EXCEPTION))
    (let* has := gets (fun E => bool_decide (is_Some (stationOwner E !! id))) in
     when (bool_decide (id = startId2) || negb has)
       (modify (fun E => withStationOwner (<[ id := lineId ]> (stationOwner E)) E))).

(** addSegment(fromId, toId); drawSegments and updatePPView only render. *)
Definition addSegment (fromId toId : Z) : M unit :=
  let* lineId := gets currentLineId in
  let* cur := ensureLineState lineId in
  let '(l, LS) := cur in
  modify (fun E =>
            withLineStates (lsSet l (extendLine fromId toId LS) (lineStates E)) E) ;;
  (* Assign station ownership. *)
  let* line := gets currentLine in
  match line with
  | None => throw
  | Some line =>
      let startId2 := line_start line in
      assignOwner fromId startId2 l ;;
      assignOwner toId startId2 l
  end.

(* ------------------------------------------------------------------------- *)
(* 9) Screen flow (start, round, finish)                                     *)
(* ------------------------------------------------------------------------- *)

Definition resetGameState : M unit :=
  modify (fun E =>
    mkEngine
      (mkState [] 0 [] 0 0 0 None false false None false false)
      []   (* lineStates.clear() *)
      ∅    (* stationOwner.clear() *)
      []   (* roundResults.length = 0 *)
      None (* selectedStationId = null *)).

(** startGame(name): `ord` is the outcome of the randomly compared sort of
    the four line ids, `rnd` the oracle of buildDeck. *)
Definition startGame (ord : list Z) (rnd : nat -> nat) : M unit :=
  resetGameState ;;
  modify (withState (fun s =>
    mkState ord 0 (buildDeck rnd) (drawsThisRound s) (centerCount s)
            (sideCount s) (currentCard s) (buildUsedForThisCard s)
            (roundComplete s) (heldCard s) (switchUsedThisRound s)
            (pencilMode s))).

Definition setRoundComplete (b : bool) (s : State) : State :=
  mkState (order s) (roundIndex s) (deck s) (drawsThisRound s) (centerCount s)
          (sideCount s) (currentCard s) (buildUsedForThisCard s) b
          (heldCard s) (switchUsedThisRound s) (pencilMode s).

Definition updateRoundEndingState : M unit :=
  let* s := gets state in
  let reachedTypeLimit :=
    bool_decide (5 ≤ centerCount s)%nat || bool_decide (5 ≤ sideCount s)%nat in
  let reachedMaxCards := bool_decide (8 ≤ drawsThisRound s)%nat in
  if reachedTypeLimit || reachedMaxCards
  then modify (withState (setRoundComplete true))
  else modify (withState (setRoundComplete false)).

(** `if (state.deck.length === 0) state.deck = buildDeck();` *)
Definition refillDeck (rnd : nat -> nat) : M unit :=
  let* s := gets state in
  when (bool_decide (length (deck s) = 0%nat))
    (modify (withState (fun s =>
       mkState (order s) (roundIndex s) (buildDeck rnd) (drawsThisRound s)
               (centerCount s) (sideCount s) (currentCard s)
               (buildUsedForThisCard s) (roundComplete s) (heldCard s)
               (switchUsedThisRound s) (pencilMode s)))).

Definition drawCard (rnd : nat -> nat) : M unit :=
  let* s := gets state in
  (* If round already complete, do not draw any more cards *)
  if roundComplete s then ret tt else
  refillDeck rnd ;;
  modify (withState (fun s =>
    let '(card, rest) := pop (deck s) in
    mkState (order s) (roundIndex s) rest (S (drawsThisRound s))
            (centerCount s) (sideCount s) card false (roundComplete s)
            (heldCard s) (switchUsedThisRound s) (pencilMode s))) ;;
  (* Count platform type for alternative round-ending condition *)
  let* card := gets (fun E => currentCard (state E)) in
  match card with
  | None => throw
  | Some c =>
      (if bool_decide (ptype c = "center") then
         modify (withState (fun s =>
           mkState (order s) (roundIndex s) (deck s) (drawsThisRound s)
                   (S (centerCount s)) (sideCount s) (currentCard s)
                   (buildUsedForThisCard s) (roundComplete s) (heldCard s)
                   (switchUsedThisRound s) (pencilMode s)))
       else if bool_decide (ptype c = "side") then
         modify (withState (fun s =>
           mkState (order s) (roundIndex s) (deck s) (drawsThisRound s)
                   (centerCount s) (S (sideCount s)) (currentCard s)
                   (buildUsedForThisCard s) (roundComplete s) (heldCard s)
                   (switchUsedThisRound s) (pencilMode s)))
       else ret tt) ;;
      updateRoundEndingState
  end.

(** stationLines after the loop over one line's visited set. *)
Definition addLineVisits (m : gmap Z (gset Z)) (lineId : Z) (LS : LineState)
  : gmap Z (gset Z) :=
  foldl (fun m sid => <[ sid := default ∅ (m !! sid) ∪ {[ lineId ]} ]> m)
        m (elements (visited LS)).

(** The junction counters (P2, P3, P4) after the loop over stationLines. *)
Definition countJunctions (stationLines : gmap Z (gset Z)) : nat * nat * nat :=
  foldl (fun acc p =>
           let '(P2, P3, P4) := acc in
           let count := size (p.2 : gset Z) in
           if bool_decide (count = 2%nat) then (S P2, P3, P4)
           else if bool_decide (count = 3%nat) then (P2, S P3, P4)
           else if bool_decide (4 ≤ count)%nat then (P2, P3, S P4)
           else (P2, P3, P4))
        (0%nat, 0%nat, 0%nat) (map_to_list stationLines).

(** roundResults.reduce((sum, r) => sum + r.FP, 0) *)
Definition sumFPOf (rs : list RoundResult) : nat :=
  foldl (fun sum r => (sum + FP r)%nat) 0%nat rs.

(** finishGame(); the returned record is what it displays and stores. *)
Definition finishGame : M GameResult :=
  let* ls := gets lineStates in
  let stationLines := foldl (fun m p => addLineVisits m p.1 p.2) ∅ ls in
  let '(P2, P3, P4) := countJunctions stationLines in
  let* PP := updatePPView in
  let* rs := gets roundResults in
  let sumFP := sumFPOf rs in
  let finalScore := (sumFP + PP + 2 * P2 + 5 * P3 + 9 * P4)%nat in
  ret (mkGameResult PP P2 P3 P4 sumFP finalScore).

Definition nextRound (rnd : nat -> nat) : M unit :=
  (* score the line we just completed *)
  computeCurrentRoundScore ;;
  modify (withState (fun s =>
    mkState (order s) (S (roundIndex s)) (deck s) (drawsThisRound s)
            (centerCount s) (sideCount s) (currentCard s)
            (buildUsedForThisCard s) (roundComplete s) (heldCard s)
            (switchUsedThisRound s) (pencilMode s))) ;;
  let* s := gets state in
  if bool_decide (length (order s) ≤ roundIndex s)%nat then
    finishGame ;; ret tt
  else
    modify (withState (fun s =>
      mkState (order s) (roundIndex s) (buildDeck rnd) 0 0 0 None false false
              None false (pencilMode s))).

(** Switch card ability: allows redrawing the current card once per round. *)
Definition switchCard (rnd : nat -> nat) : M unit :=
  let* s := gets state in
  if bool_decide (currentCard s = None) then ret tt else
  if buildUsedForThisCard s then ret tt else
  if switchUsedThisRound s then ret tt else
  refillDeck rnd ;;
  (* Discard the current card and draw a replacement. *)
  modify (withState (fun s =>
    let '(card, rest) := pop (deck s) in
    mkState (order s) (roundIndex s) rest (drawsThisRound s) (centerCount s)
            (sideCount s) card (buildUsedForThisCard s) (roundComplete s)
            (heldCard s) true (pencilMode s))) ;;
  updateRoundEndingState.

(* ------------------------------------------------------------------------- *)
(* 10) Event wiring                                                          *)
(* ------------------------------------------------------------------------- *)

Definition setBuildUsed (b : bool) (s : State) : State :=
  mkState (order s) (roundIndex s) (deck s) (drawsThisRound s) (centerCount s)
          (sideCount s) (currentCard s) b (roundComplete s) (heldCard s)
          (switchUsedThisRound s) (pencilMode s).

(** The real-build part of the station click handler, from
    "must draw a card first and only one build per card" on. *)
Definition attemptConnection (fromId toId : Z) (rnd : nat -> nat) : M unit :=
  let* s := gets state in
  if bool_decide (currentCard s = None) then ret tt else
  if buildUsedForThisCard s then ret tt else
  let* ok := canConnect fromId toId in
  if ok then
    addSegment fromId toId ;;
    modify (withState (setBuildUsed true)) ;;
    (* if this was the 8th card (round complete), move to the next round *)
    let* s := gets state in
    when (roundComplete s) (nextRound rnd)
  else ret tt.

(** The click handler on a station with id `id` (build interaction: click
    origin, then click target), while the game screen is shown. *)
Definition clickStation (id : Z) (rnd : nat -> nat) : M unit :=
  let* lineId := gets currentLineId in
  let* cur := ensureLineState lineId in
  let '(l, LS) := cur in
  let* isPencil := gets (fun E => pencilMode (state E)) in
  let* selected := gets selectedStationId in
  match selected with
  | None =>
      (* origin must be start (first) or one of the endpoints *)
      let isFirst := bool_decide (length (segments LS) = 0%nat) in
      let* line := gets currentLine in
      match (if isFirst
             then option_map (fun ln => bool_decide (id = line_start ln)) line
             else Some (bool_decide (id ∈ endpoints LS))) with
      | None => throw
      | Some okOrigin =>
          if negb okOrigin then ret tt
          else modify (withSelected (Some id))
      end
  | Some fromId =>
      (* attempt connection *)
      let toId := id in
      modify (withSelected None) ;;
      (* pencil mode draws a planning segment that does not affect state *)
      if isPencil then ret tt
      else attemptConnection fromId toId rnd
  end.

(** The pencil button. *)
Definition togglePencil : M unit :=
  modify (withState (fun s =>
    mkState (order s) (roundIndex s) (deck s) (drawsThisRound s) (centerCount s)
            (sideCount s) (currentCard s) (buildUsedForThisCard s)
            (roundComplete s) (heldCard s) (switchUsedThisRound s)
            (negb (pencilMode s)))).

(** What the page sends to the engine. *)
Inductive Event : Type :=
| EvStart (ord : list Z) (rnd : nat -> nat)   (* menu form submit *)
| EvClick (id : Z) (rnd : nat -> nat)         (* click on a station *)
| EvDraw (rnd : nat -> nat)                   (* btnDraw *)
| EvSkip (rnd : nat -> nat)                   (* btnSkip *)
| EvEnd (rnd : nat -> nat)                    (* btnEnd *)
| EvSwitch (rnd : nat -> nat)                 (* btnSwitch *)
| EvPencil                                    (* btnPencil *)
| EvMainMenu.                                 (* btnMainMenu *)

Definition handle (ev : Event) : M unit :=
  match ev with
  | EvStart ord rnd => startGame ord rnd
  | EvClick id rnd => clickStation id rnd
  | EvDraw rnd => drawCard rnd
  | EvSkip rnd => drawCard rnd
  | EvEnd rnd => nextRound rnd
  | EvSwitch rnd => switchCard rnd
  | EvPencil => togglePencil
  | EvMainMenu => resetGameState
  end.

(** An event the page can produce: the sort of startGame returns the four
    line ids in some order. *)
Definition validEvent (ev : Event) : Prop :=
  match ev with
  | EvStart ord _ => Permutation ord (map line_id LINES)
  | _ => True
  end.

(** The engine states a session can reach from the loaded script. *)
Inductive reachable : Engine -> Prop :=
| reachable_init : reachable initialEngine
| reachable_step E ev :
    reachable E -> validEvent ev -> reachable (exec (handle ev) E).

End Engine.

(* ========================================================================= *)
(*  Definitions used to state the properties                                 *)
(* ========================================================================= *)

(** A round is in progress: state.order[state.roundIndex] is one of the four
    lines. *)
Definition roundInProgress (E : Engine) : Prop := is_Some (currentLine E).

(** Both ends of every placed segment are known stations. *)
Definition segmentsKnown (full : list StationData) (E : Engine) : Prop :=
  Forall (fun s => is_Some (stationById full !! seg_a s) /\
                   is_Some (stationById full !! seg_b s))
         (allSegments (lineStates E)).

(** The ownership map after one ownership block of addSegment. *)
Definition ownerAfter (id startId2 lineId : Z) (o : gmap Z Z) : gmap Z Z :=
  if bool_decide (id ≠ STATION_TRANSFER_EXCEPTION) &&
     (bool_decide (id = startId2) || negb (bool_decide (is_Some (o !! id))))
  then <[ id := lineId ]> o else o.

(** The engine after a completed addSegment on build state LS of line l. *)
Definition afterAddSegment (fromId toId l : Z) (LS : LineState) (ln : Line)
    (E1 : Engine) : Engine :=
  withStationOwner
    (ownerAfter toId (line_start ln) l
       (ownerAfter fromId (line_start ln) l (stationOwner E1)))
    (withLineStates (lsSet l (extendLine fromId toId LS) (lineStates E1)) E1).

(** The round-ending thresholds on the counters of a round state. *)
Definition thresholdReached (s : State) : Prop :=
  (8 ≤ drawsThisRound s)%nat \/ (5 ≤ centerCount s)%nat \/ (5 ≤ sideCount s)%nat.

(** The round is marked ended exactly when a threshold is reached. *)
Definition roundEndedInv (s : State) : Prop :=
  roundComplete s = true <-> thresholdReached s.

(** A step that keeps the placed segments and the ownership map, and keeps
    the round-ended flag in line with the counters. *)
Definition quietStep (E E' : Engine) : Prop :=
  (roundEndedInv (state E) -> roundEndedInv (state E')) /\
  allSegments (lineStates E') = allSegments (lineStates E) /\
  stationOwner E' = stationOwner E.

(** A segment as an unordered pair of station ids. *)
Definition pairKey (s : Segment) : Z * Z :=
  (Z.min (seg_a s) (seg_b s), Z.max (seg_a s) (seg_b s)).

(** Two segments join the same two stations. *)
Definition sameUnorderedPair (s t : Segment) : Prop :=
  (seg_a s = seg_a t /\ seg_b s = seg_b t) \/
  (seg_a s = seg_b t /\ seg_b s = seg_a t).

(** No unordered pair of stations is joined twice. *)
Definition segmentsDistinct (E : Engine) : Prop :=
  NoDup (pairKey <$> allSegments (lineStates E)).

(** The transfer-exception station has no owner. *)
Definition exceptionUnowned (E : Engine) : Prop :=
  stationOwner E !! STATION_TRANSFER_EXCEPTION = None.

(** What holds of every engine state a session can reach. *)
Definition engineInv (E : Engine) : Prop :=
  roundEndedInv (state E) /\ segmentsDistinct E /\ exceptionUnowned E.

(** The engine after a sequence of events on the freshly loaded script. *)
Definition runEvents (full : list StationData) (hudPP trainSlider : bool)
    (evs : list Event) : Engine :=
  foldl (fun E ev => exec (handle full hudPP trainSlider ev) E) initialEngine evs.

(** How many ends of segment s are at station v (2 for a segment from v to
    v). *)
Definition incidence (v : Z) (s : Segment) : nat :=
  ((if bool_decide (seg_a s = v) then 1 else 0) +
   (if bool_decide (seg_b s = v) then 1 else 0))%nat.

(** The connection-degree of station v in a list of segments. *)
Definition degree (v : Z) (segs : list Segment) : nat :=
  sum_list_with (incidence v) segs.

(** The engine states in which line l has been given its build state by
    ensureLineState and then any number of addSegment calls have been made. *)
Inductive builtBy (l : Z) : Engine -> Prop :=
| builtBy_ensure E :
    is_Some (findLine l) -> lsGet l (lineStates E) = None ->
    builtBy l (exec (ensureLineState (Some l)) E)
| builtBy_add E fromId toId :
    builtBy l E -> builtBy l (exec (addSegment fromId toId) E).

(** The link between endpoints and degrees, for one build state. *)
Definition endpointsOdd (LS : LineState) : Prop :=
  forall v, bool_decide (v ∈ endpoints LS) = Nat.odd (degree v (segments LS)).

(** What holds of line l in a state of builtBy l. *)
Definition lineInv (l : Z) (E : Engine) : Prop :=
  exists LS ln,
    lsGet l (lineStates E) = Some LS /\ findLine l = Some ln /\
    endpointsOdd LS /\ line_start ln ∈ visited LS.

(** The deck switchCard and drawCard pop from: rebuilt first when empty. *)
Definition deckToPop (rnd : nat -> nat) (s : State) : list Card :=
  if bool_decide (length (deck s) = 0%nat) then buildDeck rnd else deck s.

(** The point of segment a1 a2 at parameter p/n is the point of segment
    b1 b2 at parameter q/n (both parameters in [0, 1]): the two segments have
    a common point. *)
Definition commonPointAt (a1 a2 b1 b2 : Point) (n p q : Z) : Prop :=
  0 < n /\ 0 ≤ p ≤ n /\ 0 ≤ q ≤ n /\
  n * px a1 + p * (px a2 - px a1) = n * px b1 + q * (px b2 - px b1) /\
  n * py a1 + p * (py a2 - py a1) = n * py b1 + q * (py b2 - py b1).

(** The four end points lie on one line. *)
Definition collinear (a1 a2 b1 b2 : Point) : Prop :=
  cross a1 a2 b1 = 0 /\ cross a1 a2 b2 = 0 /\
  cross b1 b2 a1 = 0 /\ cross b1 b2 a2 = 0.

(** The segments lie on one line and have a common point. *)
Definition overlapCollinear (a1 a2 b1 b2 : Point) : Prop :=
  collinear a1 a2 b1 b2 /\ exists n p q, commonPointAt a1 a2 b1 b2 n p q.

(** The segments have an end point in common. *)
Definition shareEndpoint (a1 a2 b1 b2 : Point) : Prop :=
  a1 = b1 \/ a1 = b2 \/ a2 = b1 \/ a2 = b2.

(** The stations visited by any line. *)
Definition visitedByAny (ls : list (Z * LineState)) : gset Z :=
  ⋃ ((fun p => visited p.2) <$> ls).

(** The distinct lines that visited station sid. *)
Definition linesVisiting (ls : list (Z * LineState)) (sid : Z) : gset Z :=
  list_to_set ((filter (fun p => sid ∈ visited p.2) ls).*1).

(** The number of visited stations whose number of visiting lines
    satisfies P. *)
Definition junctions (P : nat -> Prop) `{!forall n, Decision (P n)}
    (ls : list (Z * LineState)) : nat :=
  size (filter (fun sid => P (size (linesVisiting ls sid))) (visitedByAny ls)).

(** P2, P3, P4: the stations visited by exactly 2, exactly 3, and 4 or more
    distinct lines. *)
Definition P2_spec (ls : list (Z * LineState)) : nat :=
  junctions (fun n => n = 2%nat) ls.
Definition P3_spec (ls : list (Z * LineState)) : nat :=
  junctions (fun n => n = 3%nat) ls.
Definition P4_spec (ls : list (Z * LineState)) : nat :=
  junctions (fun n => (4 ≤ n)%nat) ls.

(* ========================================================================= *)
(*  A sample board and a sample session                                      *)
(* ========================================================================= *)

Section ScoreDefinitions.

Variable full : list StationData.

(** The district metadata of a station id, None when the station is unknown
    or carries none. *)
Definition districtOf (sid : Z) : option Z :=
  match getStationMeta full sid with
  | Some meta => sd_district meta
  | None => None
  end.

(** The river-bank metadata of a station id, None when not defined. *)
Definition bankOf (sid : Z) : option Bank :=
  match getStationMeta full sid with
  | Some meta => sd_side meta
  | None => None
  end.

(** The districts among the line's visited stations. *)
Definition districtsVisited (LS : LineState) : gset Z :=
  list_to_set (omap districtOf (elements (visited LS))).

(** The visited stations of the line that lie in district d. *)
Definition visitedIn (LS : LineState) (d : Z) : gset Z :=
  filter (fun sid => districtOf sid = Some d) (visited LS).

(** Both ends of the segment have a river bank, and the banks differ. *)
Definition banksDiffer (seg : Segment) : Prop :=
  match bankOf (seg_a seg), bankOf (seg_b seg) with
  | Some sa, Some sb => sa ≠ sb
  | _, _ => False
  end.

Global Instance banksDiffer_dec seg : Decision (banksDiffer seg).
Proof.
  unfold banksDiffer.
  destruct (bankOf (seg_a seg)), (bankOf (seg_b seg)); apply _.
Defined.

(** PK: the number of distinct districts among the visited stations. *)
Definition PK_spec (LS : LineState) : nat := size (districtsVisited LS).

(** PM: the largest number of visited stations in one district; 0 when no
    visited station carries district metadata. *)
Definition PM_spec (LS : LineState) : nat :=
  max_list ((fun d => size (visitedIn LS d)) <$> elements (districtsVisited LS)).

(** PD: the number of segments whose ends lie on differing banks. *)
Definition PD_spec (LS : LineState) : nat :=
  length (filter banksDiffer (segments LS)).

(** The stations of a list that lie in district d. *)
Definition countIn (d : Z) (l : list Z) : nat :=
  length (filter (fun sid => districtOf sid = Some d) l).

(** Station sid is a train hub. *)
Definition isTrainHub (sid : Z) : Prop :=
  match getStationMeta full sid with
  | Some meta => sd_train meta = true
  | None => False
  end.

Global Instance isTrainHub_dec sid : Decision (isTrainHub sid).
Proof. unfold isTrainHub. destruct (getStationMeta full sid); apply _. Defined.

(** PP: the number of distinct train hubs visited by any line. *)
Definition PP_spec (ls : list (Z * LineState)) : nat :=
  size (filter isTrainHub (visitedByAny ls)).

End ScoreDefinitions.

(** A small board: the four start stations, the transfer-exception station
    and three more stations on the row of the M1 start. *)
Definition sampleStations : list StationData :=
  [ mkStationData 19 0 0 "A" true (Some LeftBank) (Some 1);
    mkStationData 20 1 0 "A" false (Some LeftBank) (Some 1);
    mkStationData 21 2 0 "B" false (Some LeftBank) (Some 1);
    mkStationData 22 3 0 "D" false (Some RightBank) (Some 2);
    mkStationData 30 3 3 "?" false None None;
    mkStationData 28 0 3 "B" true (Some RightBank) (Some 2);
    mkStationData 3 0 5 "C" false (Some LeftBank) (Some 3);
    mkStationData 39 0 7 "D" false (Some RightBank) (Some 3) ].

(** Math.random always returning 0. *)
Definition rnd0 : nat -> nat := fun _ => 0%nat.

(** A game is started; the lines come in the order M1, M2, M3, M4. *)
Definition sessionStart : list Event := [ EvStart [0; 1; 2; 3] rnd0 ].

(** M1 is built 19 - 20 - 21 - 22 - 30 with the first four cards. *)
Definition sessionM1 : list Event :=
  sessionStart ++
  [ EvDraw rnd0; EvClick 19 rnd0; EvClick 20 rnd0;
    EvDraw rnd0; EvClick 20 rnd0; EvClick 21 rnd0;
    EvDraw rnd0; EvClick 21 rnd0; EvClick 22 rnd0;
    EvDraw rnd0; EvClick 22 rnd0; EvClick 30 rnd0 ].

(** Two more cards end the round of M1 (the fifth side card). *)
Definition sessionM1Ended : list Event :=
  sessionM1 ++ [ EvDraw rnd0; EvDraw rnd0 ].

(** The round is ended, and M2 is built 28 - 30 with its first card. *)
Definition sessionM2 : list Event :=
  sessionM1Ended ++
  [ EvEnd rnd0; EvDraw rnd0; EvClick 28 rnd0; EvClick 30 rnd0 ].

Definition sampleRun (evs : list Event) : Engine :=
  runEvents sampleStations true true evs.

(** The build state of M1 after sessionM1. *)
Definition sampleM1 : LineState :=
  mkLineState
    [mkSegment 19 20; mkSegment 20 21; mkSegment 21 22; mkSegment 22 30]
    {[ 19; 30 ]} {[ 19; 20; 21; 22; 30 ]}.

(* ========================================================================= *)
(*  Further functions of main.js: drawing coordinates and the time display   *)
(* ========================================================================= *)

From Stdlib Require DecimalString DecimalZ.



(** `x | 0` on an integer: the 32-bit signed integer with the same low
    32 bits. *)
Definition toInt32 (z : Z) : Z := (z + 2 ^ 31) mod 2 ^ 32 - 2 ^ 31.

(** The decimal text of an integer, as toString and a template literal give
    it. *)
Definition numberToString (z : Z) : string :=
  DecimalString.NilEmpty.string_of_int (Z.to_int z).

(** s.padStart(2, "0") *)
Definition padStart2 (s : string) : string :=
  match String.length s with
  | O => "00"
  | 1%nat => "0" +:+ s
  | _ => s
  end.

(** formatDuration(seconds), for an integer number of seconds: the division
    followed by `| 0` truncates, `%` is the remainder with the sign of the
    dividend. *)
Definition formatDuration (seconds : Z) : string :=
  let m := toInt32 (Z.quot seconds 60) in
  let s := padStart2 (numberToString (Z.rem seconds 60)) in
  numberToString m +:+ ":" +:+ s.

(** The maximum updatePPView gives the train slider:
    `TRAIN_STATION_IDS.length || 5`. *)
Definition trainSliderMax (full : list StationData) : nat :=
  if bool_decide (length (TRAIN_STATION_IDS full) = 0%nat) then 5%nat
  else length (TRAIN_STATION_IDS full).

(* ========================================================================= *)
(*  Further definitions: the rest of the engine's properties                 *)
(* ========================================================================= *)

(** The integer a decimal text stands for. *)
Definition parseDecimal (s : string) : option Z :=
  Z.of_int <$> DecimalString.NilEmpty.int_of_string s.


(** The signs of two cross products are strictly opposite. *)
Definition oppositeSides (d d' : Z) : Prop :=
  (d > 0 /\ d' < 0) \/ (d < 0 /\ d' > 0).

(** The two segments have a common point. *)
Definition segmentsMeet (a1 a2 b1 b2 : Point) : Prop :=
  exists n p q, commonPointAt a1 a2 b1 b2 n p q.

(** main.js computes on doubles.  An operation whose exact result is an
    integer of magnitude at most 2^53 yields that integer; a larger result is
    rounded to 53 significant bits. *)
Definition exactInDouble (z : Z) : Prop := Z.abs z ≤ 2 ^ 53.

(** The numbers cross(p, q, r) computes in segmentsIntersect: four
    differences, two products and the difference of the products. *)
Definition crossValues (p q r : Point) : list Z :=
  [px q - px p; py r - py p; py q - py p; px r - px p;
   (px q - px p) * (py r - py p); (py q - py p) * (px r - px p);
   cross p q r].

(** A point with coordinates of magnitude at most 2^25.  The positions of
    the 10 x 10 grid are far inside this range. *)
Definition inExactRange (p : Point) : Prop :=
  Z.abs (px p) ≤ 2 ^ 25 /\ Z.abs (py p) ≤ 2 ^ 25.

(** The number of unit steps of the walk of pathPassesThroughStation from a
    to an aligned b (Chebyshev distance). *)
Definition walkLength (a b : Station) : Z :=
  Z.max (Z.abs (st_x b - st_x a)) (Z.abs (st_y b - st_y a)).

(** The grid point k unit steps from a towards b. *)
Definition walkPoint (a b : Station) (k : Z) : Z * Z :=
  (st_x a + k * Z.sgn (st_x b - st_x a), st_y a + k * Z.sgn (st_y b - st_y a)).

(** A station of the index lies strictly between a and b on their common
    line. *)
Definition stationBetween (full : list StationData) (a b : Station) : Prop :=
  exists k, 0 < k < walkLength a b /\
            is_Some (stationAt full !! walkPoint a b k).

(** The coordinates of a station. *)
Definition pointOf (s : Station) : Point := mkPoint (st_x s) (st_y s).

(** The build state canConnect and addSegment work on for line l: the stored
    one, or the fresh one ensureLineState creates. *)
Definition buildStateOf (E : Engine) (l : Z) (ln : Line) : LineState :=
  default (freshLineState (line_start ln)) (lsGet l (lineStates E)).

(** The tests canConnect makes, in its order, for known stations A and B on
    build state LS of line l. *)
Definition acceptTests (full : list StationData) (E : Engine) (l : Z)
    (LS : LineState) (ln : Line) (fromId toId : Z) (A B : Station) : Prop :=
  fromId ≠ toId /\
  ownedByOther (stationOwner E !! fromId) l
    (bool_decide (fromId = STATION_TRANSFER_EXCEPTION) ||
     bool_decide (fromId = line_start ln)) = false /\
  ownedByOther (stationOwner E !! toId) l
    (bool_decide (toId = STATION_TRANSFER_EXCEPTION) ||
     bool_decide (toId = line_start ln)) = false /\
  isStraightOrDiag A B = true /\
  (if bool_decide (length (segments LS) = 0%nat)
   then fromId = line_start ln else fromId ∈ endpoints LS) /\
  stationMatchesCard E B = true /\
  pathPassesThroughStation full (pathFuel A B) A B = Some false /\
  existsb (samePair fromId toId) (allSegments (lineStates E)) = false /\
  crossesOther full fromId toId (pointOf A) (pointOf B)
    (allSegments (lineStates E)) = Some false /\
  toId ∉ visited LS.

(** Station id may be used by line l: it is the transfer exception or the
    start of the line, or no other line owns it. *)
Definition stationFree (E : Engine) (l : Z) (ln : Line) (id : Z) : Prop :=
  id = STATION_TRANSFER_EXCEPTION \/ id = line_start ln \/
  stationOwner E !! id = None \/ stationOwner E !! id = Some l.

(** A card is drawn and station B may be its target. *)
Definition cardAllows (E : Engine) (B : Station) : Prop :=
  exists card,
    currentCard (state E) = Some card /\
    (st_id B = STATION_TRANSFER_EXCEPTION \/ sym card = "Joker" \/
     st_type B = "?" \/ st_type B = sym card).

(** Segment s has an end at one of the two stations. *)
Definition sharesStation (fromId toId : Z) (s : Segment) : Prop :=
  fromId = seg_a s \/ fromId = seg_b s \/ toId = seg_a s \/ toId = seg_b s.

(** The placement rules for a section from fromId to toId on line l. *)
Definition placementRules (full : list StationData) (E : Engine) (l : Z)
    (ln : Line) (fromId toId : Z) : Prop :=
  exists A B,
    stationById full !! fromId = Some A /\ stationById full !! toId = Some B /\
    (* two different stations, both free for the line *)
    fromId ≠ toId /\ stationFree E l ln fromId /\ stationFree E l ln toId /\
    (* straight or diagonal *)
    isStraightOrDiag A B = true /\
    (* from the start station first, from an end of the line later *)
    (segments (buildStateOf E l ln) = [] -> fromId = line_start ln) /\
    (segments (buildStateOf E l ln) ≠ [] ->
     fromId ∈ endpoints (buildStateOf E l ln)) /\
    (* the target matches the card *)
    cardAllows E B /\
    (* no station strictly between *)
    ~ stationBetween full A B /\
    (* no section between the same two stations, on any line *)
    (forall s, s ∈ allSegments (lineStates E) ->
       ~ sameUnorderedPair s (mkSegment fromId toId)) /\
    (* a section it has a point in common with has an end at fromId or toId *)
    (forall s C D, s ∈ allSegments (lineStates E) ->
       stationById full !! seg_a s = Some C ->
       stationById full !! seg_b s = Some D ->
       segmentsMeet (pointOf A) (pointOf B) (pointOf C) (pointOf D) ->
       sharesStation fromId toId s) /\
    (* no loop *)
    toId ∉ visited (buildStateOf E l ln).

(** The round state after nextRound has scored the line: the next round is
    set up with a new deck, or, after the last line, only the round index
    moves on. *)
Definition nextRoundState (rnd : nat -> nat) (s : State) : State :=
  if bool_decide (length (order s) ≤ S (roundIndex s))%nat then
    mkState (order s) (S (roundIndex s)) (deck s) (drawsThisRound s)
            (centerCount s) (sideCount s) (currentCard s)
            (buildUsedForThisCard s) (roundComplete s) (heldCard s)
            (switchUsedThisRound s) (pencilMode s)
  else
    mkState (order s) (S (roundIndex s)) (buildDeck rnd) 0 0 0 None false false
            None false (pencilMode s).

(** The engine when startGame has run. *)
Definition startedEngine (ord : list Z) (rnd : nat -> nat) : Engine :=
  mkEngine (mkState ord 0 (buildDeck rnd) 0 0 0 None false false None false false)
           [] ∅ [] None.

(** The elementary state changes the event handlers are made of. *)
Inductive primStep (full : list StationData) : Engine -> Engine -> Prop :=
| step_reset E : primStep full E initialEngine
| step_start E ord rnd :
    ord ≡ₚ map line_id LINES -> primStep full E (startedEngine ord rnd)
| step_ensure E l ln :
    currentLineId E = Some l -> lsGet l (lineStates E) = None ->
    findLine l = Some ln ->
    primStep full E
      (withLineStates (lineStates E ++ [(l, freshLineState (line_start ln))]) E)
| step_select E sel : primStep full E (withSelected sel E)
| step_pencil E : primStep full E (exec togglePencil E)
| step_draw E rnd :
    roundComplete (state E) = false -> primStep full E (exec (drawCard rnd) E)
| step_switch E rnd :
    currentCard (state E) ≠ None -> buildUsedForThisCard (state E) = false ->
    switchUsedThisRound (state E) = false ->
    primStep full E (exec (switchCard rnd) E)
| step_build E fromId toId l LS ln :
    currentLineId E = Some l -> lsGet l (lineStates E) = Some LS ->
    findLine l = Some ln ->
    currentCard (state E) ≠ None -> buildUsedForThisCard (state E) = false ->
    result (canConnect full fromId toId) E = Some true ->
    primStep full E
      (withState (setBuildUsed true) (afterAddSegment fromId toId l LS ln E))
| step_next E rnd l LS r :
    currentLineId E = Some l -> lsGet l (lineStates E) = Some LS ->
    computeCurrentRoundScore full E =
      (Some r, withRoundResults (roundResults E ++ [r]) E) ->
    primStep full E
      (withState (nextRoundState rnd)
         (withRoundResults (roundResults E ++ [r]) E)).

(** The engine states made by elementary steps from the loaded script. *)
Definition played (full : list StationData) (E : Engine) : Prop :=
  rtc (primStep full) initialEngine E.

(** The platform-type counters after a card of platform type pt is counted. *)
Definition countedCenter (c : Card) (s : State) : nat :=
  if bool_decide (ptype c = "center") then S (centerCount s) else centerCount s.
Definition countedSide (c : Card) (s : State) : nat :=
  if bool_decide (ptype c = "center") then sideCount s
  else if bool_decide (ptype c = "side") then S (sideCount s) else sideCount s.

(** What holds of the card state in every state of a session. *)
Definition cardsInv (s : State) : Prop :=
  roundEndedInv s /\
  drawsThisRound s = (centerCount s + sideCount s)%nat /\
  (centerCount s ≤ 5)%nat /\ (sideCount s ≤ 5)%nat /\
  (drawsThisRound s ≤ 8)%nat /\
  deck s ⊆+ baseDeck /\
  (forall c, currentCard s = Some c -> c ∈ baseDeck).

(** The rounds played so far are the first lines of the order, each with
    its result. *)
Definition progressInv (E : Engine) : Prop :=
  rr_lineId <$> roundResults E
    = take (roundIndex (state E)) (order (state E)) /\
  (roundIndex (state E) ≤ length (order (state E)))%nat /\
  (order (state E) = [] \/ order (state E) ≡ₚ map line_id LINES).

(** The start stations of the four lines. *)
Definition startStations : list Z := map line_start LINES.

(** Station ownership and the lines' visited stations agree: a station on a
    line is a transfer station (the exception or a start) or is owned by
    that line, and an owned station is on the line that owns it. *)
Definition ownershipInv (E : Engine) : Prop :=
  (forall l LS sid,
     lsGet l (lineStates E) = Some LS -> sid ∈ visited LS ->
     sid = STATION_TRANSFER_EXCEPTION \/ sid ∈ startStations \/
     stationOwner E !! sid = Some l) /\
  (forall sid l,
     stationOwner E !! sid = Some l ->
     exists LS, lsGet l (lineStates E) = Some LS /\ sid ∈ visited LS).

(** The sections between consecutive stations of a route. *)
Fixpoint hops (p : list Z) : list Segment :=
  match p with
  | a :: (b :: _) as rest => mkSegment a b :: hops rest
  | _ => []
  end.

(** Build state LS is the route a :: q: the stations of the route are the
    visited ones, none twice; the sections are the hops of the route, in any
    order and direction; the endpoints are the two ends of the route (none
    when the route is one station). *)
Definition routeOf (LS : LineState) (a : Z) (q : list Z) : Prop :=
  NoDup (a :: q) /\
  visited LS = list_to_set (a :: q) /\
  pairKey <$> segments LS ≡ₚ pairKey <$> hops (a :: q) /\
  endpoints LS = match last q with
                 | None => ∅
                 | Some z => {[ a; z ]}
                 end.

(** Every line with a build state is one of the four lines and its build
    state is a route through its start station. *)
Definition routesInv (E : Engine) : Prop :=
  forall l LS,
    lsGet l (lineStates E) = Some LS ->
    exists ln a q,
      findLine l = Some ln /\ routeOf LS a q /\ line_start ln ∈ a :: q.

(** The events of a game in play: all but the start of a game and the return
    to the main menu. *)
Definition inGameEvent (ev : Event) : Prop :=
  match ev with
  | EvStart _ _ | EvMainMenu => False
  | _ => True
  end.

(** Every section joins two different known stations that are aligned with
    no station strictly between them, and two sections with a point in
    common have a station in common. *)
Definition networkInv (full : list StationData) (E : Engine) : Prop :=
  (forall s, s ∈ allSegments (lineStates E) ->
     seg_a s ≠ seg_b s /\
     exists A B,
       stationById full !! seg_a s = Some A /\
       stationById full !! seg_b s = Some B /\
       isStraightOrDiag A B = true /\ ~ stationBetween full A B) /\
  (forall s t A B C D,
     s ∈ allSegments (lineStates E) -> t ∈ allSegments (lineStates E) ->
     stationById full !! seg_a s = Some A ->
     stationById full !! seg_b s = Some B ->
     stationById full !! seg_a t = Some C ->
     stationById full !! seg_b t = Some D ->
     segmentsMeet (pointOf A) (pointOf B) (pointOf C) (pointOf D) ->
     sharesStation (seg_a s) (seg_b s) t).

(** The lines with a build state: no line twice, and each of them the
    current line or a line of an earlier round. *)
Definition keysInv (E : Engine) : Prop :=
  NoDup (lineStates E).*1 /\
  (forall l, l ∈ (lineStates E).*1 ->
     exists j, (j ≤ roundIndex (state E))%nat /\ order (state E) !! j = Some l).

(** The transfer stations: the exception and the four start stations. *)
Definition transferStations : gset Z :=
  list_to_set (STATION_TRANSFER_EXCEPTION :: startStations).

(** The builds the current card still allows: one when a card is drawn and
    not used, none otherwise. *)
Definition buildsLeft (s : State) : nat :=
  if bool_decide (currentCard s ≠ None) && negb (buildUsedForThisCard s)
  then 1%nat else 0%nat.

(** The sections of the current line and the build the current card allows
    are covered by the cards drawn in the round; no line has more than
    eight sections. *)
Definition buildsInv (E : Engine) : Prop :=
  (buildsLeft (state E) ≤ drawsThisRound (state E))%nat /\
  (forall l LS,
     lsGet l (lineStates E) = Some LS ->
     (length (segments LS) ≤ 8)%nat /\
     (currentLineId E = Some l ->
      (length (segments LS) + buildsLeft (state E)
       ≤ drawsThisRound (state E))%nat)).

(* ========================================================================= *)
(*  Properties                                                               *)
(* ========================================================================= *)

#[local] Set Warnings "-clear-no-such-hyp".

(* The commands are unfolded on request only. *)
Arguments ensureLineState : simpl never.
Arguments updateRoundEndingState : simpl never.
Arguments refillDeck : simpl never.
Arguments assignOwner : simpl never.
Arguments canConnect : simpl never.
Arguments addSegment : simpl never.
Arguments computeCurrentRoundScore : simpl never.
Arguments updatePPView : simpl never.
Arguments finishGame : simpl never.
Arguments nextRound : simpl never.
Arguments drawCard : simpl never.
Arguments switchCard : simpl never.
Arguments attemptConnection : simpl never.
Arguments buildDeck : simpl never.

(** Unfolding of the monad operations. *)
Ltac munfold :=
  unfold result, exec, bind, ret, throw, gets, modify, when in *.

(* ------------------------------------------------------------------------- *)
(* The Map operations on lineStates                                          *)
(* ------------------------------------------------------------------------- *)

Lemma lsSet_absent l v ls :
  lsGet l ls = None -> lsSet l v ls = ls ++ [(l, v)].
Proof.
  induction ls as [|[k w] ls IH]; simpl; [done|].
  case_bool_decide; [done|]. intros Hn. by rewrite IH.
Qed.

Lemma lsGet_lsSet_eq l v ls : lsGet l (lsSet l v ls) = Some v.
Proof.
  induction ls as [|[k w] ls IH]; simpl.
  - by rewrite bool_decide_eq_true_2.
  - case_bool_decide as Hk; simpl.
    + by rewrite bool_decide_eq_true_2.
    + by rewrite bool_decide_eq_false_2.
Qed.

Lemma lsGet_lsSet_ne l l' v ls :
  l ≠ l' -> lsGet l' (lsSet l v ls) = lsGet l' ls.
Proof.
  intros Hne. induction ls as [|[k w] ls IH]; simpl.
  - by rewrite bool_decide_eq_false_2.
  - case_bool_decide as Hk; simpl.
    + subst k. by rewrite !bool_decide_eq_false_2.
    + case_bool_decide; [done|]. apply IH.
Qed.

Lemma lsGet_app_l l ls ls' v :
  lsGet l ls = Some v -> lsGet l (ls ++ ls') = Some v.
Proof.
  induction ls as [|[k w] ls IH]; simpl; [done|].
  case_bool_decide; [done|]. apply IH.
Qed.

Lemma allSegments_app ls ls' :
  allSegments (ls ++ ls') = allSegments ls ++ allSegments ls'.
Proof. unfold allSegments. apply flat_map_app. Qed.

(** Replacing the build state of a present key changes the placed segments
    up to their order only. *)
Lemma allSegments_lsSet_present l LS LS' ls :
  lsGet l ls = Some LS ->
  exists pre post,
    allSegments ls = pre ++ segments LS ++ post /\
    allSegments (lsSet l LS' ls) = pre ++ segments LS' ++ post.
Proof.
  induction ls as [|[k w] ls IH]; simpl; [done|].
  case_bool_decide as Hk.
  - intros [= ->]. exists [], (allSegments ls). by simpl.
  - intros Hg. destruct (IH Hg) as (pre & post & H1 & H2).
    exists (segments w ++ pre), post. unfold allSegments in *. simpl.
    rewrite H1, H2. by rewrite <- !app_assoc.
Qed.

(* ------------------------------------------------------------------------- *)
(* ensureLineState                                                           *)
(* ------------------------------------------------------------------------- *)

(** The three ways ensureLineState can go. *)
Lemma ensureLineState_cases lineId E :
  (exists l LS, lineId = Some l /\ lsGet l (lineStates E) = Some LS /\
     ensureLineState lineId E = (Some (l, LS), E)) \/
  (exists l ln, lineId = Some l /\ lsGet l (lineStates E) = None /\
     findLine l = Some ln /\
     ensureLineState lineId E =
       (Some (l, freshLineState (line_start ln)),
        withLineStates
          (lineStates E ++ [(l, freshLineState (line_start ln))]) E)) \/
  ((lineId = None \/
    exists l, lineId = Some l /\ lsGet l (lineStates E) = None /\
              findLine l = None) /\
   ensureLineState lineId E = (None, E)).
Proof.
  unfold ensureLineState, throw. destruct lineId as [l|]; simpl.
  - destruct (lsGet l (lineStates E)) as [LS|] eqn:Hg.
    + left. eauto 10.
    + destruct (findLine l) as [ln|] eqn:Hf.
      * right; left. exists l, ln. by rewrite lsSet_absent.
      * right; right. split; [right; eauto|done].
  - right; right. split; [by left|done].
Qed.

(* ------------------------------------------------------------------------- *)
(* The deck                                                                  *)
(* ------------------------------------------------------------------------- *)

Lemma swapCards_length i j d : length (swapCards i j d) = length d.
Proof.
  unfold swapCards. destruct (d !! i), (d !! j); try done.
  by rewrite !length_insert.
Qed.

Lemma shuffleFrom_length rnd i d : length (shuffleFrom rnd i d) = length d.
Proof.
  revert d. induction i as [|i IH]; intros d; simpl; [done|].
  by rewrite IH, swapCards_length.
Qed.

Lemma buildDeck_length rnd : length (buildDeck rnd) = 10%nat.
Proof. unfold buildDeck. by rewrite shuffleFrom_length. Qed.

(* ------------------------------------------------------------------------- *)
(* The pass-through walk ends on aligned stations                            *)
(* ------------------------------------------------------------------------- *)

Section Geometry.

Variable full : list StationData.

Lemma walkPath_total fuel dx dy b :
  forall k x y,
    (0 ≤ k)%Z -> (Z.to_nat k ≤ fuel)%nat ->
    x = st_x b - k * dx -> y = st_y b - k * dy ->
    is_Some (walkPath full fuel dx dy x y b).
Proof.
  induction fuel as [|fuel IH]; intros k x y Hk Hf Hx Hy; simpl.
  - assert (k = 0) as -> by lia.
    rewrite (bool_decide_eq_false_2 (x ≠ st_x b)) by lia.
    rewrite (bool_decide_eq_false_2 (y ≠ st_y b)) by lia. simpl. eauto.
  - destruct (bool_decide (x ≠ st_x b) || bool_decide (y ≠ st_y b)) eqn:Hc;
      [|eauto].
    destruct (bool_decide (is_Some (stationAt full !! (x, y)))); [eauto|].
    assert (k ≠ 0).
    { intros ->. apply orb_true_iff in Hc as [Hc|Hc];
        apply bool_decide_eq_true_1 in Hc; lia. }
    apply (IH (k - 1)); lia.
Qed.

Lemma pathPassesThroughStation_total a b :
  isStraightOrDiag a b = true ->
  is_Some (pathPassesThroughStation full (pathFuel a b) a b).
Proof.
  unfold isStraightOrDiag, pathPassesThroughStation, pathFuel. intros Hal.
  set (n := Z.max (Z.abs (st_x b - st_x a)) (Z.abs (st_y b - st_y a))).
  destruct (decide (n = 0)) as [Hn|Hn].
  - apply (walkPath_total _ _ _ _ 0); lia.
  - apply (walkPath_total _ _ _ _ (n - 1)); [lia|lia| |].
    + apply orb_true_iff in Hal as [Hal|Hal];
        [apply orb_true_iff in Hal as [Hal|Hal]|];
        apply bool_decide_eq_true_1 in Hal; nia.
    + apply orb_true_iff in Hal as [Hal|Hal];
        [apply orb_true_iff in Hal as [Hal|Hal]|];
        apply bool_decide_eq_true_1 in Hal; nia.
Qed.

End Geometry.

(* ------------------------------------------------------------------------- *)
(* canConnect                                                                *)
(* ------------------------------------------------------------------------- *)

Section CanConnect.

Variable full : list StationData.

(** The only state change of canConnect is the one of its call of
    ensureLineState. *)
Lemma canConnect_exec fromId toId E :
  exec (canConnect full fromId toId) E =
  exec (ensureLineState (currentLineId E)) E.
Proof.
  unfold canConnect. munfold. simpl.
  destruct (ensureLineState (currentLineId E) E) as [[[l LS]|] E1]; simpl; [|done].
  repeat (case_match; simpl; try done).
Qed.

(** ensureLineState keeps everything but lineStates. *)
Lemma ensureLineState_frame lineId E :
  let E' := exec (ensureLineState lineId) E in
  state E' = state E /\ stationOwner E' = stationOwner E /\
  roundResults E' = roundResults E /\
  selectedStationId E' = selectedStationId E.
Proof.
  unfold exec.
  destruct (ensureLineState_cases lineId E)
    as [(l & LS & _ & _ & ->)|[(l & ln & _ & _ & _ & ->)|[_ ->]]]; by simpl.
Qed.

Lemma ensureLineState_currentLine lineId E :
  currentLine (exec (ensureLineState lineId) E) = currentLine E.
Proof.
  unfold currentLine, currentLineId.
  by destruct (ensureLineState_frame lineId E) as (-> & _).
Qed.

Lemma crossesOther_total fromId toId a1 a2 segs :
  Forall (fun s => is_Some (stationById full !! seg_a s) /\
                   is_Some (stationById full !! seg_b s)) segs ->
  is_Some (crossesOther full fromId toId a1 a2 segs).
Proof.
  induction 1 as [|s segs [[C HC] [D HD]] _ IH]; simpl; [eauto|].
  rewrite HC, HD. repeat case_match; eauto.
Qed.

Lemma stationMatchesCard_no_card E B :
  currentCard (state E) = None -> stationMatchesCard E B = false.
Proof. unfold stationMatchesCard. by intros ->. Qed.

Lemma roundInProgress_ensure E :
  roundInProgress E ->
  exists l LS, currentLineId E = Some l /\
    ensureLineState (currentLineId E) E =
      (Some (l, LS), exec (ensureLineState (currentLineId E)) E).
Proof.
  unfold roundInProgress, currentLine, exec. intros [ln Hln].
  destruct (currentLineId E) as [l0|] eqn:Hl0; [|done].
  destruct (ensureLineState_cases (Some l0) E)
    as [(l & LS & ? & _ & ->)|[(l & ln' & ? & _ & _ & ->)|[[?|(l & ? & _ & ?)] _]]];
    simplify_eq; eauto.
Qed.

(** What an accepted connection has passed. *)
Lemma canConnect_true fromId toId E :
  result (canConnect full fromId toId) E = Some true ->
  fromId ≠ toId /\
  existsb (samePair fromId toId)
    (allSegments (lineStates (exec (ensureLineState (currentLineId E)) E)))
  = false.
Proof.
  unfold canConnect. munfold. simpl.
  destruct (ensureLineState (currentLineId E) E) as [[[l LS]|] E1]; simpl; [|done].
  repeat (case_match; simpl; try done).
  all: intros _; split; [|done].
  all: match goal with
       | H : bool_decide (?a = ?b) = false |- ?a ≠ ?b =>
           by apply bool_decide_eq_false_1 in H
       end.
Qed.

End CanConnect.

(* ------------------------------------------------------------------------- *)
(* C9: no connection without a drawn card                                    *)
(* ------------------------------------------------------------------------- *)

(** C9 (as amended).  With no active card (currentCard is null), canConnect
    accepts no pair of station ids: its result is never true, and it is
    false whenever a round is in progress (the current line is one of the
    four lines, the condition under which canConnect gets past its first two
    lines at all; outside a round ensureLineState throws).  The symbol-match
    check fails when there is no active card, and every return before it is
    a `return false`. *)
Theorem canConnect_needs_card (full : list StationData) (fromId toId : Z)
    (E : Engine) :
  currentCard (state E) = None ->
  result (canConnect full fromId toId) E ≠ Some true /\
  (roundInProgress E -> result (canConnect full fromId toId) E = Some false).
Proof.
  intros Hcard.
  assert (forall E1 B, state E1 = state E -> stationMatchesCard E1 B = false)
    as Hm.
  { intros E1 B HE1. apply stationMatchesCard_no_card. by rewrite HE1. }
  split.
  - unfold canConnect. munfold. simpl.
    pose proof (ensureLineState_frame (currentLineId E) E) as (Hst & _).
    unfold exec in Hst.
    destruct (ensureLineState (currentLineId E) E) as [[[l LS]|] E1]; simpl in *;
      [|done].
    repeat (case_match; simpl; try done).
    all: match goal with
         | H : negb (stationMatchesCard ?E' _) = false |- _ =>
             by rewrite (Hm E' _ Hst) in H
         end.
  - intros Hr.
    pose proof (ensureLineState_currentLine (currentLineId E) E) as Hcl.
    pose proof (ensureLineState_frame (currentLineId E) E) as (Hst & _).
    destruct (roundInProgress_ensure E Hr) as (l & LS & Hl & Hens).
    unfold canConnect. munfold. simpl. rewrite Hens. simpl.
    unfold exec in *.
    set (E1 := (ensureLineState (currentLineId E) E).2) in *.
    destruct Hr as [ln Hln]. rewrite <- Hcl in Hln.
    repeat (case_match; simpl; try done; try congruence).
    all: match goal with
         | H : negb (stationMatchesCard ?E' _) = false |- _ =>
             by rewrite (Hm E' _ Hst) in H
         end.
Qed.

(* ------------------------------------------------------------------------- *)
(* C1: what canConnect changes                                               *)
(* ------------------------------------------------------------------------- *)

Lemma ensureLineState_allSegments lineId E :
  allSegments (lineStates (exec (ensureLineState lineId) E)) =
  allSegments (lineStates E).
Proof.
  unfold exec.
  destruct (ensureLineState_cases lineId E)
    as [(l & LS & _ & _ & ->)|[(l & ln & _ & _ & _ & ->)|[_ ->]]]; simpl; try done.
  rewrite allSegments_app. unfold allSegments at 2. simpl.
  by rewrite !app_nil_r.
Qed.

Lemma canConnect_returns (full : list StationData) fromId toId E :
  roundInProgress E -> segmentsKnown full E ->
  is_Some (result (canConnect full fromId toId) E).
Proof.
  intros Hr Hk.
  pose proof (ensureLineState_currentLine (currentLineId E) E) as Hcl.
  pose proof (ensureLineState_allSegments (currentLineId E) E) as Hall.
  destruct (roundInProgress_ensure E Hr) as (l & LS & Hl & Hens).
  unfold canConnect. munfold. simpl. rewrite Hens. simpl.
  unfold exec in *.
  set (E1 := (ensureLineState (currentLineId E) E).2) in *.
  destruct Hr as [ln Hln]. rewrite <- Hcl in Hln.
  repeat (case_match; simpl; try done; try congruence; eauto).
  all: match goal with
       | H : pathPassesThroughStation _ _ ?a ?b = None |- _ =>
           destruct (pathPassesThroughStation_total full a b) as [r Hr];
             [by apply negb_false_iff|congruence]
       | H : crossesOther _ ?f ?t ?a1 ?a2 _ = None |- _ =>
           destruct (crossesOther_total full f t a1 a2
                       (allSegments (lineStates E1))) as [r Hr];
             [by rewrite Hall|congruence]
       end.
Qed.

(** A connection attempt that canConnect rejects leaves the state canConnect
    leaves (or, stopped by the card guards before it, the state as it was). *)
Lemma attemptConnection_rejected (full : list StationData)
    (hudPP trainSlider : bool) fromId toId rnd E :
  result (canConnect full fromId toId) E = Some false ->
  let E'' := exec (attemptConnection full hudPP trainSlider fromId toId rnd) E in
  E'' = E \/ E'' = exec (canConnect full fromId toId) E.
Proof.
  unfold attemptConnection. munfold. simpl. intros Hrej.
  destruct (bool_decide (currentCard (state E) = None)); [by left|].
  destruct (buildUsedForThisCard (state E)); [by left|].
  destruct (canConnect full fromId toId E) as [[[|]|] E1]; simpl in *;
    try done. by right.
Qed.

(** C1 (as amended).  During a round, with every placed segment between
    known stations, canConnect returns a boolean.  It never changes the round
    state (counters, current card), the ownership map, the round results or
    an existing line build state.  The one change it can make is that of its
    call of ensureLineState: when the current line has no build state yet,
    a fresh one (no segments, no endpoints, visited = {start}) is added for
    it; when the current line has its build state, or there is no current
    line, the engine state is the same before and after the call.  A rejected
    connection attempt changes nothing beyond that. *)
Theorem canConnect_state_effect (full : list StationData) (fromId toId : Z)
    (E : Engine) :
  let E' := exec (canConnect full fromId toId) E in
  (roundInProgress E -> segmentsKnown full E ->
   is_Some (result (canConnect full fromId toId) E)) /\
  (result (canConnect full fromId toId) E = Some false ->
   forall hudPP trainSlider rnd,
     let E'' :=
       exec (attemptConnection full hudPP trainSlider fromId toId rnd) E in
     E'' = E \/ E'' = E') /\
  state E' = state E /\
  stationOwner E' = stationOwner E /\
  roundResults E' = roundResults E /\
  (forall l LS, lsGet l (lineStates E) = Some LS ->
                lsGet l (lineStates E') = Some LS) /\
  (forall l, currentLineId E = Some l -> is_Some (lsGet l (lineStates E)) ->
             E' = E) /\
  (currentLine E = None -> E' = E) /\
  (forall l ln, currentLineId E = Some l -> lsGet l (lineStates E) = None ->
     findLine l = Some ln ->
     E' = withLineStates
            (lineStates E ++ [(l, freshLineState (line_start ln))]) E).
Proof.
  intros E'. subst E'.
  split; [apply canConnect_returns|].
  split; [intros Hrej hudPP trainSlider rnd; by apply attemptConnection_rejected|].
  rewrite canConnect_exec.
  destruct (ensureLineState_frame (currentLineId E) E) as (H1 & H2 & H3 & _).
  do 3 (split; [done|]). unfold exec.
  destruct (ensureLineState_cases (currentLineId E) E)
    as [(l & LS & Hl & Hg & ->)|[(l & ln & Hl & Hg & Hf & ->)|[Hn ->]]]; simpl.
  - split; [done|]. split; [done|]. split; [done|].
    intros l' ln' ? ? ?. congruence.
  - split; [intros l' LS' Hg'; by apply lsGet_app_l|].
    split; [intros l' ? [LS' HLS']; congruence|].
    split; [unfold currentLine; rewrite Hl, Hf; congruence|].
    intros l' ln' ? ? ?. congruence.
  - split; [done|]. split; [done|]. split; [done|].
    intros l ln Hl Hg Hf. destruct Hn as [Hn|(l' & ? & ? & ?)]; congruence.
Qed.

(* ------------------------------------------------------------------------- *)
(* addSegment                                                                *)
(* ------------------------------------------------------------------------- *)

Lemma withStationOwner_id E : withStationOwner (stationOwner E) E = E.
Proof. by destruct E. Qed.

Lemma assignOwner_run id startId2 lineId E :
  assignOwner id startId2 lineId E =
  (Some tt, withStationOwner (ownerAfter id startId2 lineId (stationOwner E)) E).
Proof.
  unfold assignOwner, ownerAfter. munfold.
  destruct (bool_decide (id ≠ STATION_TRANSFER_EXCEPTION)); simpl;
    [|by rewrite withStationOwner_id].
  destruct (bool_decide (id = startId2)
            || negb (bool_decide (is_Some (stationOwner E !! id)))); simpl;
    [done|by rewrite withStationOwner_id].
Qed.

(** The ways addSegment can go: it stops in ensureLineState with nothing
    changed; it completes; or (on a build state kept under an id that is not
    a line) it stops after the build state is updated. *)
Lemma addSegment_cases fromId toId E :
  (ensureLineState (currentLineId E) E = (None, E) /\
   addSegment fromId toId E = (None, E)) \/
  (exists l LS ln,
     currentLineId E = Some l /\ findLine l = Some ln /\
     ensureLineState (currentLineId E) E =
       (Some (l, LS), exec (ensureLineState (currentLineId E)) E) /\
     addSegment fromId toId E =
       (Some tt,
        afterAddSegment fromId toId l LS ln
          (exec (ensureLineState (currentLineId E)) E))) \/
  (exists l LS,
     currentLineId E = Some l /\ findLine l = None /\
     lsGet l (lineStates E) = Some LS /\
     addSegment fromId toId E =
       (None, withLineStates
                (lsSet l (extendLine fromId toId LS) (lineStates E)) E)).
Proof.
  unfold addSegment, afterAddSegment. munfold. simpl.
  assert (forall ls, currentLine (withLineStates ls E) = currentLine E) as Hcl
    by done.
  assert (forall ls E0, exec (ensureLineState (currentLineId E)) E = E0 ->
            currentLine (withLineStates ls E0) = currentLine E) as Hcl'.
  { intros ls E0 <-. apply ensureLineState_currentLine. }
  destruct (ensureLineState_cases (currentLineId E) E)
    as [(l & LS & Hl & Hg & Hens)|[(l & ln & Hl & Hg & Hf & Hens)|[Hn Hens]]].
  - rewrite Hens. simpl. rewrite Hcl. unfold currentLine. rewrite Hl.
    destruct (findLine l) as [ln|] eqn:Hf.
    + right; left. exists l, LS, ln. repeat split; try done.
      by rewrite !assignOwner_run.
    + right; right. exists l, LS. by repeat split.
  - rewrite Hens. simpl.
    rewrite (Hcl' _ _ (f_equal snd Hens)).
    unfold currentLine. rewrite Hl, Hf.
    right; left. exists l, (freshLineState (line_start ln)), ln.
    repeat split; try done. by rewrite !assignOwner_run.
  - left. by rewrite Hens.
Qed.


(* ------------------------------------------------------------------------- *)
(* The card and round state machine                                          *)
(* ------------------------------------------------------------------------- *)

Lemma updateRoundEndingState_run E :
  updateRoundEndingState E =
  (Some tt,
   withState (setRoundComplete
     (bool_decide (5 ≤ centerCount (state E))%nat ||
      bool_decide (5 ≤ sideCount (state E))%nat ||
      bool_decide (8 ≤ drawsThisRound (state E))%nat)) E).
Proof.
  unfold updateRoundEndingState. munfold. by case_match.
Qed.

Lemma refillDeck_run rnd E :
  refillDeck rnd E =
  (Some tt,
   withState (fun s =>
     mkState (order s) (roundIndex s)
             (if bool_decide (length (deck s) = 0%nat) then buildDeck rnd
              else deck s)
             (drawsThisRound s) (centerCount s) (sideCount s) (currentCard s)
             (buildUsedForThisCard s) (roundComplete s) (heldCard s)
             (switchUsedThisRound s) (pencilMode s)) E).
Proof.
  unfold refillDeck. munfold.
  destruct (bool_decide (length (deck (state E)) = 0%nat)) eqn:Hd;
    munfold; unfold withState; simpl; rewrite ?Hd; [done|].
  by destruct E as [[] ? ? ? ?].
Qed.

Lemma refilled_nonempty rnd (d : list Card) :
  (if bool_decide (length d = 0%nat) then buildDeck rnd else d) ≠ [].
Proof.
  case_bool_decide as Hd.
  - intros Hb. pose proof (buildDeck_length rnd) as Hl. by rewrite Hb in Hl.
  - intros ->. by apply Hd.
Qed.

Lemma last_nonempty {A} (l : list A) : l ≠ [] -> is_Some (last l).
Proof.
  intros Hl. destruct (exists_last Hl) as (l' & c & ->).
  rewrite last_snoc. eauto.
Qed.

(** drawCard always completes, and what it leaves is a state in which the
    round is marked ended exactly when a threshold is reached (given that
    this held before), with the build state and ownership untouched. *)
Lemma drawCard_effect rnd E :
  let E' := exec (drawCard rnd) E in
  result (drawCard rnd) E = Some tt /\
  (roundEndedInv (state E) -> roundEndedInv (state E')) /\
  lineStates E' = lineStates E /\ stationOwner E' = stationOwner E /\
  roundResults E' = roundResults E.
Proof.
  unfold drawCard. munfold. simpl.
  destruct (roundComplete (state E)) eqn:Hrc; simpl; [done|].
  rewrite refillDeck_run. simpl.
  destruct (last_nonempty _ (refilled_nonempty rnd (deck (state E)))) as [c Hc].
  rewrite Hc. simpl.
  destruct (bool_decide (ptype c = "center"));
    [|destruct (bool_decide (ptype c = "side"))];
    simpl; rewrite updateRoundEndingState_run; simpl;
    (split; [done|]); (split; [|done]); intros _;
    unfold roundEndedInv, thresholdReached; simpl;
    rewrite !orb_true_iff, !bool_decide_eq_true; tauto.
Qed.

Lemma switchCard_effect rnd E :
  let E' := exec (switchCard rnd) E in
  result (switchCard rnd) E = Some tt /\
  (roundEndedInv (state E) -> roundEndedInv (state E')) /\
  lineStates E' = lineStates E /\ stationOwner E' = stationOwner E /\
  roundResults E' = roundResults E.
Proof.
  unfold switchCard. munfold. simpl.
  destruct (bool_decide (currentCard (state E) = None)); [done|].
  destruct (buildUsedForThisCard (state E)); [done|].
  destruct (switchUsedThisRound (state E)); [done|].
  rewrite refillDeck_run. simpl. rewrite updateRoundEndingState_run. simpl.
  (split; [done|]); (split; [|done]); intros _.
  unfold roundEndedInv, thresholdReached; simpl.
  rewrite !orb_true_iff, !bool_decide_eq_true; tauto.
Qed.

(* ------------------------------------------------------------------------- *)
(* Steps that place no segment and claim no station                          *)
(* ------------------------------------------------------------------------- *)

Lemma quietStep_refl E : quietStep E E.
Proof. unfold quietStep. tauto. Qed.

Lemma quietStep_trans E1 E2 E3 :
  quietStep E1 E2 -> quietStep E2 E3 -> quietStep E1 E3.
Proof.
  intros (H1 & H2 & H3) (H1' & H2' & H3').
  split; [auto|]. split; [by rewrite H2'|by rewrite H3'].
Qed.

Lemma quietStep_state E E' :
  state E' = state E -> lineStates E' = lineStates E ->
  stationOwner E' = stationOwner E -> quietStep E E'.
Proof. intros H1 H2 H3. unfold quietStep. by rewrite H1, H2, H3. Qed.

Lemma ensureLineState_quiet lineId E :
  quietStep E (exec (ensureLineState lineId) E).
Proof.
  destruct (ensureLineState_frame lineId E) as (H1 & H2 & _).
  split; [by rewrite H1|]. split; [|done].
  apply ensureLineState_allSegments.
Qed.

Lemma drawCard_quiet rnd E : quietStep E (exec (drawCard rnd) E).
Proof.
  destruct (drawCard_effect rnd E) as (_ & H1 & H2 & H3 & _).
  split; [done|]. split; [by rewrite H2|done].
Qed.

Lemma switchCard_quiet rnd E : quietStep E (exec (switchCard rnd) E).
Proof.
  destruct (switchCard_effect rnd E) as (_ & H1 & H2 & H3 & _).
  split; [done|]. split; [by rewrite H2|done].
Qed.

Section Steps.

Variable full : list StationData.
Variables hudPP trainSlider : bool.

Lemma canConnect_quiet fromId toId E :
  quietStep E (exec (canConnect full fromId toId) E).
Proof. rewrite canConnect_exec. apply ensureLineState_quiet. Qed.

(** computeCurrentRoundScore stops in ensureLineState with nothing changed,
    or records one result. *)
Lemma computeCurrentRoundScore_cases E :
  computeCurrentRoundScore full E = (None, E) \/
  exists r,
    computeCurrentRoundScore full E =
    (Some r,
     let E1 := exec (ensureLineState (currentLineId E)) E in
     withRoundResults (roundResults E1 ++ [r]) E1).
Proof.
  unfold computeCurrentRoundScore. munfold. simpl.
  destruct (ensureLineState_cases (currentLineId E) E)
    as [(l & LS & Hl & Hg & ->)|[(l & ln & Hl & Hg & Hf & ->)|[Hn ->]]];
    simpl; eauto.
Qed.

Lemma computeCurrentRoundScore_quiet E :
  quietStep E (exec (computeCurrentRoundScore full) E).
Proof.
  unfold exec at 1.
  destruct (computeCurrentRoundScore_cases E) as [->|[r ->]]; simpl.
  - apply quietStep_refl.
  - eapply quietStep_trans; [apply (ensureLineState_quiet (currentLineId E))|].
    by apply quietStep_state.
Qed.

Lemma updatePPView_run E :
  exists n, updatePPView full hudPP trainSlider E = (Some n, E).
Proof.
  unfold updatePPView. munfold.
  destruct (negb hudPP && negb trainSlider); eauto.
Qed.

Lemma finishGame_run E :
  exists g, finishGame full hudPP trainSlider E = (Some g, E).
Proof.
  unfold finishGame. munfold. simpl.
  destruct (countJunctions _) as [[P2 P3] P4].
  destruct (updatePPView_run E) as [n ->]. simpl. eauto.
Qed.

Lemma nextRound_quiet rnd E :
  quietStep E (exec (nextRound full hudPP trainSlider rnd) E).
Proof.
  unfold nextRound. munfold. simpl.
  pose proof (computeCurrentRoundScore_quiet E) as Hq. unfold exec in Hq.
  destruct (computeCurrentRoundScore full E) as [[r|] E1]; simpl in *; [|done].
  eapply quietStep_trans; [exact Hq|].
  case_bool_decide; simpl.
  - match goal with
    | |- context [finishGame _ _ _ ?E0] =>
        destruct (finishGame_run E0) as [g ->]
    end. simpl.
    split; [|done]. by unfold roundEndedInv, thresholdReached.
  - split; [|done]. intros _.
    unfold roundEndedInv, thresholdReached; simpl. split; [done|lia].
Qed.

End Steps.

(* ------------------------------------------------------------------------- *)
(* The invariant of reachable engine states                                  *)
(* ------------------------------------------------------------------------- *)

Lemma sameUnorderedPair_key s t : sameUnorderedPair s t <-> pairKey s = pairKey t.
Proof.
  unfold sameUnorderedPair, pairKey. split.
  - intros [[-> ->]|[-> ->]]; f_equal; lia.
  - intros [= H1 H2]. lia.
Qed.

Lemma samePair_spec fromId toId s :
  samePair fromId toId s = true <->
  sameUnorderedPair s (mkSegment fromId toId).
Proof.
  unfold samePair, sameUnorderedPair. simpl.
  rewrite orb_true_iff, !andb_true_iff, !bool_decide_eq_true. tauto.
Qed.

Lemma no_samePair_key fromId toId segs :
  existsb (samePair fromId toId) segs = false ->
  pairKey (mkSegment fromId toId) ∉ pairKey <$> segs.
Proof.
  intros Hex Hin. apply list_elem_of_fmap in Hin as (s & Hk & Hs).
  assert (existsb (samePair fromId toId) segs = true) as Ht; [|congruence].
  apply existsb_exists. exists s. split; [by apply list_elem_of_In|].
  apply samePair_spec, sameUnorderedPair_key. done.
Qed.

Lemma quietStep_inv E E' : quietStep E E' -> engineInv E -> engineInv E'.
Proof.
  intros (H1 & H2 & H3) (I1 & I2 & I3).
  unfold engineInv, segmentsDistinct, exceptionUnowned. rewrite H2, H3. auto.
Qed.

Lemma ownerAfter_exception id startId2 lineId (o : gmap Z Z) :
  ownerAfter id startId2 lineId o !! STATION_TRANSFER_EXCEPTION =
  o !! STATION_TRANSFER_EXCEPTION.
Proof.
  unfold ownerAfter. case_bool_decide as Hid; simpl; [|done].
  case_match; [|done]. by rewrite lookup_insert_ne.
Qed.

Lemma ensureLineState_lookup lineId E l LS E' :
  ensureLineState lineId E = (Some (l, LS), E') ->
  lsGet l (lineStates E') = Some LS.
Proof.
  destruct (ensureLineState_cases lineId E)
    as [(l' & LS' & _ & Hg & ->)|[(l' & ln & _ & Hg & _ & ->)|[_ ->]]];
    intros [= <- <- <-]; simpl; [done|].
  rewrite <- (lsSet_absent _ (freshLineState (line_start ln)) _ Hg).
  apply lsGet_lsSet_eq.
Qed.

(** Extending the build state of a present line adds one segment to the
    placed segments, up to their order. *)
Lemma allSegments_extend fromId toId l LS ls :
  lsGet l ls = Some LS ->
  allSegments (lsSet l (extendLine fromId toId LS) ls)
  ≡ₚ mkSegment fromId toId :: allSegments ls.
Proof.
  intros Hg.
  destruct (allSegments_lsSet_present l LS (extendLine fromId toId LS) ls Hg)
    as (pre & post & -> & ->). simpl.
  rewrite <- !app_assoc. simpl. symmetry. rewrite !app_assoc.
  apply Permutation_middle.
Qed.

Section Invariant.

Variable full : list StationData.
Variables hudPP trainSlider : bool.

(** addSegment after an accepted canConnect keeps the invariant. *)
Lemma addSegment_inv fromId toId E :
  engineInv E ->
  pairKey (mkSegment fromId toId) ∉ pairKey <$> allSegments (lineStates E) ->
  engineInv (exec (addSegment fromId toId) E).
Proof.
  intros (I1 & I2 & I3) Hnew. unfold exec.
  pose proof (ensureLineState_quiet (currentLineId E) E) as (Q1 & Q2 & Q3).
  destruct (addSegment_cases fromId toId E)
    as [[_ ->]|[(l & LS & ln & Hl & Hf & Hens & ->)|(l & LS & Hl & Hf & Hg & ->)]];
    simpl.
  - done.
  - apply ensureLineState_lookup in Hens.
    split; [auto|]. split.
    + unfold segmentsDistinct. simpl.
      rewrite (allSegments_extend _ _ _ _ _ Hens). simpl.
      rewrite Q2. by constructor.
    + unfold exceptionUnowned. simpl. rewrite !ownerAfter_exception. by rewrite Q3.
  - split; [done|]. split; [|done].
    unfold segmentsDistinct. simpl.
    rewrite (allSegments_extend _ _ _ _ _ Hg). simpl. by constructor.
Qed.

Lemma attemptConnection_inv fromId toId rnd E :
  engineInv E ->
  engineInv (exec (attemptConnection full hudPP trainSlider fromId toId rnd) E).
Proof.
  intros HI. unfold attemptConnection. munfold. simpl.
  destruct (bool_decide (currentCard (state E) = None)); [done|].
  destruct (buildUsedForThisCard (state E)); [done|].
  pose proof (canConnect_quiet full fromId toId E) as Hq.
  pose proof (canConnect_true full fromId toId E) as Ht.
  rewrite <- (canConnect_exec full fromId toId) in Ht.
  unfold exec, result in Hq, Ht.
  destruct (canConnect full fromId toId E) as [[[|]|] E1]; simpl in *.
  - destruct (Ht eq_refl) as [_ Hex].
    pose proof (addSegment_inv fromId toId E1 (quietStep_inv _ _ Hq HI)
                  (no_samePair_key _ _ _ Hex)) as HI2.
    unfold exec in HI2.
    destruct (addSegment fromId toId E1) as [[[]|] E2]; simpl in *; [|done].
    assert (engineInv (withState (setBuildUsed true) E2)) as HI3.
    { destruct HI2 as (? & ? & ?). by split. }
    destruct (roundComplete (state E2)); simpl; [|done].
    apply (quietStep_inv _ _ (nextRound_quiet full hudPP trainSlider rnd _) HI3).
  - by apply (quietStep_inv _ _ Hq).
  - by apply (quietStep_inv _ _ Hq).
Qed.

Lemma clickStation_inv id rnd E :
  engineInv E ->
  engineInv (exec (clickStation full hudPP trainSlider id rnd) E).
Proof.
  intros HI. unfold clickStation. munfold. simpl.
  pose proof (quietStep_inv _ _ (ensureLineState_quiet (currentLineId E) E) HI)
    as HI1.
  unfold exec in HI1.
  destruct (ensureLineState (currentLineId E) E) as [[[l LS]|] E1]; simpl in *;
    [|done].
  destruct (selectedStationId E1) as [fromId|]; simpl.
  - destruct (pencilMode (state E1)); simpl.
    + destruct HI1 as (? & ? & ?). by split.
    + apply attemptConnection_inv. destruct HI1 as (? & ? & ?). by split.
  - repeat (case_match; simpl; try done).
Qed.

Lemma initialEngine_inv : engineInv initialEngine.
Proof.
  split; [|split].
  - unfold roundEndedInv, thresholdReached. simpl. split; [done|lia].
  - unfold segmentsDistinct. simpl. constructor.
  - done.
Qed.

Lemma handle_inv ev E :
  engineInv E -> engineInv (exec (handle full hudPP trainSlider ev) E).
Proof.
  intros HI. destruct ev as [ord rnd|id rnd|rnd|rnd|rnd|rnd| |]; simpl.
  - apply initialEngine_inv.
  - by apply clickStation_inv.
  - by apply (quietStep_inv _ _ (drawCard_quiet rnd E)).
  - by apply (quietStep_inv _ _ (drawCard_quiet rnd E)).
  - by apply (quietStep_inv _ _ (nextRound_quiet full hudPP trainSlider rnd E)).
  - by apply (quietStep_inv _ _ (switchCard_quiet rnd E)).
  - destruct HI as (? & ? & ?). by split.
  - apply initialEngine_inv.
Qed.

(** Every reachable engine state satisfies the invariant. *)
Lemma reachable_inv E : reachable full hudPP trainSlider E -> engineInv E.
Proof.
  induction 1 as [|E ev _ IH _]; [apply initialEngine_inv|by apply handle_inv].
Qed.

End Invariant.

(* ------------------------------------------------------------------------- *)
(* Sessions                                                                  *)
(* ------------------------------------------------------------------------- *)

Lemma reachable_foldl full hudPP trainSlider evs E :
  reachable full hudPP trainSlider E ->
  Forall validEvent evs ->
  reachable full hudPP trainSlider
    (foldl (fun E ev => exec (handle full hudPP trainSlider ev) E) E evs).
Proof.
  intros HE Hv. revert E HE.
  induction Hv as [|ev evs Hev _ IH]; intros E HE; simpl; [done|].
  apply IH. by constructor.
Qed.

Lemma reachable_runEvents full hudPP trainSlider evs :
  Forall validEvent evs ->
  reachable full hudPP trainSlider (runEvents full hudPP trainSlider evs).
Proof. apply reachable_foldl. constructor. Qed.

(* ------------------------------------------------------------------------- *)
(* C2: when a round is marked ended                                          *)
(* ------------------------------------------------------------------------- *)

(** C2.  In every reachable state the round is marked ended
    (roundComplete = true) if and only if the draws of the round are at least
    8 or the center count or the side count is at least 5; and once the round
    is marked ended a further drawCard changes nothing: no card is popped and
    no counter is incremented. *)
Theorem round_ended_iff_threshold (full : list StationData)
    (hudPP trainSlider : bool) (E : Engine) :
  reachable full hudPP trainSlider E ->
  (roundComplete (state E) = true <->
   (8 ≤ drawsThisRound (state E))%nat \/
   (5 ≤ centerCount (state E))%nat \/
   (5 ≤ sideCount (state E))%nat) /\
  (roundComplete (state E) = true ->
   forall rnd, drawCard rnd E = (Some tt, E)).
Proof.
  intros HR. split.
  - by destruct (reachable_inv _ _ _ _ HR) as (H & _).
  - intros Hrc rnd. unfold drawCard. munfold. simpl. by rewrite Hrc.
Qed.

(* ------------------------------------------------------------------------- *)
(* C8: no station pair is joined twice                                       *)
(* ------------------------------------------------------------------------- *)

Lemma lsGet_lookup l ls LS :
  lsGet l ls = Some LS -> exists p, ls !! p = Some (l, LS).
Proof.
  induction ls as [|[k w] ls IH]; simpl; [done|].
  case_bool_decide as Hk.
  - intros [= ->]. subst k. by exists 0%nat.
  - intros Hg. destruct (IH Hg) as [p Hp]. by exists (S p).
Qed.

Lemma allSegments_elem ls p l LS s :
  ls !! p = Some (l, LS) -> s ∈ segments LS -> s ∈ allSegments ls.
Proof.
  intros Hp Hs. unfold allSegments. apply list_elem_of_In, in_flat_map.
  exists (l, LS). split; [|by apply list_elem_of_In].
  apply list_elem_of_In. by eapply list_elem_of_lookup_2.
Qed.

(** Distinct keys over all lines: within one build state ... *)
Lemma distinct_within ls p l LS :
  NoDup (pairKey <$> allSegments ls) -> ls !! p = Some (l, LS) ->
  NoDup (pairKey <$> segments LS).
Proof.
  revert p. induction ls as [|[k w] ls IH]; intros p Hnd Hp; [done|].
  unfold allSegments in Hnd. simpl in Hnd. rewrite fmap_app in Hnd.
  apply NoDup_app in Hnd as (H1 & H2 & H3).
  destruct p as [|p]; simpl in Hp.
  - by injection Hp as -> ->.
  - by apply (IH p).
Qed.

(** ... and between two build states. *)
Lemma distinct_between ls p q l1 LS1 l2 LS2 s u :
  NoDup (pairKey <$> allSegments ls) ->
  ls !! p = Some (l1, LS1) -> ls !! q = Some (l2, LS2) -> p ≠ q ->
  s ∈ segments LS1 -> u ∈ segments LS2 -> pairKey s ≠ pairKey u.
Proof.
  revert p q. induction ls as [|[k w] ls IH]; intros p q Hnd Hp Hq Hpq Hs Hu;
    [done|].
  unfold allSegments in Hnd. simpl in Hnd. rewrite fmap_app in Hnd.
  apply NoDup_app in Hnd as (H1 & H2 & H3).
  destruct p as [|p], q as [|q]; simpl in *; try done.
  - injection Hp as -> ->. intros Hk.
    apply (H2 (pairKey s)); [by apply list_elem_of_fmap_2|].
    rewrite Hk. apply list_elem_of_fmap_2. by eapply allSegments_elem.
  - injection Hq as -> ->. intros Hk.
    apply (H2 (pairKey u)); [by apply list_elem_of_fmap_2|].
    rewrite <- Hk. apply list_elem_of_fmap_2. by eapply allSegments_elem.
  - apply (IH p q); auto.
Qed.

(** C8.  In every reachable engine state (segments are only placed by
    addSegment after canConnect has returned true) the segments of all build
    states are pairwise distinct as unordered station pairs: two segments
    that join the same two stations, in either direction, are the same
    segment of the same line. *)
Theorem segments_pairwise_distinct (full : list StationData)
    (hudPP trainSlider : bool) (E : Engine) :
  reachable full hudPP trainSlider E ->
  forall l1 l2 LS1 LS2 i j s u,
    lsGet l1 (lineStates E) = Some LS1 ->
    lsGet l2 (lineStates E) = Some LS2 ->
    segments LS1 !! i = Some s ->
    segments LS2 !! j = Some u ->
    sameUnorderedPair s u ->
    l1 = l2 /\ i = j.
Proof.
  intros HR l1 l2 LS1 LS2 i j s u Hg1 Hg2 Hs Hu Hsame.
  destruct (reachable_inv _ _ _ _ HR) as (_ & Hnd & _).
  unfold segmentsDistinct in Hnd.
  apply sameUnorderedPair_key in Hsame.
  destruct (lsGet_lookup _ _ _ Hg1) as [p Hp].
  destruct (lsGet_lookup _ _ _ Hg2) as [q Hq].
  destruct (decide (p = q)) as [->|Hpq].
  - assert (l1 = l2 /\ LS1 = LS2) as [-> ->] by (split; congruence).
    split; [done|].
    pose proof (distinct_within _ _ _ _ Hnd Hp) as Hnd1.
    eapply (NoDup_lookup _ i j (pairKey s) Hnd1).
    + by rewrite list_lookup_fmap, Hs.
    + by rewrite list_lookup_fmap, Hu, Hsame.
  - exfalso.
    apply (distinct_between _ _ _ _ _ _ _ s u Hnd Hp Hq Hpq); [| |done].
    + by eapply list_elem_of_lookup_2.
    + by eapply list_elem_of_lookup_2.
Qed.

(* ------------------------------------------------------------------------- *)
(* C10: the transfer-exception station is never owned                        *)
(* ------------------------------------------------------------------------- *)

Lemma addSegment_exception fromId toId E :
  stationOwner (exec (addSegment fromId toId) E) !! STATION_TRANSFER_EXCEPTION
  = stationOwner E !! STATION_TRANSFER_EXCEPTION.
Proof.
  unfold exec.
  pose proof (ensureLineState_frame (currentLineId E) E) as (_ & Ho & _).
  destruct (addSegment_cases fromId toId E)
    as [[_ ->]|[(l & LS & ln & Hl & Hf & Hens & ->)|(l & LS & Hl & Hf & Hg & ->)]];
    simpl; try done.
  rewrite !ownerAfter_exception. by rewrite Ho.
Qed.

(** C10.  addSegment never changes the owner entry of the transfer-exception
    station (id 30); so in every reachable engine state the ownership map has
    no entry for it, and the ownership check of canConnect does not reject a
    connection on its account. *)
Theorem transfer_exception_never_owned (full : list StationData)
    (hudPP trainSlider : bool) (E : Engine) :
  reachable full hudPP trainSlider E ->
  stationOwner E !! 30 = None /\
  (forall fromId toId,
     stationOwner (exec (addSegment fromId toId) E) !! 30 = None) /\
  (forall lineId allowed,
     ownedByOther (stationOwner E !! 30) lineId allowed = false).
Proof.
  intros HR. destruct (reachable_inv _ _ _ _ HR) as (_ & _ & Hex).
  unfold exceptionUnowned, STATION_TRANSFER_EXCEPTION in Hex.
  split; [done|]. split.
  - intros fromId toId.
    pose proof (addSegment_exception fromId toId E) as Ha.
    unfold STATION_TRANSFER_EXCEPTION in Ha. by rewrite Ha.
  - intros lineId allowed. by rewrite Hex.
Qed.

(* ------------------------------------------------------------------------- *)
(* C7: endpoints, degrees and the visited set of a line                      *)
(* ------------------------------------------------------------------------- *)

Lemma degree_snoc v segs s :
  degree v (segs ++ [s]) = (degree v segs + incidence v s)%nat.
Proof.
  unfold degree. rewrite sum_list_with_app. simpl. lia.
Qed.

Lemma elem_of_toggle v w (S : gset Z) :
  bool_decide (v ∈ toggle S w) = xorb (bool_decide (v ∈ S)) (bool_decide (w = v)).
Proof.
  unfold toggle.
  destruct (decide (w = v)) as [->|Hne].
  - rewrite (bool_decide_eq_true_2 (v = v)) by done.
    destruct (decide (v ∈ S)) as [Hin|Hin].
    + rewrite !(bool_decide_eq_true_2 (v ∈ S)) by done. simpl.
      apply bool_decide_eq_false_2. set_solver.
    + rewrite !(bool_decide_eq_false_2 (v ∈ S)) by done. simpl.
      apply bool_decide_eq_true_2. set_solver.
  - rewrite (bool_decide_eq_false_2 (w = v)) by done. rewrite xorb_false_r.
    destruct (bool_decide (w ∈ S)); apply bool_decide_ext; set_solver.
Qed.

Lemma endpointsOdd_fresh startId : endpointsOdd (freshLineState startId).
Proof. intros v. simpl. by rewrite bool_decide_eq_false_2 by set_solver. Qed.

Lemma endpointsOdd_extend fromId toId LS :
  endpointsOdd LS -> endpointsOdd (extendLine fromId toId LS).
Proof.
  intros HLS v. simpl. rewrite !elem_of_toggle, HLS, degree_snoc.
  rewrite Nat.odd_add. unfold incidence. simpl.
  destruct (Nat.odd (degree v (segments LS))),
    (bool_decide (fromId = v)), (bool_decide (toId = v)); done.
Qed.

(** addSegment on a state where line l has build state LS: the build state
    of l afterwards is LS, or, when l is the current line, LS extended. *)
Lemma addSegment_line fromId toId l LS E :
  lsGet l (lineStates E) = Some LS ->
  let E' := exec (addSegment fromId toId) E in
  (currentLineId E = Some l /\
   lsGet l (lineStates E') = Some (extendLine fromId toId LS)) \/
  (currentLineId E ≠ Some l /\ lsGet l (lineStates E') = Some LS).
Proof.
  intros Hg. unfold exec.
  destruct (addSegment_cases fromId toId E)
    as [[Hens ->]|[(l' & LS' & ln & Hl & Hf & Hens & ->)|(l' & LS' & Hl & Hf & Hg' & ->)]];
    simpl.
  - right. split; [|done]. intros Hl.
    destruct (ensureLineState_cases (currentLineId E) E)
      as [(? & ? & ? & ? & ?)|[(? & ? & ? & ? & ? & ?)|[[?|(? & ? & ? & ?)] _]]];
      congruence.
  - set (E1 := exec (ensureLineState (currentLineId E)) E) in *.
    assert (lsGet l (lineStates E1) = Some LS) as Hg1.
    { subst E1. unfold exec.
      destruct (ensureLineState_cases (currentLineId E) E)
        as [(? & ? & ? & ? & ->)|[(? & ? & ? & ? & ? & ->)|[_ ->]]]; simpl;
        [done| |done]. by apply lsGet_app_l. }
    destruct (decide (l' = l)) as [->|Hne].
    + left. split; [done|].
      apply ensureLineState_lookup in Hens.
      assert (LS' = LS) as -> by congruence.
      apply lsGet_lsSet_eq.
    + right. split; [congruence|]. by rewrite lsGet_lsSet_ne.
  - destruct (decide (l' = l)) as [->|Hne].
    + left. split; [done|]. assert (LS' = LS) as -> by congruence.
      apply lsGet_lsSet_eq.
    + right. split; [congruence|]. by rewrite lsGet_lsSet_ne.
Qed.

Lemma builtBy_lineInv l E : builtBy l E -> lineInv l E.
Proof.
  induction 1 as [E [ln Hf] Hg|E fromId toId _ (LS & ln & Hg & Hf & Hodd & Hst)].
  - exists (freshLineState (line_start ln)), ln. unfold exec.
    destruct (ensureLineState_cases (Some l) E)
      as [(? & ? & ? & ? & ?)|[(l' & ln' & Hl & _ & Hf' & Hens)|[[?|(? & ? & ? & ?)] _]]];
      try congruence.
    injection Hl as <-. assert (ln' = ln) as -> by congruence.
    split; [rewrite Hens; by apply (ensureLineState_lookup _ _ _ _ _ Hens)|].
    split; [done|]. split; [apply endpointsOdd_fresh|]. simpl. set_solver.
  - destruct (addSegment_line fromId toId l LS E Hg) as [[_ Hg']|[_ Hg']].
    + exists (extendLine fromId toId LS), ln.
      split; [done|]. split; [done|].
      split; [by apply endpointsOdd_extend|]. simpl. set_solver.
    + by exists LS, ln.
Qed.

Lemma elem_of_toggle_iff v w (S : gset Z) :
  v ∈ toggle S w <-> (v ∈ S /\ v ≠ w) \/ (¬ v ∈ S /\ v = w).
Proof.
  rewrite <- (bool_decide_eq_true (v ∈ toggle S w)), elem_of_toggle.
  destruct (decide (v ∈ S)) as [Hin|Hin], (decide (w = v)) as [Heq|Hne].
  - rewrite !bool_decide_eq_true_2 by done. simpl. naive_solver.
  - rewrite bool_decide_eq_true_2, bool_decide_eq_false_2 by done. simpl.
    naive_solver.
  - rewrite bool_decide_eq_false_2, bool_decide_eq_true_2 by done. simpl.
    naive_solver.
  - rewrite !bool_decide_eq_false_2 by done. simpl. naive_solver.
Qed.

(** C7.  In every state reached by ensureLineState on a line followed by any
    sequence of addSegment calls, the line has a build state in which a
    station id is an endpoint if and only if its connection-degree in the
    line's segments is odd, and whose visited set contains the line's start
    station.  A further addSegment call on the line toggles the endpoint
    membership of its two stations (and of nothing else) and loses no visited
    station; ensureLineState on the line changes nothing any more. *)
Theorem endpoints_odd_degree_visited_grows (l : Z) (E : Engine) :
  builtBy l E ->
  exists LS ln,
    lsGet l (lineStates E) = Some LS /\ findLine l = Some ln /\
    (forall v, v ∈ endpoints LS <-> Nat.odd (degree v (segments LS)) = true) /\
    line_start ln ∈ visited LS /\
    ensureLineState (Some l) E = (Some (l, LS), E) /\
    (forall fromId toId,
       currentLineId E = Some l ->
       exists LS',
         lsGet l (lineStates (exec (addSegment fromId toId) E)) = Some LS' /\
         segments LS' = segments LS ++ [mkSegment fromId toId] /\
         endpoints LS' = toggle (toggle (endpoints LS) fromId) toId /\
         (forall v, v ≠ fromId -> v ≠ toId ->
                    (v ∈ endpoints LS' <-> v ∈ endpoints LS)) /\
         (fromId ≠ toId ->
          (fromId ∈ endpoints LS' <-> fromId ∉ endpoints LS) /\
          (toId ∈ endpoints LS' <-> toId ∉ endpoints LS)) /\
         visited LS ⊆ visited LS').
Proof.
  intros HB. destruct (builtBy_lineInv l E HB) as (LS & ln & Hg & Hf & Hodd & Hst).
  exists LS, ln. split; [done|]. split; [done|]. split.
  { intros v. rewrite <- Hodd. by rewrite bool_decide_eq_true. }
  split; [done|]. split.
  { unfold ensureLineState. by rewrite Hg. }
  intros fromId toId Hl.
  destruct (addSegment_line fromId toId l LS E Hg) as [[_ Hg']|[Hn _]]; [|done].
  exists (extendLine fromId toId LS). split; [done|]. simpl.
  split; [done|]. split; [done|].
  split; [|split; [|set_solver]].
  - intros v Hf' Ht'. rewrite !elem_of_toggle_iff. naive_solver.
  - intros Hne. rewrite !elem_of_toggle_iff.
    destruct (decide (fromId ∈ endpoints LS)), (decide (toId ∈ endpoints LS));
      naive_solver.
Qed.

(* ------------------------------------------------------------------------- *)
(* C5: switchCard in a round that is marked ended                            *)
(* ------------------------------------------------------------------------- *)

(** C5 (as amended).  In a round that is marked ended, switchCard never
    changes the draw count or the platform-type counters.  It changes nothing
    at all when no card is active, when the current card has been used for a
    build, or when the switch has been used in this round.  Otherwise the
    switch is not locked: the current card is replaced by the card popped
    from the deck (rebuilt first when empty) and the switch-used flag is set;
    the round stays marked ended when a threshold is reached, as it is in
    every reachable state. *)
Theorem switchCard_when_round_ended (rnd : nat -> nat) (E : Engine) :
  roundComplete (state E) = true ->
  let E' := exec (switchCard rnd) E in
  drawsThisRound (state E') = drawsThisRound (state E) /\
  centerCount (state E') = centerCount (state E) /\
  sideCount (state E') = sideCount (state E) /\
  (currentCard (state E) = None \/ buildUsedForThisCard (state E) = true \/
   switchUsedThisRound (state E) = true -> E' = E) /\
  (currentCard (state E) ≠ None -> buildUsedForThisCard (state E) = false ->
   switchUsedThisRound (state E) = false ->
   currentCard (state E') = last (deckToPop rnd (state E)) /\
   deck (state E') = removelast (deckToPop rnd (state E)) /\
   switchUsedThisRound (state E') = true /\
   (thresholdReached (state E) -> roundComplete (state E') = true)).
Proof.
  intros Hrc. unfold switchCard, deckToPop. munfold. simpl.
  case_bool_decide as Hcard; simpl.
  { repeat (split; [done|]). by intros []. }
  destruct (buildUsedForThisCard (state E)) eqn:Hb; simpl.
  { repeat (split; [done|]). by intros. }
  destruct (switchUsedThisRound (state E)) eqn:Hs; simpl.
  { repeat (split; [done|]). by intros. }
  rewrite refillDeck_run. simpl. rewrite updateRoundEndingState_run. simpl.
  repeat (split; [done|]). split.
  { intros [?|[?|?]]; congruence. }
  intros _ _ _. repeat (split; [done|]).
  unfold thresholdReached.
  rewrite !orb_true_iff, !bool_decide_eq_true. tauto.
Qed.

(* ------------------------------------------------------------------------- *)
(* C6: the intersection predicate on touching and on overlapping segments     *)
(* ------------------------------------------------------------------------- *)

Lemma onSeg_true p q r :
  onSeg p q r = true <->
  Z.min (px p) (px r) ≤ px q ≤ Z.max (px p) (px r) /\
  Z.min (py p) (py r) ≤ py q ≤ Z.max (py p) (py r).
Proof.
  unfold onSeg. rewrite !andb_true_iff, !bool_decide_eq_true. tauto.
Qed.

(** An end point of one segment on the other segment makes the predicate
    true. *)
Lemma segmentsIntersect_by_endpoint a1 a2 b1 b2 :
  (cross a1 a2 b1 = 0 /\ onSeg a1 b1 a2 = true) \/
  (cross a1 a2 b2 = 0 /\ onSeg a1 b2 a2 = true) \/
  (cross b1 b2 a1 = 0 /\ onSeg b1 a1 b2 = true) \/
  (cross b1 b2 a2 = 0 /\ onSeg b1 a2 b2 = true) ->
  segmentsIntersect a1 a2 b1 b2 = true.
Proof.
  unfold segmentsIntersect.
  intros [[H1 H2]|[[H1 H2]|[[H1 H2]|[H1 H2]]]];
    rewrite H1, H2; simpl; repeat case_match; done.
Qed.

(** A point at a parameter in [0, 1] lies between the two ends. *)
Lemma between_ends (n p x1 x2 : Z) :
  0 < n -> 0 ≤ p ≤ n ->
  n * Z.min x1 x2 ≤ n * x1 + p * (x2 - x1) ≤ n * Z.max x1 x2.
Proof. intros Hn Hp. destruct (Z.le_ge_cases x1 x2); nia. Qed.

(** Two ranges with a common (scaled) value: an end of one is in the other. *)
Lemma ranges_meet (n m x1 x2 x3 x4 : Z) :
  0 < n ->
  n * Z.min x1 x2 ≤ m ≤ n * Z.max x1 x2 ->
  n * Z.min x3 x4 ≤ m ≤ n * Z.max x3 x4 ->
  Z.min x1 x2 ≤ x3 ≤ Z.max x1 x2 \/ Z.min x1 x2 ≤ x4 ≤ Z.max x1 x2 \/
  (Z.min x3 x4 ≤ x1 ≤ Z.max x3 x4 /\ Z.min x3 x4 ≤ x2 ≤ Z.max x3 x4).
Proof.
  intros Hn Ha Hb.
  assert (Z.min x1 x2 ≤ Z.max x3 x4) by nia.
  assert (Z.min x3 x4 ≤ Z.max x1 x2) by nia.
  lia.
Qed.

(** On a line that is not vertical, the x range decides the y range. *)
Lemma range_x_y (x1 y1 x2 y2 x y : Z) :
  (x2 - x1) * (y - y1) - (y2 - y1) * (x - x1) = 0 ->
  x1 ≠ x2 ->
  Z.min x1 x2 ≤ x ≤ Z.max x1 x2 ->
  Z.min y1 y2 ≤ y ≤ Z.max y1 y2.
Proof.
  intros Hc Hne Hx.
  destruct (Z.le_ge_cases x1 x2), (Z.le_ge_cases y1 y2); nia.
Qed.

(** On a line that is not horizontal, the y range decides the x range. *)
Lemma range_y_x (x1 y1 x2 y2 x y : Z) :
  (x2 - x1) * (y - y1) - (y2 - y1) * (x - x1) = 0 ->
  y1 ≠ y2 ->
  Z.min y1 y2 ≤ y ≤ Z.max y1 y2 ->
  Z.min x1 x2 ≤ x ≤ Z.max x1 x2.
Proof.
  intros Hc Hne Hy.
  destruct (Z.le_ge_cases x1 x2), (Z.le_ge_cases y1 y2); nia.
Qed.

(** Segments on one line with a common point: the predicate is true. *)
Lemma segmentsIntersect_overlap a1 a2 b1 b2 :
  overlapCollinear a1 a2 b1 b2 -> segmentsIntersect a1 a2 b1 b2 = true.
Proof.
  intros [(C1 & C2 & C3 & C4) (n & p & q & Hn & Hp & Hq & Hx & Hy)].
  apply segmentsIntersect_by_endpoint. rewrite !onSeg_true.
  destruct a1 as [x1 y1], a2 as [x2 y2], b1 as [x3 y3], b2 as [x4 y4].
  unfold cross in *. simpl in *.
  pose proof (between_ends n p x1 x2 Hn Hp) as Ax.
  pose proof (between_ends n p y1 y2 Hn Hp) as Ay.
  pose proof (between_ends n q x3 x4 Hn Hq) as Bx.
  pose proof (between_ends n q y3 y4 Hn Hq) as By.
  rewrite <- Hx in Bx. rewrite <- Hy in By.
  destruct (decide (x1 = x2)) as [Hxe|Hxne]; [destruct (decide (y1 = y2)) as [Hye|Hyne]|].
  - (* a is a single point *)
    right; right; left. split; [done|]. subst x2 y2.
    split; nia.
  - (* a is vertical *)
    destruct (ranges_meet n _ y1 y2 y3 y4 Hn Ay By) as [Hr|[Hr|[Hr1 Hr2]]].
    + left. split; [done|]. split; [|done]. by apply (range_y_x x1 y1 x2 y2 x3 y3).
    + right; left. split; [done|]. split; [|done].
      by apply (range_y_x x1 y1 x2 y2 x4 y4).
    + right; right; left. split; [done|]. split; [|done].
      apply (range_y_x x3 y3 x4 y4 x1 y1); [done|lia|done].
  - (* a is not vertical *)
    destruct (ranges_meet n _ x1 x2 x3 x4 Hn Ax Bx) as [Hr|[Hr|[Hr1 Hr2]]].
    + left. split; [done|]. split; [done|]. by apply (range_x_y x1 y1 x2 y2 x3 y3).
    + right; left. split; [done|]. split; [done|].
      by apply (range_x_y x1 y1 x2 y2 x4 y4).
    + right; right; left. split; [done|]. split; [done|].
      apply (range_x_y x3 y3 x4 y4 x1 y1); [done|lia|done].
Qed.

(** Segments with a common end point: the predicate is true. *)
Lemma segmentsIntersect_touching a1 a2 b1 b2 :
  shareEndpoint a1 a2 b1 b2 -> segmentsIntersect a1 a2 b1 b2 = true.
Proof.
  intros Hs. apply segmentsIntersect_by_endpoint. rewrite !onSeg_true.
  unfold cross.
  destruct Hs as [<-|[<-|[<-|<-]]].
  - right; right; left. split; [lia|]. lia.
  - right; right; left. split; [lia|]. lia.
  - right; right; right. split; [lia|]. lia.
  - right; right; right. split; [lia|]. lia.
Qed.

(** The crossing loop of canConnect passes over a placed segment that shares
    an end station with the proposed one, whatever the predicate says. *)
Lemma crossesOther_shared_end (full : list StationData) fromId toId a1 a2 s rest :
  is_Some (stationById full !! seg_a s) ->
  is_Some (stationById full !! seg_b s) ->
  fromId = seg_a s \/ fromId = seg_b s \/ toId = seg_a s \/ toId = seg_b s ->
  crossesOther full fromId toId a1 a2 (s :: rest) =
  crossesOther full fromId toId a1 a2 rest.
Proof.
  intros [C HC] [D HD] Hshare. simpl. rewrite HC, HD.
  destruct (segmentsIntersect a1 a2 _ _); simpl; [|done].
  assert (bool_decide (fromId = seg_a s) || bool_decide (fromId = seg_b s) ||
          bool_decide (toId = seg_a s) || bool_decide (toId = seg_b s) = true)
    as ->; [|done].
  rewrite !orb_true_iff, !bool_decide_eq_true. tauto.
Qed.

(** C6.  What the code does.  Against the claim, and against the comment
    above the function (allow shared endpoints, but detect others), the
    intersection predicate returns true for every two segments that have an
    end point in common, also when they merely touch there.  As the claim
    says, it returns true for every two segments that lie on one line and
    have a common point.  The defect does not show in the game: the crossing
    loop of canConnect passes over a placed segment that shares an end
    station id with the proposed one, whatever the predicate returns. *)
Theorem segmentsIntersect_touch_and_overlap (a1 a2 b1 b2 : Point) :
  (shareEndpoint a1 a2 b1 b2 -> segmentsIntersect a1 a2 b1 b2 = true) /\
  (overlapCollinear a1 a2 b1 b2 -> segmentsIntersect a1 a2 b1 b2 = true) /\
  (forall full fromId toId s rest,
     is_Some (stationById full !! seg_a s) ->
     is_Some (stationById full !! seg_b s) ->
     fromId = seg_a s \/ fromId = seg_b s \/ toId = seg_a s \/ toId = seg_b s ->
     crossesOther full fromId toId a1 a2 (s :: rest) =
     crossesOther full fromId toId a1 a2 rest).
Proof.
  split; [apply segmentsIntersect_touching|].
  split; [apply segmentsIntersect_overlap|].
  intros full fromId toId s rest. apply crossesOther_shared_end.
Qed.

(* ------------------------------------------------------------------------- *)
(* C4: the per-round score                                                   *)
(* ------------------------------------------------------------------------- *)

Lemma max_list_same_elements (l1 l2 : list nat) :
  (forall x, x ∈ l1 <-> x ∈ l2) -> max_list l1 = max_list l2.
Proof.
  assert (forall k1 k2 : list nat,
            (forall x, x ∈ k1 -> x ∈ k2) -> (max_list k1 ≤ max_list k2)%nat) as Hle.
  { intros k1 k2 Hsub. destruct k1 as [|x k1]; [simpl; lia|].
    apply max_list_elem_of_le, Hsub, max_list_elem_of. done. }
  intros Heq. apply Nat.le_antisymm; apply Hle; intros x; apply Heq.
Qed.

Lemma size_filter_elements (P : Z -> Prop) `{!forall x, Decision (P x)}
    (X : gset Z) :
  size (filter P X) = length (filter P (elements X)).
Proof.
  unfold size, set_size. simpl. apply Permutation_length.
  apply NoDup_Permutation.
  - apply NoDup_elements.
  - apply NoDup_filter, NoDup_elements.
  - intros x. rewrite elem_of_elements, elem_of_filter, list_elem_of_filter.
    by rewrite elem_of_elements.
Qed.

Section RoundScore.

Variable full : list StationData.

Lemma districtCountsOf_step (m : gmap Z nat) sid :
  match getStationMeta full sid with
  | None => m
  | Some meta =>
      match sd_district meta with
      | None => m
      | Some d => <[ d := (default 0 (m !! d) + 1)%nat ]> m
      end
  end =
  match districtOf full sid with
  | None => m
  | Some d => <[ d := (default 0 (m !! d) + 1)%nat ]> m
  end.
Proof. unfold districtOf. by destruct (getStationMeta full sid). Qed.

(** The counts the loop leaves for district d, from any starting map. *)
Lemma districtCounts_foldl l : forall (m : gmap Z nat) d,
  foldl (fun m sid =>
           match getStationMeta full sid with
           | None => m
           | Some meta =>
               match sd_district meta with
               | None => m
               | Some d => <[ d := (default 0 (m !! d) + 1)%nat ]> m
               end
           end) m l !! d =
  if decide (countIn full d l = 0%nat) then m !! d
  else Some (default 0 (m !! d) + countIn full d l)%nat.
Proof.
  induction l as [|sid l IH]; intros m d; simpl; [done|].
  rewrite IH, districtCountsOf_step. unfold countIn. simpl.
  rewrite filter_cons.
  destruct (districtOf full sid) as [d'|] eqn:Hd'.
  - destruct (decide (Some d' = Some d)) as [[= ->]|Hne]; simpl.
    + rewrite lookup_insert_eq. simpl.
      repeat case_decide; try lia; f_equal; lia.
    + rewrite lookup_insert_ne by congruence. done.
  - destruct (decide (None = Some d)) as [?|_]; done.
Qed.

Lemma districtCountsOf_lookup l d :
  districtCountsOf full l !! d =
  if decide (countIn full d l = 0%nat) then None else Some (countIn full d l).
Proof.
  unfold districtCountsOf. rewrite districtCounts_foldl.
  rewrite lookup_empty. by case_decide.
Qed.

Lemma countIn_visited LS d :
  countIn full d (elements (visited LS)) = size (visitedIn full LS d).
Proof. unfold countIn, visitedIn. by rewrite size_filter_elements. Qed.

Lemma countIn_pos d l :
  countIn full d l ≠ 0%nat <-> exists sid, sid ∈ l /\ districtOf full sid = Some d.
Proof.
  unfold countIn. split.
  - intros Hc.
    destruct (filter (fun sid => districtOf full sid = Some d) l) as [|sid l'] eqn:Hf;
      [done|].
    assert (sid ∈ filter (fun sid => districtOf full sid = Some d) l) as Hin
      by (rewrite Hf; left).
    apply list_elem_of_filter in Hin as [? ?]. eauto.
  - intros (sid & Hin & Hd) Hc.
    assert (sid ∈ filter (fun sid => districtOf full sid = Some d) l) as Hin'
      by (by apply list_elem_of_filter).
    apply length_zero_iff_nil in Hc. rewrite Hc in Hin'. by apply elem_of_nil in Hin'.
Qed.

Lemma elem_of_districtsVisited LS d :
  d ∈ districtsVisited full LS <-> countIn full d (elements (visited LS)) ≠ 0%nat.
Proof.
  unfold districtsVisited. rewrite elem_of_list_to_set, list_elem_of_omap.
  by rewrite countIn_pos.
Qed.

Lemma dom_districtCounts LS :
  dom (districtCountsOf full (elements (visited LS))) = districtsVisited full LS.
Proof.
  apply set_eq. intros d.
  rewrite elem_of_dom, districtCountsOf_lookup, elem_of_districtsVisited.
  case_decide as Hc; split; try done; try (by intros [? ?]); eauto.
Qed.

Lemma PD_loop segs : forall n,
  foldl (fun PD seg => if crossesDanube full seg then S PD else PD) n segs =
  (n + length (filter (banksDiffer full) segs))%nat.
Proof.
  assert (forall seg, crossesDanube full seg = true <-> banksDiffer full seg) as Hs.
  { intros seg. unfold crossesDanube, banksDiffer, bankOf.
    destruct (getStationMeta full (seg_a seg)) as [a|],
             (getStationMeta full (seg_b seg)) as [b|]; simpl; try done.
    - destruct (sd_side a), (sd_side b); try done.
      by rewrite bool_decide_eq_true.
    - by destruct (sd_side a). }
  induction segs as [|seg segs IH]; intros n; simpl; [lia|].
  rewrite IH, filter_cons.
  destruct (crossesDanube full seg) eqn:Hc.
  - rewrite decide_True by (by apply Hs). simpl. lia.
  - rewrite decide_False; [done|]. intros Hb. apply Hs in Hb. congruence.
Qed.

(** The result record computeCurrentRoundScore builds, by the definitions
    above. *)
Lemma roundScore_values LS :
  let m := districtCountsOf full (elements (visited LS)) in
  size m = PK_spec full LS /\
  (if bool_decide (size m ≠ 0%nat) then max_list (map snd (map_to_list m))
   else 0%nat) = PM_spec full LS /\
  foldl (fun PD seg => if crossesDanube full seg then S PD else PD)
        0%nat (segments LS) = PD_spec full LS.
Proof.
  intros m. split; [|split].
  - unfold PK_spec. rewrite <- dom_districtCounts. by rewrite size_dom.
  - assert (max_list (map snd (map_to_list m)) = PM_spec full LS) as Hmax.
    { unfold PM_spec. apply max_list_same_elements. intros x.
      rewrite !list_elem_of_fmap. split.
      - intros ([d c] & -> & Hin). simpl.
        apply elem_of_map_to_list in Hin. subst m.
        rewrite districtCountsOf_lookup in Hin. case_decide as Hc; [done|].
        injection Hin as <-. exists d.
        split; [by rewrite countIn_visited|].
        by apply elem_of_elements, elem_of_districtsVisited.
      - intros (d & -> & Hin).
        apply elem_of_elements, elem_of_districtsVisited in Hin.
        exists (d, size (visitedIn full LS d)). split; [done|].
        apply elem_of_map_to_list. subst m.
        rewrite districtCountsOf_lookup, decide_False by done.
        by rewrite countIn_visited. }
    case_bool_decide as Hsz; [done|].
    rewrite <- Hmax.
    assert (m = ∅) as -> by (apply map_size_empty_iff; lia).
    by rewrite map_to_list_empty.
  - rewrite PD_loop. unfold PD_spec. lia.
Qed.

End RoundScore.

(** C4.  The score computeCurrentRoundScore records for the current line,
    whose build state is LS: PK is the number of distinct districts among the
    visited stations that carry district metadata, PM the largest number of
    visited stations in one district (0 when there is none), PD the number of
    segments whose two ends both have a river bank and on differing banks,
    and FP = PK * PM + PD. *)
Theorem round_score_formula (full : list StationData) (E : Engine) (l : Z)
    (LS : LineState) :
  currentLineId E = Some l ->
  lsGet l (lineStates E) = Some LS ->
  exists r,
    computeCurrentRoundScore full E =
      (Some r, withRoundResults (roundResults E ++ [r]) E) /\
    rr_lineId r = l /\
    PK r = PK_spec full LS /\
    PM r = PM_spec full LS /\
    PD r = PD_spec full LS /\
    FP r = (PK r * PM r + PD r)%nat.
Proof.
  intros Hl Hg.
  destruct (roundScore_values full LS) as (HPK & HPM & HPD).
  unfold computeCurrentRoundScore. munfold. cbv beta.
  rewrite Hl. unfold ensureLineState. rewrite Hg. cbv beta iota.
  eexists. split; [reflexivity|]. cbn [rr_lineId PK PM PD FP].
  by rewrite HPM, HPD, HPK.
Qed.

(* ------------------------------------------------------------------------- *)
(* C3: the final score                                                       *)
(* ------------------------------------------------------------------------- *)

Lemma elem_of_visitedByAny ls sid :
  sid ∈ visitedByAny ls <-> exists p, p ∈ ls /\ sid ∈ visited p.2.
Proof.
  unfold visitedByAny. rewrite elem_of_union_list. split.
  - intros (X & HX & Hin). apply list_elem_of_fmap in HX as (p & -> & Hp). eauto.
  - intros (p & Hp & Hin). exists (visited p.2). split; [|done].
    apply list_elem_of_fmap. eauto.
Qed.

(** stationLines after the loop over one visited list. *)
Lemma addLineVisits_foldl lineId (L : list Z) : forall (m : gmap Z (gset Z)) sid,
  foldl (fun m sid => <[ sid := default ∅ (m !! sid) ∪ {[ lineId ]} ]> m) m L
    !! sid =
  if decide (sid ∈ L) then Some (default ∅ (m !! sid) ∪ {[ lineId ]})
  else m !! sid.
Proof.
  induction L as [|x L IH]; intros m sid; cbn [foldl].
  - rewrite decide_False; [done|]. apply not_elem_of_nil.
  - rewrite IH. destruct (decide (x = sid)) as [->|Hne].
    + rewrite lookup_insert_eq. simpl.
      rewrite (decide_True (P := sid ∈ sid :: L)) by left.
      case_decide; f_equal; set_solver.
    + rewrite lookup_insert_ne by done.
      destruct (decide (sid ∈ L)) as [Hin|Hin].
      * rewrite decide_True; [done|by right].
      * rewrite decide_False; [done|]. rewrite elem_of_cons. naive_solver.
Qed.

Lemma addLineVisits_lookup (m : gmap Z (gset Z)) lineId LS sid :
  addLineVisits m lineId LS !! sid =
  if decide (sid ∈ visited LS) then Some (default ∅ (m !! sid) ∪ {[ lineId ]})
  else m !! sid.
Proof.
  unfold addLineVisits. rewrite addLineVisits_foldl.
  destruct (decide (sid ∈ visited LS)) as [Hin|Hin].
  - rewrite decide_True; [done|by apply elem_of_elements].
  - rewrite decide_False; [done|by rewrite elem_of_elements].
Qed.

Lemma linesVisiting_cons l LS ls sid :
  linesVisiting ((l, LS) :: ls) sid =
  if decide (sid ∈ visited LS) then {[ l ]} ∪ linesVisiting ls sid
  else linesVisiting ls sid.
Proof.
  unfold linesVisiting. rewrite filter_cons. simpl. by case_decide.
Qed.

Lemma linesVisiting_unvisited ls sid :
  sid ∉ visitedByAny ls -> linesVisiting ls sid = ∅.
Proof.
  intros Hn. apply set_eq. intros l'. unfold linesVisiting.
  rewrite elem_of_list_to_set, list_elem_of_fmap. split; [|set_solver].
  intros (p & -> & Hp). apply list_elem_of_filter in Hp as [Hp1 Hp2].
  exfalso. apply Hn, elem_of_visitedByAny. eauto.
Qed.

(** stationLines after the loop over the lines. *)
Lemma stationLines_foldl ls : forall (m : gmap Z (gset Z)) sid,
  foldl (fun m p => addLineVisits m p.1 p.2) m ls !! sid =
  if decide (sid ∈ visitedByAny ls)
  then Some (default ∅ (m !! sid) ∪ linesVisiting ls sid)
  else m !! sid.
Proof.
  induction ls as [|[l LS] ls IH]; intros m sid; cbn [foldl].
  - rewrite decide_False; [done|]. unfold visitedByAny. simpl. set_solver.
  - rewrite IH, addLineVisits_lookup. cbn [fst snd].
    assert (visitedByAny ((l, LS) :: ls) = visited LS ∪ visitedByAny ls) as ->
      by done.
    rewrite linesVisiting_cons.
    destruct (decide (sid ∈ visited LS)) as [H1|H1];
      destruct (decide (sid ∈ visitedByAny ls)) as [H2|H2]; simpl.
    + rewrite decide_True by set_solver. f_equal. set_solver.
    + rewrite decide_True by set_solver. f_equal.
      rewrite (linesVisiting_unvisited _ _ H2). set_solver.
    + rewrite decide_True by set_solver. done.
    + rewrite decide_False by set_solver. done.
Qed.

Lemma stationLines_lookup ls sid :
  foldl (fun m p => addLineVisits m p.1 p.2) ∅ ls !! sid =
  if decide (sid ∈ visitedByAny ls) then Some (linesVisiting ls sid) else None.
Proof.
  rewrite stationLines_foldl, lookup_empty. simpl.
  case_decide; [|done]. f_equal. set_solver.
Qed.

(** The counters of countJunctions, as numbers of entries. *)
Lemma countJunctions_foldl (L : list (Z * gset Z)) : forall P2 P3 P4,
  foldl (fun acc p =>
           let '(P2, P3, P4) := acc in
           let count := size (p.2 : gset Z) in
           if bool_decide (count = 2%nat) then (S P2, P3, P4)
           else if bool_decide (count = 3%nat) then (P2, S P3, P4)
           else if bool_decide (4 ≤ count)%nat then (P2, P3, S P4)
           else (P2, P3, P4))
        (P2, P3, P4) L =
  ((P2 + length (filter (fun p => size p.2 = 2%nat) L))%nat,
   (P3 + length (filter (fun p => size p.2 = 3%nat) L))%nat,
   (P4 + length (filter (fun p => (4 ≤ size p.2)%nat) L))%nat).
Proof.
  induction L as [|p L IH]; intros P2 P3 P4; cbn [foldl].
  - simpl. by rewrite !Nat.add_0_r.
  - rewrite !filter_cons.
    repeat case_bool_decide; rewrite IH;
      repeat case_decide; try lia; simpl; repeat f_equal; lia.
Qed.

(** Entries of stationLines whose set size satisfies P, against the visited
    stations whose number of visiting lines satisfies P. *)
Lemma junction_entries (P : nat -> Prop) `{!forall n, Decision (P n)} ls :
  length (filter (fun p : Z * gset Z => P (size p.2))
            (map_to_list (foldl (fun m p => addLineVisits m p.1 p.2) ∅ ls))) =
  junctions P ls.
Proof.
  unfold junctions.
  set (m := foldl (fun m p => addLineVisits m p.1 p.2) ∅ ls).
  rewrite <- (length_fmap fst).
  unfold size at 2, set_size. simpl. apply Permutation_length.
  apply NoDup_Permutation.
  - apply (sublist_NoDup _ ((map_to_list m).*1));
      [apply NoDup_fst_map_to_list|apply fmap_sublist, sublist_filter].
  - apply NoDup_elements.
  - intros sid. rewrite elem_of_elements, elem_of_filter, list_elem_of_fmap.
    split.
    + intros ([sid' X] & -> & Hin). simpl.
      apply list_elem_of_filter in Hin as [HP Hin]. simpl in HP.
      apply elem_of_map_to_list in Hin. subst m.
      rewrite stationLines_lookup in Hin. case_decide; [|done].
      by injection Hin as <-.
    + intros [HP Hin]. exists (sid, linesVisiting ls sid). split; [done|].
      apply list_elem_of_filter. split; [done|].
      apply elem_of_map_to_list. subst m.
      by rewrite stationLines_lookup, decide_True.
Qed.

Lemma countJunctions_spec ls :
  countJunctions (foldl (fun m p => addLineVisits m p.1 p.2) ∅ ls) =
  (P2_spec ls, P3_spec ls, P4_spec ls).
Proof.
  unfold countJunctions. rewrite countJunctions_foldl. simpl.
  unfold P2_spec, P3_spec, P4_spec.
  by rewrite <- !junction_entries.
Qed.

Lemma sumFPOf_sum rs : sumFPOf rs = sum_list_with FP rs.
Proof.
  unfold sumFPOf.
  assert (forall n, foldl (fun sum r => (sum + FP r)%nat) n rs =
                    (n + sum_list_with FP rs)%nat) as H; [|by rewrite H].
  induction rs as [|r rs IH]; intros n; simpl; [lia|]. rewrite IH. lia.
Qed.

Section FinalScore.

Variable full : list StationData.

Lemma addTrainStations_foldl (L : list Z) : forall acc : gset Z,
  foldl (fun acc sid =>
           match getStationMeta full sid with
           | Some meta => if sd_train meta then acc ∪ {[ sid ]} else acc
           | None => acc
           end) acc L =
  acc ∪ list_to_set (filter (isTrainHub full) L).
Proof.
  induction L as [|sid L IH]; intros acc; cbn [foldl].
  - simpl. set_solver.
  - rewrite IH, filter_cons.
    destruct (decide (isTrainHub full sid)) as [Ht|Ht]; unfold isTrainHub in Ht;
      destruct (getStationMeta full sid) as [meta|]; try done.
    + rewrite Ht. set_solver.
    + by destruct (sd_train meta).
Qed.

Lemma addTrainStations_spec acc LS :
  addTrainStations full acc LS = acc ∪ filter (isTrainHub full) (visited LS).
Proof.
  unfold addTrainStations. by rewrite addTrainStations_foldl.
Qed.

Lemma visitedTrainStations_spec ls : forall acc : gset Z,
  foldl (fun acc p => addTrainStations full acc p.2) acc ls =
  acc ∪ filter (isTrainHub full) (visitedByAny ls).
Proof.
  induction ls as [|[l LS] ls IH]; intros acc; cbn [foldl].
  - unfold visitedByAny. simpl. set_solver.
  - rewrite IH, addTrainStations_spec. cbn [snd].
    assert (visitedByAny ((l, LS) :: ls) = visited LS ∪ visitedByAny ls) as ->
      by done.
    set_solver.
Qed.

Lemma updatePPView_spec hudPP trainSlider E :
  updatePPView full hudPP trainSlider E =
  (Some (if negb hudPP && negb trainSlider then 0%nat
         else PP_spec full (lineStates E)), E).
Proof.
  unfold updatePPView. munfold.
  destruct (negb hudPP && negb trainSlider); [done|].
  rewrite visitedTrainStations_spec. unfold PP_spec. do 3 f_equal. set_solver.
Qed.

End FinalScore.

(** C3.  At game end, on a page that shows the PP count (the #hud-pp element
    or the train slider exists), finishGame computes PP as the number of
    distinct train hubs visited by any line, P2, P3 and P4 as the numbers of
    stations visited by exactly 2, exactly 3, and 4 or more distinct lines,
    and the final score as the sum of FP over the recorded rounds plus
    PP + 2 * P2 + 5 * P3 + 9 * P4. *)
Theorem final_score_formula (full : list StationData)
    (hudPP trainSlider : bool) (E : Engine) :
  hudPP || trainSlider = true ->
  exists g,
    finishGame full hudPP trainSlider E = (Some g, E) /\
    gr_PP g = PP_spec full (lineStates E) /\
    gr_P2 g = P2_spec (lineStates E) /\
    gr_P3 g = P3_spec (lineStates E) /\
    gr_P4 g = P4_spec (lineStates E) /\
    gr_finalScore g =
      (sum_list_with FP (roundResults E) + gr_PP g +
       2 * gr_P2 g + 5 * gr_P3 g + 9 * gr_P4 g)%nat.
Proof.
  intros Hpage. unfold finishGame. munfold. cbv beta.
  rewrite countJunctions_spec, updatePPView_spec.
  assert (negb hudPP && negb trainSlider = false) as ->
    by (destruct hudPP, trainSlider; done).
  cbv beta iota. eexists. split; [reflexivity|].
  cbn [gr_PP gr_P2 gr_P3 gr_P4 gr_finalScore]. by rewrite sumFPOf_sum.
Qed.

(** Without the PP elements on the page updatePPView returns 0, and PP does
    not count towards the final score. *)
Lemma final_score_without_PP_view (full : list StationData) (E : Engine) :
  exists g,
    finishGame full false false E = (Some g, E) /\
    gr_PP g = 0%nat /\
    gr_finalScore g =
      (sum_list_with FP (roundResults E) +
       2 * P2_spec (lineStates E) + 5 * P3_spec (lineStates E) +
       9 * P4_spec (lineStates E))%nat.
Proof.
  unfold finishGame. munfold. cbv beta.
  rewrite countJunctions_spec, updatePPView_spec. cbv beta iota.
  eexists. split; [reflexivity|]. cbn [gr_PP gr_finalScore negb andb].
  rewrite sumFPOf_sum. split; [done|lia].
Qed.

Lemma sampleRun_reachable evs :
  Forall validEvent evs -> reachable sampleStations true true (sampleRun evs).
Proof. apply reachable_runEvents. Qed.

Lemma sessionM2_valid : Forall validEvent sessionM2.
Proof. repeat (constructor; [by simpl|]). constructor. Qed.

Example sample_deck_top : last (buildDeck rnd0) = Some (mkCard "center" "A").
Proof. vm_compute. reflexivity. Qed.

Example sample_aligned :
  isStraightOrDiag (mkStation 19 0 0 "A") (mkStation 30 3 3 "?") = true /\
  isStraightOrDiag (mkStation 28 0 3 "B") (mkStation 22 3 0 "D") = true /\
  isStraightOrDiag (mkStation 19 0 0 "A") (mkStation 21 2 1 "B") = false.
Proof. vm_compute. repeat split; reflexivity. Qed.

Example sample_pass_through :
  let A := mkStation 19 0 0 "A" in
  let B := mkStation 22 3 0 "D" in
  let C := mkStation 30 3 3 "?" in
  pathPassesThroughStation sampleStations (pathFuel A B) A B = Some true /\
  pathPassesThroughStation sampleStations (pathFuel A C) A C = Some false.
Proof. vm_compute. split; reflexivity. Qed.

Example sample_crossing :
  segmentsIntersect (mkPoint 0 0) (mkPoint 2 2) (mkPoint 0 2) (mkPoint 2 0)
  = true /\
  segmentsIntersect (mkPoint 0 0) (mkPoint 2 0) (mkPoint 0 1) (mkPoint 2 1)
  = false.
Proof. vm_compute. split; reflexivity. Qed.

Example sample_first_build_needs_start :
  let E := sampleRun (sessionStart ++ [EvDraw rnd0]) in
  result (canConnect sampleStations 19 20) E = Some true /\
  result (canConnect sampleStations 20 19) E = Some false.
Proof. vm_compute. split; reflexivity. Qed.

(* ========================================================================= *)
(*  The properties on the sample session                                     *)
(* ========================================================================= *)

Lemma sessionStart_valid : Forall validEvent sessionStart.
Proof. repeat (constructor; [by simpl|]). constructor. Qed.

Lemma sessionM1_valid : Forall validEvent sessionM1.
Proof. repeat (constructor; [by simpl|]). constructor. Qed.

Lemma sessionM1Ended_valid : Forall validEvent sessionM1Ended.
Proof. repeat (constructor; [by simpl|]). constructor. Qed.

Lemma sessionM1_line : lsGet 0 (lineStates (sampleRun sessionM1)) = Some sampleM1.
Proof. vm_compute. reflexivity. Qed.

Lemma sessionM2_line : lsGet 0 (lineStates (sampleRun sessionM2)) = Some sampleM1.
Proof. vm_compute. reflexivity. Qed.

(** C1, as stated, fails right after the start of a game: canConnect rejects
    the pair (no card is active) and yet the engine state has changed, for
    its call of ensureLineState has created the build state of M1. *)
Lemma canConnect_creates_build_state :
  let E := sampleRun sessionStart in
  reachable sampleStations true true E /\
  result (canConnect sampleStations 19 20) E = Some false /\
  lineStates E = [] /\
  lineStates (exec (canConnect sampleStations 19 20) E) =
    [(0, freshLineState 19)] /\
  exec (canConnect sampleStations 19 20) E ≠ E.
Proof.
  cbv zeta. split; [apply sampleRun_reachable, sessionStart_valid|].
  split; [vm_compute; reflexivity|]. split; [vm_compute; reflexivity|].
  split; [vm_compute; reflexivity|].
  intros H. apply (f_equal lineStates) in H. vm_compute in H. discriminate H.
Qed.

(** C1 as amended, on the state after M1 is built: canConnect returns a
    boolean and the engine state is the same after the call. *)
Lemma canConnect_state_effect_witness :
  let E := sampleRun sessionM1 in
  is_Some (result (canConnect sampleStations 30 28) E) /\
  exec (canConnect sampleStations 30 28) E = E.
Proof.
  cbv zeta.
  destruct (canConnect_state_effect sampleStations 30 28 (sampleRun sessionM1))
    as (H1 & _ & _ & _ & _ & _ & H6 & _ & _).
  split.
  - apply H1; clear.
    + vm_compute. eexists. reflexivity.
    + unfold segmentsKnown. vm_compute.
      repeat (constructor; [split; eexists; reflexivity|]). constructor.
  - apply (H6 0); clear.
    + vm_compute. reflexivity.
    + rewrite sessionM1_line. eexists. reflexivity.
Defined.

(** C2 on the state after the round of M1 has ended. *)
Lemma round_ended_iff_threshold_witness :
  let E := sampleRun sessionM1Ended in
  reachable sampleStations true true E /\
  (roundComplete (state E) = true <->
   (8 ≤ drawsThisRound (state E))%nat \/
   (5 ≤ centerCount (state E))%nat \/
   (5 ≤ sideCount (state E))%nat) /\
  (roundComplete (state E) = true ->
   forall rnd, drawCard rnd E = (Some tt, E)).
Proof.
  cbv zeta.
  assert (reachable sampleStations true true (sampleRun sessionM1Ended)) as HR.
  { apply sampleRun_reachable, sessionM1Ended_valid. }
  split; [exact HR|].
  exact (round_ended_iff_threshold sampleStations true true _ HR).
Defined.

(** C3 on the state after M2 is built 28 - 30: two train hubs are visited,
    station 30 is visited by two lines, and the round of M1 scored 7. *)
Lemma final_score_formula_witness :
  let E := sampleRun sessionM2 in
  true || true = true /\
  exists g,
    finishGame sampleStations true true E = (Some g, E) /\
    gr_PP g = 2%nat /\ gr_P2 g = 1%nat /\ gr_P3 g = 0%nat /\ gr_P4 g = 0%nat /\
    gr_finalScore g = 11%nat.
Proof.
  cbv zeta. split; [reflexivity|].
  destruct (final_score_formula sampleStations true true (sampleRun sessionM2)
              eq_refl)
    as (g & Hg & HPP & HP2 & HP3 & HP4 & Hfinal).
  exists g. split; [exact Hg|].
  rewrite Hfinal, HPP, HP2, HP3, HP4. clear.
  vm_compute. repeat split; reflexivity.
Defined.

(** C4 on the build state of M1: three visited stations in district 1, one
    in district 2, one segment across the river: PK = 2, PM = 3, PD = 1 and
    FP = 7. *)
Lemma round_score_formula_witness :
  let E := sampleRun sessionM1 in
  currentLineId E = Some 0 /\
  lsGet 0 (lineStates E) = Some sampleM1 /\
  exists r,
    computeCurrentRoundScore sampleStations E =
      (Some r, withRoundResults (roundResults E ++ [r]) E) /\
    PK r = 2%nat /\ PM r = 3%nat /\ PD r = 1%nat /\ FP r = 7%nat.
Proof.
  cbv zeta.
  assert (currentLineId (sampleRun sessionM1) = Some 0) as Hl.
  { vm_compute. reflexivity. }
  split; [exact Hl|]. split; [exact sessionM1_line|].
  destruct (round_score_formula sampleStations (sampleRun sessionM1) 0 sampleM1
              Hl sessionM1_line)
    as (r & Hr & _ & HPK & HPM & HPD & HFP).
  exists r. split; [exact Hr|].
  rewrite HFP, HPK, HPM, HPD. clear.
  vm_compute. repeat split; reflexivity.
Defined.

(** C5, as stated, fails once the round of M1 has ended with an unused card
    and an unused switch: switchCard replaces the current card, takes it off
    the deck and sets the switch-used flag. *)
Lemma switchCard_not_locked_by_round_end :
  let E := sampleRun sessionM1Ended in
  let E' := exec (switchCard rnd0) E in
  reachable sampleStations true true E /\
  roundComplete (state E) = true /\
  currentCard (state E) = Some (mkCard "side" "A") /\
  currentCard (state E') = Some (mkCard "center" "Joker") /\
  length (deck (state E)) = 4%nat /\ length (deck (state E')) = 3%nat /\
  switchUsedThisRound (state E) = false /\
  switchUsedThisRound (state E') = true /\
  E' ≠ E.
Proof.
  cbv zeta. split; [apply sampleRun_reachable, sessionM1Ended_valid|].
  do 7 (split; [vm_compute; reflexivity|]).
  intros H. apply (f_equal (fun X => switchUsedThisRound (state X))) in H.
  vm_compute in H. discriminate H.
Qed.

(** C5 as amended, on the same state. *)
Lemma switchCard_when_round_ended_witness :
  let E := sampleRun sessionM1Ended in
  let E' := exec (switchCard rnd0) E in
  roundComplete (state E) = true /\
  drawsThisRound (state E') = drawsThisRound (state E) /\
  centerCount (state E') = centerCount (state E) /\
  sideCount (state E') = sideCount (state E) /\
  switchUsedThisRound (state E') = true /\
  roundComplete (state E') = true.
Proof.
  cbv zeta.
  assert (roundComplete (state (sampleRun sessionM1Ended)) = true) as Hrc.
  { vm_compute. reflexivity. }
  destruct (switchCard_when_round_ended rnd0 (sampleRun sessionM1Ended) Hrc)
    as (H1 & H2 & H3 & _ & H5).
  split; [exact Hrc|]. split; [exact H1|]. split; [exact H2|].
  split; [exact H3|].
  destruct H5 as (_ & _ & H6 & H7).
  - clear. vm_compute. discriminate.
  - clear. vm_compute. reflexivity.
  - clear. vm_compute. reflexivity.
  - split; [exact H6|]. apply H7. clear. unfold thresholdReached.
    right; right. vm_compute. repeat constructor.
Defined.

(** C6 at the failing input: the segments (0,0)-(1,1) and (1,1)-(2,0) meet
    in the one point (1,1), an end of both (every common point is at
    parameter 1 of the first and parameter 0 of the second), and the
    predicate returns true, where the claim and the comment above the
    function (allow shared endpoints) want false. *)
Lemma segmentsIntersect_true_on_touching :
  let a1 := mkPoint 0 0 in let a2 := mkPoint 1 1 in
  let b1 := mkPoint 1 1 in let b2 := mkPoint 2 0 in
  a2 = b1 /\
  (forall n p q, commonPointAt a1 a2 b1 b2 n p q -> p = n /\ q = 0) /\
  segmentsIntersect a1 a2 b1 b2 = true.
Proof.
  cbv zeta. split; [reflexivity|]. split; [|vm_compute; reflexivity].
  intros n p q (Hn & Hp & Hq & Hx & Hy). simpl in *. lia.
Qed.

(** C6 on a pair of touching segments and on a pair of overlapping segments
    of one line. *)
Lemma segmentsIntersect_touch_and_overlap_witness :
  segmentsIntersect (mkPoint 0 0) (mkPoint 1 1) (mkPoint 1 1) (mkPoint 2 0)
  = true /\
  segmentsIntersect (mkPoint 0 0) (mkPoint 4 0) (mkPoint 2 0) (mkPoint 6 0)
  = true.
Proof.
  split.
  - apply (proj1 (segmentsIntersect_touch_and_overlap
                    (mkPoint 0 0) (mkPoint 1 1) (mkPoint 1 1) (mkPoint 2 0))).
    unfold shareEndpoint. right; right; left. reflexivity.
  - apply (proj1 (proj2 (segmentsIntersect_touch_and_overlap
                    (mkPoint 0 0) (mkPoint 4 0) (mkPoint 2 0) (mkPoint 6 0)))).
    split.
    + unfold collinear, cross. simpl. lia.
    + exists 4, 3, 1. unfold commonPointAt. simpl. lia.
Defined.

(** C7 on M1: the build state made by ensureLineState and two addSegment
    calls. *)
Lemma endpoints_odd_degree_visited_grows_witness :
  let E0 := sampleRun sessionStart in
  let E := exec (addSegment 20 21)
             (exec (addSegment 19 20) (exec (ensureLineState (Some 0)) E0)) in
  builtBy 0 E /\
  exists LS,
    lsGet 0 (lineStates E) = Some LS /\
    (forall v, v ∈ endpoints LS <-> Nat.odd (degree v (segments LS)) = true) /\
    19 ∈ visited LS.
Proof.
  cbv zeta.
  set (E := exec (addSegment 20 21)
              (exec (addSegment 19 20)
                 (exec (ensureLineState (Some 0)) (sampleRun sessionStart)))).
  assert (builtBy 0 E) as HB.
  { subst E. do 2 apply builtBy_add. apply builtBy_ensure.
    - vm_compute. eexists. reflexivity.
    - vm_compute. reflexivity. }
  split; [exact HB|].
  destruct (endpoints_odd_degree_visited_grows 0 E HB)
    as (LS & ln & Hg & Hf & Hodd & Hst & _).
  exists LS. split; [exact Hg|]. split; [exact Hodd|].
  clear -Hf Hst. vm_compute in Hf. injection Hf as <-. exact Hst.
Defined.

(** C8 on the state after M2 is built: the first segment of M1 is the only
    one that joins 19 and 20. *)
Lemma segments_pairwise_distinct_witness :
  let E := sampleRun sessionM2 in
  reachable sampleStations true true E /\
  forall l LS j u,
    lsGet l (lineStates E) = Some LS -> segments LS !! j = Some u ->
    sameUnorderedPair (mkSegment 19 20) u -> 0 = l /\ 0%nat = j.
Proof.
  cbv zeta.
  assert (reachable sampleStations true true (sampleRun sessionM2)) as HR.
  { apply sampleRun_reachable, sessionM2_valid. }
  split; [exact HR|]. intros l LS j u Hg Hu Hsame.
  exact (segments_pairwise_distinct sampleStations true true _ HR
           0 l sampleM1 LS 0%nat j (mkSegment 19 20) u
           sessionM2_line Hg eq_refl Hu Hsame).
Defined.

(** C9 as amended, right after the start of a game, when no card is drawn
    yet. *)
Lemma canConnect_needs_card_witness :
  let E := sampleRun sessionStart in
  currentCard (state E) = None /\
  result (canConnect sampleStations 19 20) E = Some false.
Proof.
  cbv zeta.
  assert (currentCard (state (sampleRun sessionStart)) = None) as Hc.
  { vm_compute. reflexivity. }
  split; [exact Hc|].
  apply (canConnect_needs_card sampleStations 19 20 _ Hc).
  clear. vm_compute. eexists. reflexivity.
Defined.

(** C9, as stated, fails in the engine state before any game is started: no
    card is active there, and canConnect does not return false, nor any
    boolean: without a current line ensureLineState throws before any check
    is made.  The engine state is left as it was. *)
Lemma canConnect_throws_without_line :
  currentCard (state initialEngine) = None /\
  result (canConnect sampleStations 19 20) initialEngine = None /\
  result (canConnect sampleStations 19 20) initialEngine ≠ Some false /\
  exec (canConnect sampleStations 19 20) initialEngine = initialEngine.
Proof.
  split; [reflexivity|]. split; [vm_compute; reflexivity|].
  split; [vm_compute; discriminate|]. vm_compute. reflexivity.
Qed.

(** C10 on the state after M2 is built: both lines have reached station 30,
    and it has no owner. *)
Lemma transfer_exception_never_owned_witness :
  let E := sampleRun sessionM2 in
  reachable sampleStations true true E /\
  30 ∈ visitedByAny (lineStates E) /\
  stationOwner E !! 30 = None /\
  stationOwner E !! 22 = Some 0 /\
  stationOwner E !! 28 = Some 1.
Proof.
  cbv zeta.
  assert (reachable sampleStations true true (sampleRun sessionM2)) as HR.
  { apply sampleRun_reachable, sessionM2_valid. }
  split; [exact HR|].
  destruct (transfer_exception_never_owned sampleStations true true _ HR)
    as (H30 & _ & _).
  split; [clear; vm_compute; reflexivity|]. split; [exact H30|].
  clear. split; vm_compute; reflexivity.
Defined.

(* ========================================================================= *)
(*  Geometry: what the intersection predicate decides                        *)
(* ========================================================================= *)

Lemma segmentsIntersect_proper a1 a2 b1 b2 :
  oppositeSides (cross a1 a2 b1) (cross a1 a2 b2) ->
  oppositeSides (cross b1 b2 a1) (cross b1 b2 a2) ->
  segmentsIntersect a1 a2 b1 b2 = true.
Proof.
  unfold oppositeSides, segmentsIntersect. intros H1 H2.
  assert ((bool_decide (cross a1 a2 b1 > 0) && bool_decide (cross a1 a2 b2 < 0)
           || bool_decide (cross a1 a2 b1 < 0) && bool_decide (cross a1 a2 b2 > 0))
          = true) as ->.
  { rewrite orb_true_iff, !andb_true_iff, !bool_decide_eq_true. tauto. }
  assert ((bool_decide (cross b1 b2 a1 > 0) && bool_decide (cross b1 b2 a2 < 0)
           || bool_decide (cross b1 b2 a1 < 0) && bool_decide (cross b1 b2 a2 > 0))
          = true) as ->.
  { rewrite orb_true_iff, !andb_true_iff, !bool_decide_eq_true. tauto. }
  done.
Qed.

(** The cases in which the predicate is true. *)
Lemma segmentsIntersect_cases a1 a2 b1 b2 :
  segmentsIntersect a1 a2 b1 b2 = true ->
  (oppositeSides (cross a1 a2 b1) (cross a1 a2 b2) /\
   oppositeSides (cross b1 b2 a1) (cross b1 b2 a2)) \/
  (cross a1 a2 b1 = 0 /\ onSeg a1 b1 a2 = true) \/
  (cross a1 a2 b2 = 0 /\ onSeg a1 b2 a2 = true) \/
  (cross b1 b2 a1 = 0 /\ onSeg b1 a1 b2 = true) \/
  (cross b1 b2 a2 = 0 /\ onSeg b1 a2 b2 = true).
Proof.
  unfold segmentsIntersect, oppositeSides.
  destruct ((bool_decide (cross a1 a2 b1 > 0) && bool_decide (cross a1 a2 b2 < 0)
             || bool_decide (cross a1 a2 b1 < 0) && bool_decide (cross a1 a2 b2 > 0))
            && (bool_decide (cross b1 b2 a1 > 0) && bool_decide (cross b1 b2 a2 < 0)
                || bool_decide (cross b1 b2 a1 < 0) && bool_decide (cross b1 b2 a2 > 0)))
    eqn:Hp.
  - intros _. left.
    rewrite andb_true_iff, !orb_true_iff, !andb_true_iff, !bool_decide_eq_true in Hp.
    tauto.
  - intros H. right.
    repeat match type of H with
           | (if ?c then _ else _) = _ => destruct c eqn:?
           end; try discriminate;
      match goal with
      | Hc : _ && _ = true |- _ =>
          apply andb_true_iff in Hc as [Hc1 Hc2];
            apply bool_decide_eq_true_1 in Hc1; tauto
      end.
Qed.

(** A point P on the line of a1 a2 and inside their bounding box is the point
    of the segment at some parameter p/n. *)
Lemma on_segment_param (x1 y1 x2 y2 x y : Z) :
  (x2 - x1) * (y - y1) - (y2 - y1) * (x - x1) = 0 ->
  Z.min x1 x2 ≤ x ≤ Z.max x1 x2 ->
  Z.min y1 y2 ≤ y ≤ Z.max y1 y2 ->
  exists n p, 0 < n /\ 0 ≤ p ≤ n /\
    n * x1 + p * (x2 - x1) = n * x /\ n * y1 + p * (y2 - y1) = n * y.
Proof.
  intros Hc Hx Hy.
  destruct (decide (x1 = x2)) as [Hxe|Hxne];
    [destruct (decide (y1 = y2)) as [Hye|Hyne]|].
  - exists 1, 0. lia.
  - exists (Z.abs (y2 - y1)), (Z.abs (y - y1)).
    destruct (Z.le_ge_cases y1 y2); split; try lia; split; try lia; nia.
  - exists (Z.abs (x2 - x1)), (Z.abs (x - x1)).
    destruct (Z.le_ge_cases x1 x2); split; try lia; split; try lia; nia.
Qed.

(** Soundness: when the predicate is true the segments have a common
    point. *)
Lemma segmentsIntersect_sound a1 a2 b1 b2 :
  segmentsIntersect a1 a2 b1 b2 = true -> segmentsMeet a1 a2 b1 b2.
Proof.
  intros H. apply segmentsIntersect_cases in H.
  unfold segmentsMeet, commonPointAt.
  destruct a1 as [x1 y1], a2 as [x2 y2], b1 as [x3 y3], b2 as [x4 y4].
  unfold oppositeSides, cross in H. rewrite !onSeg_true in H. simpl in *.
  destruct H as [[H1 H2]|[[Hc Hs]|[[Hc Hs]|[[Hc Hs]|[Hc Hs]]]]].
  - (* proper crossing: parameters d3 / (d3 - d4) and d1 / (d1 - d2) *)
    set (d1 := (x2 - x1) * (y3 - y1) - (y2 - y1) * (x3 - x1)) in *.
    set (d2 := (x2 - x1) * (y4 - y1) - (y2 - y1) * (x4 - x1)) in *.
    set (d3 := (x4 - x3) * (y1 - y3) - (y4 - y3) * (x1 - x3)) in *.
    set (d4 := (x4 - x3) * (y2 - y3) - (y4 - y3) * (x2 - x3)) in *.
    assert (d3 - d4 = d2 - d1) as HD by (subst d1 d2 d3 d4; ring).
    destruct H2 as [[H3 H4]|[H3 H4]].
    + exists (d3 - d4), d3, (- d1).
      split; [lia|]. split; [lia|]. split; [lia|].
      subst d1 d2 d3 d4. split; ring.
    + exists (d4 - d3), (- d3), d1.
      split; [lia|]. split; [lia|]. split; [lia|].
      subst d1 d2 d3 d4. split; ring.
  - (* b1 lies on a1 a2 *)
    destruct (on_segment_param x1 y1 x2 y2 x3 y3 Hc) as (n & p & Hn & Hp & Hx & Hy);
      [tauto..|].
    exists n, p, 0. lia.
  - (* b2 lies on a1 a2 *)
    destruct (on_segment_param x1 y1 x2 y2 x4 y4 Hc) as (n & p & Hn & Hp & Hx & Hy);
      [tauto..|].
    exists n, p, n. lia.
  - (* a1 lies on b1 b2 *)
    destruct (on_segment_param x3 y3 x4 y4 x1 y1 Hc) as (n & q & Hn & Hq & Hx & Hy);
      [tauto..|].
    exists n, 0, q. lia.
  - (* a2 lies on b1 b2 *)
    destruct (on_segment_param x3 y3 x4 y4 x2 y2 Hc) as (n & q & Hn & Hq & Hx & Hy);
      [tauto..|].
    exists n, n, q. lia.
Qed.

(** Scaling by a positive factor keeps order and zero. *)
Lemma scaled_between (n a x b : Z) :
  0 < n -> n * a ≤ n * x ≤ n * b -> a ≤ x ≤ b.
Proof. intros Hn [H1 H2]. split; nia. Qed.

Lemma scaled_zero (n c : Z) : 0 < n -> n * c = 0 -> c = 0.
Proof. intros Hn H. nia. Qed.

(** Strict sign of a product with a positive or negative factor. *)
Lemma scaled_sign (n c k D : Z) :
  0 < n -> n * c = k * D -> D ≠ 0 -> k ≠ 0 ->
  (c > 0 <-> (0 < k /\ 0 < D) \/ (k < 0 /\ D < 0)) /\
  (c < 0 <-> (0 < k /\ D < 0) \/ (k < 0 /\ 0 < D)).
Proof. intros Hn H HD Hk. split; split; intros; nia. Qed.

(** The cross products of a common point: each is the determinant of the two
    directions scaled by a parameter. *)
Lemma commonPoint_cross a1 a2 b1 b2 n p q :
  commonPointAt a1 a2 b1 b2 n p q ->
  let D := (px a2 - px a1) * (py b2 - py b1)
           - (py a2 - py a1) * (px b2 - px b1) in
  n * cross a1 a2 b1 = - q * D /\
  n * cross a1 a2 b2 = (n - q) * D /\
  n * cross b1 b2 a1 = p * D /\
  n * cross b1 b2 a2 = (p - n) * D.
Proof.
  intros (Hn & Hp & Hq & Hx & Hy) D.
  assert (n * (px b1 - px a1) = p * (px a2 - px a1) - q * (px b2 - px b1))
    as Hx' by lia.
  assert (n * (py b1 - py a1) = p * (py a2 - py a1) - q * (py b2 - py b1))
    as Hy' by lia.
  clear Hx Hy. unfold cross. repeat split.
  - transitivity ((px a2 - px a1) * (n * (py b1 - py a1))
                  - (py a2 - py a1) * (n * (px b1 - px a1))); [ring|].
    rewrite Hx', Hy'. subst D. ring.
  - transitivity ((px a2 - px a1) * (n * (py b1 - py a1) + n * (py b2 - py b1))
                  - (py a2 - py a1) * (n * (px b1 - px a1) + n * (px b2 - px b1)));
      [ring|].
    rewrite Hx', Hy'. subst D. ring.
  - transitivity ((py b2 - py b1) * (n * (px b1 - px a1))
                  - (px b2 - px b1) * (n * (py b1 - py a1))); [ring|].
    rewrite Hx', Hy'. subst D. ring.
  - transitivity ((py b2 - py b1) * (n * (px b1 - px a1) - n * (px a2 - px a1))
                  - (px b2 - px b1) * (n * (py b1 - py a1) - n * (py a2 - py a1)));
      [ring|].
    rewrite Hx', Hy'. subst D. ring.
Qed.

(** Completeness: when the segments have a common point the predicate is
    true. *)
Lemma segmentsIntersect_complete a1 a2 b1 b2 :
  segmentsMeet a1 a2 b1 b2 -> segmentsIntersect a1 a2 b1 b2 = true.
Proof.
  intros (n & p & q & Hcp).
  pose proof (commonPoint_cross _ _ _ _ _ _ _ Hcp) as HE. cbv zeta in HE.
  pose proof Hcp as (Hn & Hp & Hq & Hx & Hy).
  revert HE.
  generalize ((px a2 - px a1) * (py b2 - py b1)
              - (py a2 - py a1) * (px b2 - px b1)).
  intros D (E1 & E2 & E3 & E4).
  destruct (decide (D = 0)) as [HD|HD].
  { (* parallel: all on one line *)
    apply segmentsIntersect_overlap. split; [|by exists n, p, q].
    subst D. rewrite Z.mul_0_r in *.
    repeat split; by eapply scaled_zero. }
  pose proof (between_ends n p (px a1) (px a2) Hn Hp) as Ax.
  pose proof (between_ends n p (py a1) (py a2) Hn Hp) as Ay.
  pose proof (between_ends n q (px b1) (px b2) Hn Hq) as Bx.
  pose proof (between_ends n q (py b1) (py b2) Hn Hq) as By.
  destruct (decide (q = 0)) as [->|Hq0].
  { apply segmentsIntersect_by_endpoint. left. rewrite onSeg_true.
    split; [eapply scaled_zero; [done|]; rewrite E1; ring|].
    split; (apply (scaled_between n); [done|lia]). }
  destruct (decide (q = n)) as [->|Hqn].
  { apply segmentsIntersect_by_endpoint. right; left. rewrite onSeg_true.
    split; [eapply scaled_zero; [done|]; rewrite E2; ring|].
    split; (apply (scaled_between n); [done|lia]). }
  destruct (decide (p = 0)) as [->|Hp0].
  { apply segmentsIntersect_by_endpoint. right; right; left. rewrite onSeg_true.
    split; [eapply scaled_zero; [done|]; rewrite E3; ring|].
    split; (apply (scaled_between n); [done|lia]). }
  destruct (decide (p = n)) as [->|Hpn].
  { apply segmentsIntersect_by_endpoint. right; right; right. rewrite onSeg_true.
    split; [eapply scaled_zero; [done|]; rewrite E4; ring|].
    split; (apply (scaled_between n); [done|lia]). }
  clear Ax Ay Bx By Hx Hy Hcp.
  pose proof (scaled_sign n _ _ D Hn E1 HD ltac:(lia)) as [S1 S1'].
  pose proof (scaled_sign n _ _ D Hn E2 HD ltac:(lia)) as [S2 S2'].
  pose proof (scaled_sign n _ _ D Hn E3 HD ltac:(lia)) as [S3 S3'].
  pose proof (scaled_sign n _ _ D Hn E4 HD ltac:(lia)) as [S4 S4'].
  apply segmentsIntersect_proper; unfold oppositeSides.
  - rewrite S1, S1', S2, S2'. lia.
  - rewrite S3, S3', S4, S4'. lia.
Qed.

Lemma segmentsMeet_swap a1 a2 b1 b2 :
  segmentsMeet a1 a2 b1 b2 -> segmentsMeet b1 b2 a1 a2.
Proof.
  intros (n & p & q & Hn & Hp & Hq & Hx & Hy).
  exists n, q, p. unfold commonPointAt. lia.
Qed.

(** Within the range, cross runs on integers that doubles hold exactly. *)
Lemma crossValues_exact p q r :
  inExactRange p -> inExactRange q -> inExactRange r ->
  Forall exactInDouble (crossValues p q r).
Proof.
  unfold inExactRange, exactInDouble, crossValues, cross.
  intros [Hpx Hpy] [Hqx Hqy] [Hrx Hry].
  assert (forall a b : Z,
            Z.abs a ≤ 2 ^ 26 -> Z.abs b ≤ 2 ^ 26 -> Z.abs (a * b) ≤ 2 ^ 52)
    as Hmul.
  { intros a b Ha Hb. rewrite Z.abs_mul.
    change (2 ^ 52) with (2 ^ 26 * 2 ^ 26).
    apply Z.mul_le_mono_nonneg; lia. }
  assert (Z.abs (px q - px p) ≤ 2 ^ 26) as D1 by lia.
  assert (Z.abs (py r - py p) ≤ 2 ^ 26) as D2 by lia.
  assert (Z.abs (py q - py p) ≤ 2 ^ 26) as D3 by lia.
  assert (Z.abs (px r - px p) ≤ 2 ^ 26) as D4 by lia.
  pose proof (Hmul _ _ D1 D2) as P1.
  pose proof (Hmul _ _ D3 D4) as P2.
  repeat (apply Forall_cons; split; [lia|]).
  apply Forall_nil_2.
Qed.

(** X1.  For segments with end points of coordinates up to 2^25 in
    magnitude, every difference, product and cross product that
    segmentsIntersect computes is an integer a double holds exactly (at most
    2^53 in magnitude), and the predicate is exact there: it is true exactly
    when the two closed segments have a common point. *)
Theorem segmentsIntersect_iff_meet a1 a2 b1 b2 :
  inExactRange a1 -> inExactRange a2 -> inExactRange b1 -> inExactRange b2 ->
  Forall exactInDouble
    (crossValues a1 a2 b1 ++ crossValues a1 a2 b2 ++
     crossValues b1 b2 a1 ++ crossValues b1 b2 a2) /\
  (segmentsIntersect a1 a2 b1 b2 = true <-> segmentsMeet a1 a2 b1 b2).
Proof.
  intros Ha1 Ha2 Hb1 Hb2. split.
  - rewrite !Forall_app. auto using crossValues_exact.
  - split; [apply segmentsIntersect_sound | apply segmentsIntersect_complete].
Qed.

(** X2.  For segments with end points of coordinates up to 2^25 in
    magnitude, where the cross products are computed exactly, the predicate
    does not depend on the order of the two segments nor on the direction of
    either. *)
Theorem segmentsIntersect_symmetric a1 a2 b1 b2 :
  inExactRange a1 -> inExactRange a2 -> inExactRange b1 -> inExactRange b2 ->
  segmentsIntersect b1 b2 a1 a2 = segmentsIntersect a1 a2 b1 b2 /\
  segmentsIntersect a2 a1 b1 b2 = segmentsIntersect a1 a2 b1 b2 /\
  segmentsIntersect a1 a2 b2 b1 = segmentsIntersect a1 a2 b1 b2.
Proof.
  intros _ _ _ _.
  assert (forall a1 a2 b1 b2, segmentsMeet a1 a2 b1 b2 -> segmentsMeet b1 b2 a1 a2)
    as Hswap.
  { intros ???? (n & p & q & Hn & Hp & Hq & Hx & Hy).
    exists n, q, p. unfold commonPointAt. lia. }
  assert (forall a1 a2 b1 b2, segmentsMeet a1 a2 b1 b2 -> segmentsMeet a2 a1 b1 b2)
    as Hrev.
  { intros ???? (n & p & q & Hn & Hp & Hq & Hx & Hy).
    exists n, (n - p), q. unfold commonPointAt. split; [lia|]. split; [lia|].
    split; [lia|]. split; nia. }
  assert (forall x y : bool, (x = true <-> y = true) -> x = y) as Hb.
  { intros [] []; intuition congruence. }
  assert (forall a1 a2 b1 b2 c1 c2 d1 d2,
            (segmentsMeet a1 a2 b1 b2 <-> segmentsMeet c1 c2 d1 d2) ->
            segmentsIntersect a1 a2 b1 b2 = segmentsIntersect c1 c2 d1 d2) as Hm.
  { intros ???????? [H1 H2]. apply Hb.
    split; intros H; apply segmentsIntersect_complete;
      apply segmentsIntersect_sound in H; auto. }
  split; [|split]; apply Hm.
  - split; apply Hswap.
  - split; apply Hrev.
  - split; intros H; apply Hswap, Hrev, Hswap, H.
Qed.

(* ========================================================================= *)
(*  Alignment and the walk between two stations                              *)
(* ========================================================================= *)

Ltac sgn_cases t :=
  let H := fresh "Hs" in
  destruct (Z.sgn_spec t) as [[H ->]|[[H ->]|[H ->]]].


Lemma walkPoint_end a b :
  isStraightOrDiag a b = true ->
  walkPoint a b (walkLength a b) = (st_x b, st_y b).
Proof.
  unfold isStraightOrDiag, walkPoint, walkLength. cbv zeta.
  rewrite !orb_true_iff, !bool_decide_eq_true. intros H. f_equal.
  - sgn_cases (st_x b - st_x a); lia.
  - sgn_cases (st_y b - st_y a); lia.
Qed.

(** Before its last step the walk is not at b. *)
Lemma walkPoint_before a b k :
  isStraightOrDiag a b = true -> 0 ≤ k < walkLength a b ->
  walkPoint a b k ≠ (st_x b, st_y b).
Proof.
  unfold isStraightOrDiag, walkPoint, walkLength. cbv zeta.
  rewrite !orb_true_iff, !bool_decide_eq_true. intros H Hk Heq.
  injection Heq as Hx Hy. revert Hx Hy.
  sgn_cases (st_x b - st_x a); sgn_cases (st_y b - st_y a); lia.
Qed.

Section Path.

Variable full : list StationData.

(** The loop entered at step j of the walk: it ends, with `true` exactly
    when a station of the index lies at one of the steps j .. n - 1. *)
Lemma walkPath_aligned a b fuel :
  isStraightOrDiag a b = true ->
  forall j,
    0 ≤ j ≤ walkLength a b -> (Z.to_nat (walkLength a b - j) ≤ fuel)%nat ->
    exists r,
      walkPath full fuel (Z.sgn (st_x b - st_x a)) (Z.sgn (st_y b - st_y a))
               (walkPoint a b j).1 (walkPoint a b j).2 b = Some r /\
      (r = true <->
       exists k, j ≤ k < walkLength a b /\
                 is_Some (stationAt full !! walkPoint a b k)).
Proof.
  intros Hal. induction fuel as [|fuel IH]; intros j Hj Hf.
  - assert (j = walkLength a b) as -> by lia.
    rewrite (walkPoint_end _ _ Hal). simpl.
    rewrite (bool_decide_eq_false_2 (st_x b ≠ st_x b)) by tauto.
    rewrite (bool_decide_eq_false_2 (st_y b ≠ st_y b)) by tauto. simpl.
    exists false. split; [done|]. split; [done|]. intros (k & ? & _). lia.
  - destruct (decide (j = walkLength a b)) as [->|Hne].
    + rewrite (walkPoint_end _ _ Hal). simpl.
      rewrite (bool_decide_eq_false_2 (st_x b ≠ st_x b)) by tauto.
      rewrite (bool_decide_eq_false_2 (st_y b ≠ st_y b)) by tauto. simpl.
      exists false. split; [done|]. split; [done|]. intros (k & ? & _). lia.
    + pose proof (walkPoint_before a b j Hal ltac:(lia)) as Hnb.
      destruct (IH (j + 1) ltac:(lia) ltac:(lia)) as (r & Hr & Hiff).
      assert (walkPoint a b (j + 1) =
              ((walkPoint a b j).1 + Z.sgn (st_x b - st_x a),
               (walkPoint a b j).2 + Z.sgn (st_y b - st_y a))) as Hnext.
      { unfold walkPoint. simpl. f_equal; ring. }
      rewrite Hnext in Hr. clear Hnext.
      destruct (walkPoint a b j) as [x y] eqn:Hpt.
      cbn [fst snd walkPath] in *.
      assert (bool_decide (x ≠ st_x b) || bool_decide (y ≠ st_y b) = true) as ->.
      { apply orb_true_iff. rewrite !bool_decide_eq_true.
        destruct (decide (x = st_x b)) as [Hx|Hx]; [|by left].
        right. intros Hy. apply Hnb. by subst. }
      case_bool_decide as Hst.
      * exists true. split; [done|]. split; [|done]. intros _.
        exists j. split; [lia|]. by rewrite Hpt.
      * exists r. split; [exact Hr|].
        rewrite Hiff. split.
        { intros (k & Hk & Hs). exists k. split; [lia|done]. }
        intros (k & Hk & Hs). exists k. split; [|done].
        destruct (decide (k = j)) as [->|]; [|lia].
        exfalso. apply Hst. by rewrite <- Hpt.
Qed.


End Path.


(** The pass-through test on aligned stations. *)
Lemma pathPasses_aligned (full : list StationData)
    (a b : Station) (fuel : nat) :
  isStraightOrDiag a b = true -> (pathFuel a b ≤ fuel)%nat ->
  exists r,
    pathPassesThroughStation full fuel a b = Some r /\
    (r = true <-> stationBetween full a b).
Proof.
  intros Hal Hf. unfold pathPassesThroughStation. cbv zeta.
  unfold pathFuel in Hf. fold (walkLength a b) in Hf.
  destruct (decide (walkLength a b = 0)) as [H0|H0].
  - (* a and b at the same place: the loop is not entered *)
    pose proof (walkPoint_end _ _ Hal) as He. rewrite H0 in He.
    unfold walkPoint in He. injection He as Hx Hy.
    assert (Z.sgn (st_x b - st_x a) = 0 /\ Z.sgn (st_y b - st_y a) = 0)
      as [-> ->].
    { unfold walkLength in H0. split; apply Z.sgn_null_iff; lia. }
    exists false. split.
    + destruct fuel; simpl;
        rewrite (bool_decide_eq_false_2 (st_x a + 0 ≠ st_x b)) by lia;
        rewrite (bool_decide_eq_false_2 (st_y a + 0 ≠ st_y b)) by lia; done.
    + split; [done|]. intros (k & Hk & _). lia.
  - destruct (walkPath_aligned full a b fuel Hal 1) as (r & Hr & Hiff).
    { unfold walkLength in *. lia. }
    { lia. }
    exists r. split.
    + rewrite <- Hr. unfold walkPoint. simpl. f_equal; ring.
    + rewrite Hiff. unfold stationBetween.
      split; intros (k & Hk & Hs); exists k; (split; [lia|done]).
Qed.



(* ========================================================================= *)
(*  The station index                                                        *)
(* ========================================================================= *)

(** new Map(l.map(s => [key(s), s])).get(k) is the last record of l with
    key k. *)
Lemma mapOfPairs_lookup `{Countable K} {V} (key : V -> K) (l : list V) (k : K) :
  mapOfPairs (map (fun s => (key s, s)) l) !! k =
  last (filter (fun s => key s = k) l).
Proof.
  unfold mapOfPairs. induction l as [|s l IH] using rev_ind; [done|].
  rewrite map_app, foldl_app. cbn [map foldl fst snd]. rewrite filter_app.
  destruct (decide (key s = k)) as [Hk|Hk].
  - rewrite Hk, lookup_insert_eq.
    rewrite filter_cons_True, filter_nil by done. by rewrite last_snoc.
  - rewrite lookup_insert_ne by done.
    rewrite filter_cons_False, filter_nil by done. by rewrite app_nil_r.
Qed.

Lemma last_filter_Some {A} (P : A -> Prop) `{!forall x, Decision (P x)}
    (l : list A) (x : A) :
  last (filter P l) = Some x -> P x /\ x ∈ l.
Proof.
  intros Hl. apply last_Some in Hl as [l' Hl].
  assert (x ∈ filter P l) as Hin by (rewrite Hl; set_solver).
  by apply list_elem_of_filter in Hin.
Qed.

Lemma last_filter_None {A} (P : A -> Prop) `{!forall x, Decision (P x)}
    (l : list A) :
  last (filter P l) = None <-> forall x, x ∈ l -> ~ P x.
Proof.
  rewrite last_None. split.
  - intros Hnil x Hin HP.
    assert (x ∈ filter P l) as Hf by (by apply list_elem_of_filter).
    rewrite Hnil in Hf. by apply elem_of_nil in Hf.
  - intros Hall. destruct (filter P l) as [|x l'] eqn:Hf; [done|].
    assert (x ∈ filter P l) as Hin by (rewrite Hf; set_solver).
    apply list_elem_of_filter in Hin as [HP Hin]. by destruct (Hall x Hin).
Qed.

Section Index.

Variable full : list StationData.

Lemma stationById_lookup id :
  stationById full !! id = last (filter (fun s => st_id s = id) (lastStations full)).
Proof. apply (mapOfPairs_lookup st_id). Qed.

Lemma stationAt_lookup x y :
  stationAt full !! (x, y) =
  last (filter (fun s => (st_x s, st_y s) = (x, y)) (lastStations full)).
Proof. apply (mapOfPairs_lookup (fun s => (st_x s, st_y s))). Qed.

Lemma stationMetaById_lookup id :
  stationMetaById full !! id = last (filter (fun s => sd_id s = id) full).
Proof. apply (mapOfPairs_lookup sd_id). Qed.

(** stationById and stationMetaById have the same keys, and the basic
    station under a key is the basic part of the metadata under it. *)
Lemma stationById_meta id :
  stationById full !! id = basicOf <$> stationMetaById full !! id.
Proof.
  rewrite stationById_lookup, stationMetaById_lookup. unfold lastStations.
  induction full as [|s l IH] using rev_ind; [done|].
  rewrite map_app, !filter_app. cbn [map].
  destruct (decide (sd_id s = id)) as [Hk|Hk].
  - rewrite (filter_cons_True (fun s => sd_id s = id)) by done.
    rewrite (filter_cons_True (fun s => st_id s = id)) by done.
    rewrite !filter_nil. by rewrite !last_snoc.
  - rewrite (filter_cons_False (fun s => sd_id s = id)) by done.
    rewrite (filter_cons_False (fun s => st_id s = id)) by done.
    rewrite !filter_nil. by rewrite !app_nil_r.
Qed.

Lemma getStationMeta_lookup id :
  getStationMeta full id = stationMetaById full !! id.
Proof.
  unfold getStationMeta. rewrite stationById_meta.
  by destruct (stationMetaById full !! id).
Qed.

Lemma stationById_id id s : stationById full !! id = Some s -> st_id s = id.
Proof.
  rewrite stationById_lookup. intros H.
  by apply (last_filter_Some (fun s => st_id s = id)) in H as [? _].
Qed.

End Index.

(** X6.  Each station index returns the last record of the dataset with the
    requested key: the found station has the requested id or coordinates, a
    later record replaces an earlier one with the same key, and a key of no
    record is not found. *)
Theorem station_index_last_record (full : list StationData) :
  (forall id,
     stationById full !! id =
     last (filter (fun s => st_id s = id) (lastStations full))) /\
  (forall x y,
     stationAt full !! (x, y) =
     last (filter (fun s => (st_x s, st_y s) = (x, y)) (lastStations full))) /\
  (forall id,
     stationMetaById full !! id = last (filter (fun s => sd_id s = id) full)) /\
  (forall id s, stationById full !! id = Some s ->
     st_id s = id /\ s ∈ lastStations full) /\
  (forall x y s, stationAt full !! (x, y) = Some s ->
     st_x s = x /\ st_y s = y /\ s ∈ lastStations full) /\
  (forall id, stationById full !! id = None <-> id ∉ st_id <$> lastStations full).
Proof.
  split; [apply stationById_lookup|].
  split; [apply stationAt_lookup|].
  split; [apply stationMetaById_lookup|].
  split; [|split].
  - intros id s. rewrite stationById_lookup.
    apply (last_filter_Some (fun s => st_id s = id)).
  - intros x y s. rewrite stationAt_lookup. intros H.
    apply (last_filter_Some (fun s => (st_x s, st_y s) = (x, y))) in H
      as [Heq Hin].
    injection Heq as -> ->. done.
  - intros id. rewrite stationById_lookup.
    rewrite (last_filter_None (fun s => st_id s = id)).
    rewrite list_elem_of_fmap. split.
    + intros Hall (s & -> & Hin). by apply (Hall s).
    + intros Hno s Hin Hid. apply Hno. by exists s.
Qed.

(** X7.  getStationMeta is the lookup in the metadata index: the branch that
    builds a record without metadata from stationById is never taken, since
    the two indexes have the same keys.  The record returned has the
    requested id, and a record is returned exactly for the ids known to
    stationById. *)
Theorem getStationMeta_is_metadata (full : list StationData) (id : Z) :
  getStationMeta full id = stationMetaById full !! id /\
  (forall meta, getStationMeta full id = Some meta ->
     sd_id meta = id /\ meta ∈ full /\
     stationById full !! id = Some (basicOf meta)) /\
  (getStationMeta full id = None <-> stationById full !! id = None).
Proof.
  split; [apply getStationMeta_lookup|]. split.
  - intros meta. rewrite getStationMeta_lookup. intros Hm.
    rewrite stationById_meta, Hm. split; [|split; [|done]].
    + rewrite stationMetaById_lookup in Hm.
      by apply (last_filter_Some (fun s => sd_id s = id)) in Hm as [? _].
    + rewrite stationMetaById_lookup in Hm.
      by apply (last_filter_Some (fun s => sd_id s = id)) in Hm as [_ ?].
  - rewrite getStationMeta_lookup, stationById_meta.
    destruct (stationMetaById full !! id); simpl; split; done.
Qed.

(* ========================================================================= *)
(*  The deck                                                                 *)
(* ========================================================================= *)

(** Exchanging two cards keeps the cards of the deck. *)
Lemma swapCards_perm i j d : swapCards i j d ≡ₚ d.
Proof.
  unfold swapCards.
  destruct (d !! i) as [ci|] eqn:Hi; [|done].
  destruct (d !! j) as [cj|] eqn:Hj; [|done].
  apply Permutation_inj. split; [by rewrite !length_insert|].
  exists (fun k => if decide (k = j) then i else if decide (k = i) then j else k).
  split.
  - intros x y. repeat case_decide; congruence.
  - intros k. pose proof (lookup_lt_Some _ _ _ Hi). pose proof (lookup_lt_Some _ _ _ Hj).
    destruct (decide (k = j)) as [->|Hkj].
    + rewrite list_lookup_insert_eq by (by rewrite length_insert). done.
    + rewrite list_lookup_insert_ne by done.
      destruct (decide (k = i)) as [->|Hki].
      * by rewrite list_lookup_insert_eq.
      * by rewrite list_lookup_insert_ne.
Qed.

Lemma shuffleFrom_perm rnd i d : shuffleFrom rnd i d ≡ₚ d.
Proof.
  revert d. induction i as [|i IH]; intros d; simpl; [done|].
  by rewrite IH, swapCards_perm.
Qed.

Lemma buildDeck_perm rnd : buildDeck rnd ≡ₚ baseDeck.
Proof. apply shuffleFrom_perm. Qed.

Lemma baseDeck_NoDup : NoDup baseDeck.
Proof. apply (bool_decide_unpack (NoDup baseDeck)). vm_compute. exact I. Qed.

Lemma baseDeck_cards c :
  c ∈ baseDeck <->
  (ptype c = "center" \/ ptype c = "side") /\
  (sym c = "A" \/ sym c = "B" \/ sym c = "C" \/ sym c = "D" \/ sym c = "Joker").
Proof.
  unfold baseDeck. simpl. rewrite !elem_of_cons, elem_of_nil.
  destruct c as [pt sy]. simpl. split.
  - intros H. repeat (destruct H as [H|H]; [injection H as -> ->; auto 10|]).
    done.
  - intros [[-> | ->] [->|[->|[->|[->| ->]]]]]; auto 20.
Qed.

(** X8.  Whatever Math.random returns, the shuffled deck holds each of the ten
    cards (A, B, C, D, Joker for a center and for a side platform) exactly
    once. *)
Theorem buildDeck_is_shuffle (rnd : nat -> nat) :
  buildDeck rnd ≡ₚ baseDeck /\
  NoDup (buildDeck rnd) /\
  (forall c, c ∈ buildDeck rnd <->
     (ptype c = "center" \/ ptype c = "side") /\
     (sym c = "A" \/ sym c = "B" \/ sym c = "C" \/ sym c = "D" \/
      sym c = "Joker")).
Proof.
  split; [apply buildDeck_perm|]. split.
  - rewrite buildDeck_perm. apply baseDeck_NoDup.
  - intros c. rewrite buildDeck_perm. apply baseDeck_cards.
Qed.

(* ========================================================================= *)
(*  What canConnect accepts                                                  *)
(* ========================================================================= *)

(** A second call of ensureLineState finds what the first has returned. *)
Lemma ensureLineState_idem lineId E l LS E1 :
  ensureLineState lineId E = (Some (l, LS), E1) ->
  lineId = Some l /\ lsGet l (lineStates E1) = Some LS /\
  ensureLineState lineId E1 = (Some (l, LS), E1).
Proof.
  intros Hens.
  destruct (ensureLineState_cases lineId E)
    as [(l' & LS' & Hl & Hg & He)|[(l' & ln & Hl & Hg & Hf & He)|[_ He]]];
    rewrite He in Hens; simplify_eq.
  - split; [done|]. split; [done|]. unfold ensureLineState. by rewrite Hg.
  - split; [done|]. unfold ensureLineState. simpl.
    assert (lsGet l (lineStates E ++ [(l, freshLineState (line_start ln))])
            = Some (freshLineState (line_start ln))) as Hnew.
    { rewrite <- (lsSet_absent _ _ _ Hg). apply lsGet_lsSet_eq. }
    split; [done|]. by rewrite Hnew.
Qed.

Lemma buildStateOf_ensure E l LS ln :
  ensureLineState (Some l) E = (Some (l, LS), exec (ensureLineState (Some l)) E) ->
  findLine l = Some ln -> buildStateOf E l ln = LS.
Proof.
  unfold buildStateOf, exec. intros Hens Hf.
  destruct (ensureLineState_cases (Some l) E)
    as [(l' & LS' & Hl & Hg & He)|[(l' & ln' & Hl & Hg & Hf' & He)|[_ He]]];
    rewrite He in Hens; simplify_eq.
  - by rewrite Hg.
  - by rewrite Hg.
Qed.

Section Accept.

Variable full : list StationData.

(** canConnect on a state reads the build state of its call of
    ensureLineState; after that call it gives the same answer. *)
Lemma canConnect_ensured fromId toId E l LS E1 :
  ensureLineState (currentLineId E) E = (Some (l, LS), E1) ->
  canConnect full fromId toId E =
  (result (canConnect full fromId toId) E1, E1) /\
  canConnect full fromId toId E1 = canConnect full fromId toId E.
Proof.
  intros Hens.
  pose proof (canConnect_exec full fromId toId E) as Hex.
  pose proof (ensureLineState_frame (currentLineId E) E) as (Hst & _).
  unfold exec in Hex, Hst. rewrite Hens in Hex, Hst. simpl in Hex, Hst.
  destruct (ensureLineState_idem _ _ _ _ _ Hens) as (_ & _ & Hidem).
  assert (currentLineId E1 = currentLineId E) as Hcl
    by (unfold currentLineId; by rewrite Hst).
  assert (canConnect full fromId toId E1 = canConnect full fromId toId E) as Heq.
  { unfold canConnect. munfold. cbv beta. rewrite Hcl, Hidem, Hens. done. }
  split; [|done].
  unfold result. rewrite Heq.
  destruct (canConnect full fromId toId E) as [r E']. simpl in *. by subst.
Qed.

(** An accepting canConnect has found the line and its build state. *)
Lemma canConnect_accept_ensure fromId toId E :
  result (canConnect full fromId toId) E = Some true ->
  exists l LS ln,
    currentLineId E = Some l /\ findLine l = Some ln /\
    ensureLineState (currentLineId E) E =
      (Some (l, LS), (ensureLineState (currentLineId E) E).2).
Proof.
  unfold canConnect. munfold. simpl.
  pose proof (ensureLineState_currentLine (currentLineId E) E) as Hcl.
  unfold exec in Hcl.
  destruct (ensureLineState (currentLineId E) E) as [[[l LS]|] E1] eqn:Hens;
    simpl in *; [|done].
  destruct (ensureLineState_idem _ _ _ _ _ Hens) as (Hl & _).
  destruct (stationById full !! fromId) as [A|]; [|done].
  destruct (stationById full !! toId) as [B|]; [|done].
  destruct (bool_decide (fromId = toId)); [done|]. simpl.
  destruct (currentLine E1) as [ln|] eqn:Hln; [|done]. intros _.
  exists l, LS, ln. split; [done|]. split; [|done].
  unfold currentLine in Hcl. rewrite Hl in Hcl. by symmetry.
Qed.

(** On a state where the current line has its build state, canConnect
    answers true exactly when both stations are known and every test
    passes. *)
Lemma canConnect_accept fromId toId E l LS ln :
  currentLineId E = Some l -> lsGet l (lineStates E) = Some LS ->
  findLine l = Some ln ->
  result (canConnect full fromId toId) E = Some true <->
  exists A B,
    stationById full !! fromId = Some A /\ stationById full !! toId = Some B /\
    acceptTests full E l LS ln fromId toId A B.
Proof.
  intros Hl Hg Hf. unfold canConnect, acceptTests. munfold. simpl.
  assert (currentLine E = Some ln) as Hcl by (unfold currentLine; by rewrite Hl).
  rewrite Hl. unfold ensureLineState. rewrite Hg. simpl.
  destruct (stationById full !! fromId) as [A|] eqn:HA;
    [|split; [done|intros (? & ? & ? & _); done]].
  destruct (stationById full !! toId) as [B|] eqn:HB;
    [|split; [done|intros (? & ? & ? & ? & _); done]].
  destruct (bool_decide (fromId = toId)) eqn:H1.
  { apply bool_decide_eq_true in H1.
    split; [done|intros (? & ? & ? & ? & ? & _); done]. }
  apply bool_decide_eq_false in H1. simpl. rewrite Hcl.
  split.
  - intros H. exists A, B. split; [done|]. split; [done|].
    split; [done|]. revert H.
    destruct (ownedByOther (stationOwner E !! fromId) l _) eqn:H2; [done|].
    split; [done|]. revert H.
    destruct (ownedByOther (stationOwner E !! toId) l _) eqn:H3; [done|].
    split; [done|]. revert H.
    destruct (isStraightOrDiag A B) eqn:H4; [|done]. simpl.
    split; [done|]. revert H.
    destruct (bool_decide (length (segments LS) = 0%nat)) eqn:H5.
    + destruct (bool_decide (fromId ≠ line_start ln)) eqn:H6; [done|].
      apply bool_decide_eq_false in H6.
      split; [by destruct (decide (fromId = line_start ln))|]. revert H.
      destruct (stationMatchesCard E B) eqn:H7; [|done]. simpl.
      split; [done|]. revert H.
      destruct (pathPassesThroughStation full (pathFuel A B) A B) as [[|]|];
        [done| |done].
      split; [done|]. revert H.
      destruct (existsb _ _) eqn:H8; [done|].
      split; [done|]. revert H. unfold pointOf.
      destruct (crossesOther _ _ _ _ _ _) as [[|]|]; [done| |done].
      split; [done|]. revert H.
      destruct (bool_decide (toId ∈ visited LS)) eqn:H10; [done|]. intros _.
      by apply bool_decide_eq_false in H10.
    + destruct (bool_decide (fromId ∈ endpoints LS)) eqn:H6; [|done]. simpl.
      apply bool_decide_eq_true in H6.
      split; [done|]. revert H.
      destruct (stationMatchesCard E B) eqn:H7; [|done]. simpl.
      split; [done|]. revert H.
      destruct (pathPassesThroughStation full (pathFuel A B) A B) as [[|]|];
        [done| |done].
      split; [done|]. revert H.
      destruct (existsb _ _) eqn:H8; [done|].
      split; [done|]. revert H. unfold pointOf.
      destruct (crossesOther _ _ _ _ _ _) as [[|]|]; [done| |done].
      split; [done|]. revert H.
      destruct (bool_decide (toId ∈ visited LS)) eqn:H10; [done|]. intros _.
      by apply bool_decide_eq_false in H10.
  - intros (A' & B' & ? & ? & _ & H2 & H3 & H4 & H5 & H6 & H7 & H8 & H9 & H10).
    simplify_eq. unfold pointOf in H9.
    rewrite H2, H3, H4. simpl.
    assert ((if bool_decide (length (segments LS) = 0%nat)
             then bool_decide (fromId ≠ line_start ln)
             else negb (bool_decide (fromId ∈ endpoints LS))) = false) as ->.
    { destruct (bool_decide (length (segments LS) = 0%nat)).
      - apply bool_decide_eq_false. tauto.
      - by rewrite (bool_decide_eq_true_2 _ H5). }
    rewrite H6. simpl. rewrite H7. simpl. rewrite H8. simpl. rewrite H9. simpl.
    by rewrite (bool_decide_eq_false_2 _ H10).
Qed.

End Accept.

(* ------------------------------------------------------------------------- *)
(* The tests of canConnect and the rules they decide                         *)
(* ------------------------------------------------------------------------- *)

Lemma ownedByOther_false (E : Engine) l ln id :
  ownedByOther (stationOwner E !! id) l
    (bool_decide (id = STATION_TRANSFER_EXCEPTION) ||
     bool_decide (id = line_start ln)) = false <->
  stationFree E l ln id.
Proof.
  unfold ownedByOther, stationFree.
  destruct (stationOwner E !! id) as [o|].
  - rewrite andb_false_iff, negb_false_iff, orb_true_iff,
      bool_decide_eq_false, !bool_decide_eq_true.
    split.
    + intros [H|[H|H]]; [|tauto..].
      right; right; right. f_equal. by destruct (decide (o = l)).
    + intros [H|[H|[H|H]]]; [tauto|tauto|done|]. left. intros Hn. apply Hn. congruence.
  - split; [tauto|done].
Qed.

Lemma stationMatchesCard_true E B :
  stationMatchesCard E B = true <-> cardAllows E B.
Proof.
  unfold stationMatchesCard, cardAllows.
  destruct (currentCard (state E)) as [card|]; [|split; [done|by intros (? & ? & _)]].
  split.
  - intros H. exists card. split; [done|]. revert H.
    case_bool_decide; [tauto|].
    destruct (bool_decide (sym card = "Joker") || bool_decide (st_type B = "?"))
      eqn:Hj.
    + apply orb_true_iff in Hj. rewrite !bool_decide_eq_true in Hj. tauto.
    + rewrite bool_decide_eq_true. tauto.
  - intros (c & Hc & H). injection Hc as <-.
    case_bool_decide; [done|].
    destruct (bool_decide (sym card = "Joker") || bool_decide (st_type B = "?"))
      eqn:Hj; [done|].
    apply orb_false_iff in Hj. rewrite !bool_decide_eq_false in Hj.
    rewrite bool_decide_eq_true. tauto.
Qed.

Lemma no_samePair fromId toId segs :
  existsb (samePair fromId toId) segs = false <->
  forall s, s ∈ segs -> ~ sameUnorderedPair s (mkSegment fromId toId).
Proof.
  induction segs as [|s segs IH]; simpl.
  - split; [|done]. intros _ s Hs. by apply elem_of_nil in Hs.
  - rewrite orb_false_iff, IH. split.
    + intros [Hs Hall] t Ht. apply elem_of_cons in Ht as [->|Ht]; [|by apply Hall].
      rewrite <- samePair_spec. by rewrite Hs.
    + intros Hall. split.
      * apply not_true_is_false. rewrite samePair_spec. apply Hall. set_solver.
      * intros t Ht. apply Hall. set_solver.
Qed.

Section Rules.

Variable full : list StationData.

(** The crossing loop runs to its end exactly when every segment with a
    point in common with the new one has an end at fromId or toId. *)
Lemma crossesOther_false fromId toId a1 a2 segs :
  Forall (fun s => is_Some (stationById full !! seg_a s) /\
                   is_Some (stationById full !! seg_b s)) segs ->
  crossesOther full fromId toId a1 a2 segs = Some false <->
  forall s C D, s ∈ segs ->
    stationById full !! seg_a s = Some C ->
    stationById full !! seg_b s = Some D ->
    segmentsMeet a1 a2 (pointOf C) (pointOf D) ->
    sharesStation fromId toId s.
Proof.
  induction 1 as [|s segs [[C HC] [D HD]] _ IH]; simpl.
  - split; [|done]. intros _ s C D Hs. by apply elem_of_nil in Hs.
  - rewrite HC, HD.
    destruct (segmentsIntersect a1 a2 _ _) eqn:Hi; simpl.
    + destruct (bool_decide (fromId = seg_a s) || bool_decide (fromId = seg_b s)
                || bool_decide (toId = seg_a s) || bool_decide (toId = seg_b s))
        eqn:Hsh; simpl.
      * rewrite IH. rewrite !orb_true_iff, !bool_decide_eq_true in Hsh. split.
        { intros Hall t C' D' Ht. apply elem_of_cons in Ht as [->|Ht].
          - intros _ _ _. unfold sharesStation. tauto.
          - by apply Hall. }
        { intros Hall t C' D' Ht. apply Hall. set_solver. }
      * split; [done|]. intros Hall. exfalso.
        rewrite !orb_false_iff, !bool_decide_eq_false in Hsh.
        assert (sharesStation fromId toId s) as Hs.
        { apply (Hall s C D); [set_solver|done|done|].
          by apply segmentsIntersect_sound. }
        unfold sharesStation in Hs. tauto.
    + rewrite IH. split.
      * intros Hall t C' D' Ht. apply elem_of_cons in Ht as [->|Ht].
        { intros HC' HD' Hm. simplify_eq.
          apply segmentsIntersect_complete in Hm. unfold pointOf in Hm.
          congruence. }
        { by apply Hall. }
      * intros Hall t C' D' Ht. apply Hall. set_solver.
Qed.

Lemma acceptTests_rules E l LS ln fromId toId A B :
  segmentsKnown full E ->
  acceptTests full E l LS ln fromId toId A B <->
  fromId ≠ toId /\ stationFree E l ln fromId /\ stationFree E l ln toId /\
  isStraightOrDiag A B = true /\
  (segments LS = [] -> fromId = line_start ln) /\
  (segments LS ≠ [] -> fromId ∈ endpoints LS) /\
  cardAllows E B /\ ~ stationBetween full A B /\
  (forall s, s ∈ allSegments (lineStates E) ->
     ~ sameUnorderedPair s (mkSegment fromId toId)) /\
  (forall s C D, s ∈ allSegments (lineStates E) ->
     stationById full !! seg_a s = Some C ->
     stationById full !! seg_b s = Some D ->
     segmentsMeet (pointOf A) (pointOf B) (pointOf C) (pointOf D) ->
     sharesStation fromId toId s) /\
  toId ∉ visited LS.
Proof.
  intros Hk. unfold acceptTests.
  rewrite !ownedByOther_false, stationMatchesCard_true, no_samePair,
    (crossesOther_false _ _ _ _ _ Hk).
  assert ((if bool_decide (length (segments LS) = 0%nat)
           then fromId = line_start ln else fromId ∈ endpoints LS) <->
          (segments LS = [] -> fromId = line_start ln) /\
          (segments LS ≠ [] -> fromId ∈ endpoints LS)) as ->.
  { case_bool_decide as Hlen.
    - apply length_zero_iff_nil in Hlen. rewrite Hlen. split; [|tauto]. done.
    - assert (segments LS ≠ []) by (intros Hn; by rewrite Hn in Hlen).
      split; [|tauto]. done. }
  split.
  - intros (H1 & H2 & H3 & H4 & H5 & H6 & H7 & H8 & H9 & H10).
    repeat (split; [assumption|]). split; [apply H5|]. split; [apply H5|].
    split; [done|]. split; [|done].
    destruct (pathPasses_aligned full A B (pathFuel A B) H4 ltac:(lia))
      as (r & Hr & Hiff).
    rewrite Hr in H7. injection H7 as ->. intros Hb. by apply Hiff in Hb.
  - intros (H1 & H2 & H3 & H4 & H5 & H5' & H6 & H7 & H8 & H9 & H10).
    repeat (split; [assumption|]). split; [done|]. split; [done|].
    split; [|done].
    destruct (pathPasses_aligned full A B (pathFuel A B) H4 ltac:(lia))
      as (r & Hr & Hiff).
    rewrite Hr. f_equal. destruct r; [|done]. exfalso. by apply H7, Hiff.
Qed.

End Rules.

(** X9.  canConnect accepts a section exactly when it obeys the placement rules:
    two different known stations, both free for the line, aligned, leaving
    from the start station (first section) or an end of the line, the target
    matching the drawn card, no station strictly between, no section between
    the same two stations yet, every section it touches or crosses having
    an end at one of the two stations, and the target not yet on the line. *)
Theorem canConnect_accepts_iff_rules (full : list StationData)
    (fromId toId : Z) (E : Engine) (l : Z) (ln : Line) :
  currentLineId E = Some l -> findLine l = Some ln -> segmentsKnown full E ->
  result (canConnect full fromId toId) E = Some true <->
  placementRules full E l ln fromId toId.
Proof.
  intros Hl Hf Hk.
  assert (roundInProgress E) as Hr.
  { unfold roundInProgress, currentLine. rewrite Hl, Hf. eauto. }
  destruct (roundInProgress_ensure E Hr) as (l' & LS & Hl' & Hens).
  rewrite Hl in Hl'. injection Hl' as <-.
  pose proof (ensureLineState_frame (currentLineId E) E) as (Hst & Hown & _).
  pose proof (ensureLineState_allSegments (currentLineId E) E) as Hall.
  cbv zeta in Hst, Hown.
  set (E1 := exec (ensureLineState (currentLineId E)) E) in *.
  destruct (canConnect_ensured full fromId toId E l LS E1 Hens) as [Hcc _].
  destruct (ensureLineState_idem _ _ _ _ _ Hens) as (_ & Hg1 & _).
  assert (currentLineId E1 = Some l) as Hl1
    by (unfold currentLineId; by rewrite Hst).
  assert (buildStateOf E l ln = LS) as HLS.
  { apply buildStateOf_ensure; [|done]. by rewrite <- Hl. }
  assert (segmentsKnown full E1) as Hk1
    by (unfold segmentsKnown; by rewrite Hall).
  unfold result at 1. rewrite Hcc. cbn [fst].
  rewrite (canConnect_accept full fromId toId E1 l LS ln Hl1 Hg1 Hf).
  unfold placementRules. rewrite HLS.
  assert (forall A B,
            acceptTests full E1 l LS ln fromId toId A B <->
            acceptTests full E l LS ln fromId toId A B) as Hsame.
  { intros A B. unfold acceptTests, stationMatchesCard.
    by rewrite Hown, Hst, Hall. }
  split; intros (A & B & HA & HB & Ht); exists A, B;
    (split; [done|]; split; [done|]).
  - by apply (acceptTests_rules full E l LS ln), Hsame.
  - by apply Hsame, (acceptTests_rules full E l LS ln).
Qed.

(* ========================================================================= *)
(*  The event handlers as sequences of elementary steps                      *)
(* ========================================================================= *)

Section Steps2.

Variable full : list StationData.
Variables hudPP trainSlider : bool.

Lemma ensureLineState_steps E :
  rtc (primStep full) E (exec (ensureLineState (currentLineId E)) E).
Proof.
  unfold exec.
  destruct (ensureLineState_cases (currentLineId E) E)
    as [(l & LS & Hl & Hg & ->)|[(l & ln & Hl & Hg & Hf & ->)|[_ ->]]]; simpl.
  - apply rtc_refl.
  - apply rtc_once. by apply step_ensure.
  - apply rtc_refl.
Qed.

Lemma drawCard_steps rnd E : rtc (primStep full) E (exec (drawCard rnd) E).
Proof.
  destruct (roundComplete (state E)) eqn:Hrc.
  - unfold drawCard, exec. munfold. simpl. rewrite Hrc. apply rtc_refl.
  - apply rtc_once. by apply step_draw.
Qed.

Lemma switchCard_steps rnd E : rtc (primStep full) E (exec (switchCard rnd) E).
Proof.
  destruct (decide (currentCard (state E) = None)) as [Hc|Hc].
  { unfold switchCard, exec. munfold. simpl.
    rewrite (bool_decide_eq_true_2 _ Hc). apply rtc_refl. }
  destruct (buildUsedForThisCard (state E)) eqn:Hb.
  { unfold switchCard, exec. munfold. simpl.
    rewrite (bool_decide_eq_false_2 _ Hc), Hb. apply rtc_refl. }
  destruct (switchUsedThisRound (state E)) eqn:Hs.
  { unfold switchCard, exec. munfold. simpl.
    rewrite (bool_decide_eq_false_2 _ Hc), Hb, Hs. apply rtc_refl. }
  apply rtc_once. by apply step_switch.
Qed.

(** computeCurrentRoundScore after ensureLineState. *)
Lemma computeCurrentRoundScore_ensured E l LS E1 :
  ensureLineState (currentLineId E) E = (Some (l, LS), E1) ->
  exists r,
    rr_lineId r = l /\
    computeCurrentRoundScore full E =
      (Some r, withRoundResults (roundResults E1 ++ [r]) E1) /\
    computeCurrentRoundScore full E1 =
      (Some r, withRoundResults (roundResults E1 ++ [r]) E1).
Proof.
  intros Hens.
  pose proof (ensureLineState_frame (currentLineId E) E) as (Hst & _).
  unfold exec in Hst. rewrite Hens in Hst. simpl in Hst.
  destruct (ensureLineState_idem _ _ _ _ _ Hens) as (_ & _ & Hidem).
  assert (currentLineId E1 = currentLineId E) as Hcl
    by (unfold currentLineId; by rewrite Hst).
  unfold computeCurrentRoundScore. munfold. cbv beta.
  rewrite Hcl, Hidem, Hens. cbv beta iota. eexists. split; [|split; reflexivity].
  done.
Qed.

Lemma nextRound_exec rnd E :
  exec (nextRound full hudPP trainSlider rnd) E = E \/
  exists l LS r,
    let E1 := exec (ensureLineState (currentLineId E)) E in
    currentLineId E1 = Some l /\ lsGet l (lineStates E1) = Some LS /\
    computeCurrentRoundScore full E1 =
      (Some r, withRoundResults (roundResults E1 ++ [r]) E1) /\
    exec (nextRound full hudPP trainSlider rnd) E =
      withState (nextRoundState rnd)
        (withRoundResults (roundResults E1 ++ [r]) E1).
Proof.
  unfold exec at 1 3.
  destruct (ensureLineState (currentLineId E) E) as [[[l LS]|] E1] eqn:Hens.
  - right.
    destruct (computeCurrentRoundScore_ensured E l LS E1 Hens)
      as (r & Hr & Hc & Hc1).
    destruct (ensureLineState_idem _ _ _ _ _ Hens) as (Hl & Hg & _).
    pose proof (ensureLineState_frame (currentLineId E) E) as (Hst & _).
    unfold exec in *. rewrite Hens in *. simpl in *.
    exists l, LS, r. split; [unfold currentLineId in *; by rewrite Hst|].
    split; [done|]. split; [done|].
    unfold nextRound. munfold. rewrite Hc. cbv beta iota. simpl.
    unfold nextRoundState, withState. simpl.
    case_bool_decide as Hfin.
    + match goal with
      | |- context [finishGame _ _ _ ?E0] =>
          destruct (finishGame_run full hudPP trainSlider E0) as [g ->]
      end. done.
    + done.
  - left. unfold nextRound, computeCurrentRoundScore. munfold. cbv beta.
    rewrite Hens. simpl.
    destruct (ensureLineState_cases (currentLineId E) E)
      as [(? & ? & _ & _ & He)|[(? & ? & _ & _ & _ & He)|[_ He]]];
      rewrite He in Hens; by simplify_eq.
Qed.

(** During a round nextRound does not throw: the line is scored and the
    round index moves on. *)
Lemma nextRound_in_round rnd E :
  roundInProgress E ->
  exists r,
    let E1 := exec (ensureLineState (currentLineId E)) E in
    exec (nextRound full hudPP trainSlider rnd) E =
      withState (nextRoundState rnd)
        (withRoundResults (roundResults E1 ++ [r]) E1).
Proof.
  intros Hr. cbv zeta.
  destruct (roundInProgress_ensure E Hr) as (l & LS & Hl & Hens).
  destruct (computeCurrentRoundScore_ensured E l LS _ Hens) as (r & _ & Hc & _).
  exists r. unfold exec at 1. unfold nextRound. munfold.
  rewrite Hc. cbv beta iota. simpl.
  unfold nextRoundState, withState. simpl.
  case_bool_decide as Hfin.
  - match goal with
    | |- context [finishGame _ _ _ ?E0] =>
        destruct (finishGame_run full hudPP trainSlider E0) as [g ->]
    end. done.
  - done.
Qed.

Lemma nextRound_steps rnd E :
  rtc (primStep full) E (exec (nextRound full hudPP trainSlider rnd) E).
Proof.
  destruct (nextRound_exec rnd E) as [->|(l & LS & r & Hl & Hg & Hc & ->)].
  - apply rtc_refl.
  - eapply rtc_r; [apply ensureLineState_steps|].
    by eapply step_next.
Qed.

(** What a connection attempt does: nothing, or the lazy creation of the
    build state, or a build followed, when the round has ended, by
    nextRound. *)
Lemma attemptConnection_exec fromId toId rnd E :
  let E' := exec (attemptConnection full hudPP trainSlider fromId toId rnd) E in
  let E1 := exec (ensureLineState (currentLineId E)) E in
  (E' = E /\
   (currentCard (state E) = None \/ buildUsedForThisCard (state E) = true)) \/
  (E' = E1 /\ result (canConnect full fromId toId) E ≠ Some true) \/
  exists l LS ln,
    currentLineId E1 = Some l /\ lsGet l (lineStates E1) = Some LS /\
    findLine l = Some ln /\
    currentCard (state E1) ≠ None /\ buildUsedForThisCard (state E1) = false /\
    result (canConnect full fromId toId) E1 = Some true /\
    let E2 := withState (setBuildUsed true)
                (afterAddSegment fromId toId l LS ln E1) in
    ((roundComplete (state E2) = false /\ E' = E2) \/
     (roundComplete (state E2) = true /\
      E' = exec (nextRound full hudPP trainSlider rnd) E2)).
Proof.
  cbv zeta. unfold attemptConnection. munfold. simpl.
  destruct (bool_decide (currentCard (state E) = None)) eqn:Hc.
  { apply bool_decide_eq_true in Hc. left. split; [done|by left]. }
  apply bool_decide_eq_false in Hc.
  destruct (buildUsedForThisCard (state E)) eqn:Hb.
  { left. split; [done|by right]. }
  pose proof (canConnect_exec full fromId toId E) as Hex.
  pose proof (ensureLineState_frame (currentLineId E) E) as (Hst & _).
  unfold exec in *.
  destruct (canConnect full fromId toId E) as [[[|]|] E1'] eqn:Hcc;
    simpl in *; subst E1'; [|by right; left..].
  right; right.
  set (E1 := (ensureLineState (currentLineId E) E).2) in *.
  assert (result (canConnect full fromId toId) E = Some true) as Hres
    by (unfold result; by rewrite Hcc).
  destruct (canConnect_accept_ensure full fromId toId E Hres)
    as (l & LS & ln & Hl & Hf & Hens).
  fold E1 in Hens.
  destruct (ensureLineState_idem _ _ _ _ _ Hens) as (_ & Hg1 & Hidem).
  destruct (canConnect_ensured full fromId toId E l LS E1 Hens) as [Hcc1 _].
  rewrite Hl in Hidem.
  assert (currentLineId E1 = Some l) as Hl1
    by (unfold currentLineId in *; by rewrite Hst).
  exists l, LS, ln. split; [done|]. split; [done|]. split; [done|].
  split; [by rewrite Hst|]. split; [by rewrite Hst|].
  split; [rewrite Hcc in Hcc1; by injection Hcc1|].
  destruct (addSegment_cases fromId toId E1)
    as [[He _]|[(l' & LS' & ln' & Hl' & Hf' & Hens' & Hadd)|
                (l' & LS' & Hl' & Hf' & _)]].
  - rewrite Hl1, Hidem in He. done.
  - rewrite Hl1 in Hl'. injection Hl' as <-.
    rewrite Hl1, Hidem in Hens'. injection Hens' as <- Hfix.
    rewrite Hf in Hf'. injection Hf' as <-.
    rewrite Hadd. simpl. unfold exec. rewrite Hl1, Hidem. simpl.
    destruct (roundComplete (state E1)) eqn:Hrc; simpl.
    + right. split; [done|]. done.
    + left. split; [done|]. done.
  - rewrite Hl1 in Hl'. injection Hl' as <-. congruence.
Qed.

Lemma attemptConnection_steps fromId toId rnd E :
  rtc (primStep full) E
    (exec (attemptConnection full hudPP trainSlider fromId toId rnd) E).
Proof.
  destruct (attemptConnection_exec fromId toId rnd E)
    as [[-> _]|[[-> _]|(l & LS & ln & Hl & Hg & Hf & Hc & Hb & Hcc & Hfin)]].
  - apply rtc_refl.
  - apply ensureLineState_steps.
  - etrans; [apply ensureLineState_steps|].
    eapply rtc_l; [by eapply step_build|].
    destruct Hfin as [[_ ->]|[_ ->]]; [apply rtc_refl|apply nextRound_steps].
Qed.

Lemma clickStation_steps id rnd E :
  rtc (primStep full) E
    (exec (clickStation full hudPP trainSlider id rnd) E).
Proof.
  unfold clickStation. munfold. simpl.
  pose proof (ensureLineState_steps E) as Hs. unfold exec in Hs.
  destruct (ensureLineState (currentLineId E) E) as [[[l LS]|] E1];
    simpl in *; [|done].
  destruct (selectedStationId E1) as [fromId|]; simpl.
  - etrans; [exact Hs|].
    eapply rtc_l; [apply (step_select full E1 None)|].
    destruct (pencilMode (state E1)); simpl; [apply rtc_refl|].
    apply attemptConnection_steps.
  - destruct (bool_decide (length (segments LS) = 0%nat)).
    + destruct (currentLine E1) as [ln|]; simpl; [|done].
      destruct (bool_decide (id = line_start ln)); simpl; [|done].
      eapply rtc_r; [exact Hs|]. apply step_select.
    + destruct (bool_decide (id ∈ endpoints LS)); simpl; [|done].
      eapply rtc_r; [exact Hs|]. apply step_select.
Qed.

Lemma handle_steps ev E :
  validEvent ev ->
  rtc (primStep full) E (exec (handle full hudPP trainSlider ev) E).
Proof.
  destruct ev as [ord rnd|id rnd|rnd|rnd|rnd|rnd| |]; simpl; intros Hv.
  - apply rtc_once. by apply step_start.
  - apply clickStation_steps.
  - apply drawCard_steps.
  - apply drawCard_steps.
  - apply nextRound_steps.
  - apply switchCard_steps.
  - apply rtc_once. apply step_pencil.
  - apply rtc_once. apply step_reset.
Qed.

(** Every state a session reaches is made by elementary steps. *)
Lemma reachable_played E :
  reachable full hudPP trainSlider E -> played full E.
Proof.
  unfold played. induction 1 as [|E ev _ IH Hv]; [apply rtc_refl|].
  etrans; [exact IH|by apply handle_steps].
Qed.

End Steps2.

(** Induction over the elementary steps. *)
Lemma played_ind (full : list StationData) (P : Engine -> Prop) :
  P initialEngine ->
  (forall E E', played full E -> P E -> primStep full E E' -> P E') ->
  forall E, played full E -> P E.
Proof.
  intros Hinit Hstep. unfold played in *.
  apply rtc_ind_r; [done|].
  intros E E' HE Hs IH. by apply (Hstep E E').
Qed.

(* ========================================================================= *)
(*  The card state of a round                                                *)
(* ========================================================================= *)

(** The state drawCard leaves when the round is not marked ended. *)
Lemma drawCard_state rnd E :
  roundComplete (state E) = false ->
  exists c,
    last (deckToPop rnd (state E)) = Some c /\
    exec (drawCard rnd) E =
    withState (fun s =>
      mkState (order s) (roundIndex s) (removelast (deckToPop rnd s))
              (S (drawsThisRound s)) (countedCenter c s) (countedSide c s)
              (Some c) false
              (bool_decide (5 ≤ countedCenter c s)%nat ||
               bool_decide (5 ≤ countedSide c s)%nat ||
               bool_decide (8 ≤ S (drawsThisRound s))%nat)
              (heldCard s) (switchUsedThisRound s) (pencilMode s)) E.
Proof.
  intros Hrc. unfold drawCard, deckToPop, countedCenter, countedSide.
  munfold. simpl. rewrite Hrc. simpl. rewrite refillDeck_run. simpl.
  destruct (last_nonempty _ (refilled_nonempty rnd (deck (state E)))) as [c Hc].
  exists c. split; [done|].
  unfold withState at 1 2. simpl. rewrite Hc. simpl.
  destruct (bool_decide (ptype c = "center"));
    [|destruct (bool_decide (ptype c = "side"))];
    simpl; rewrite updateRoundEndingState_run;
    unfold withState, setRoundComplete; simpl; by rewrite Hc.
Qed.

(** The state switchCard leaves when it switches. *)
Lemma switchCard_state rnd E :
  currentCard (state E) ≠ None -> buildUsedForThisCard (state E) = false ->
  switchUsedThisRound (state E) = false ->
  exists c,
    last (deckToPop rnd (state E)) = Some c /\
    exec (switchCard rnd) E =
    withState (fun s =>
      mkState (order s) (roundIndex s) (removelast (deckToPop rnd s))
              (drawsThisRound s) (centerCount s) (sideCount s) (Some c)
              (buildUsedForThisCard s)
              (bool_decide (5 ≤ centerCount s)%nat ||
               bool_decide (5 ≤ sideCount s)%nat ||
               bool_decide (8 ≤ drawsThisRound s)%nat)
              (heldCard s) true (pencilMode s)) E.
Proof.
  intros Hc Hb Hs. unfold switchCard, deckToPop. munfold. simpl.
  rewrite (bool_decide_eq_false_2 _ Hc), Hb, Hs. simpl.
  rewrite refillDeck_run. simpl. rewrite updateRoundEndingState_run. simpl.
  destruct (last_nonempty _ (refilled_nonempty rnd (deck (state E)))) as [c Hl].
  exists c. split; [done|].
  unfold withState, setRoundComplete. simpl. by rewrite Hl.
Qed.

Lemma removelast_submseteq {A} (l : list A) : removelast l ⊆+ l.
Proof.
  rewrite removelast_firstn_len. apply sublist_submseteq, sublist_take.
Qed.

Lemma deckToPop_base rnd s : deck s ⊆+ baseDeck -> deckToPop rnd s ⊆+ baseDeck.
Proof.
  intros Hd. unfold deckToPop. case_bool_decide; [|done].
  by rewrite buildDeck_perm.
Qed.

Lemma popped_base rnd s c :
  deck s ⊆+ baseDeck -> last (deckToPop rnd s) = Some c ->
  c ∈ baseDeck /\ removelast (deckToPop rnd s) ⊆+ baseDeck.
Proof.
  intros Hd Hl. pose proof (deckToPop_base rnd s Hd) as Hp. split.
  - eapply elem_of_submseteq; [|exact Hp]. by apply last_Some_elem_of.
  - by rewrite removelast_submseteq.
Qed.

Lemma submseteq_NoDup' {A} (l k : list A) : NoDup k -> l ⊆+ k -> NoDup l.
Proof.
  intros Hk Hl. apply submseteq_sublist_r in Hl as (l2 & Hp & Hs).
  rewrite Hp. by apply (sublist_NoDup l2 k).
Qed.

Lemma baseDeck_ptype c :
  c ∈ baseDeck -> ptype c = "center" \/ ptype c = "side".
Proof. intros H. by apply baseDeck_cards in H as [? _]. Qed.

Section Cards.

Variable full : list StationData.

Lemma primStep_cardsInv E E' :
  cardsInv (state E) -> primStep full E E' -> cardsInv (state E').
Proof.
  intros HI Hs.
  assert (cardsInv (mkState [] 0 [] 0 0 0 None false false None false false))
    as Hzero.
  { unfold cardsInv, roundEndedInv, thresholdReached. simpl.
    split; [split; [done|lia]|]. repeat (split; [lia|]).
    split; [apply submseteq_nil_l|done]. }
  assert (forall ord ri rnd pm,
            cardsInv (mkState ord ri (buildDeck rnd) 0 0 0 None false false
                              None false pm)) as Hfresh.
  { intros. unfold cardsInv, roundEndedInv, thresholdReached. simpl.
    split; [split; [done|lia]|]. repeat (split; [lia|]).
    split; [by rewrite buildDeck_perm|done]. }
  destruct Hs as [E|E ord rnd Hord|E l ln Hl Hg Hf|E sel|E|E rnd Hrc
                  |E rnd Hc Hb Hsw|E fromId toId l LS ln Hl Hg Hf Hc Hb Hcc
                  |E rnd l LS r Hl Hg Hsc]; simpl.
  - exact Hzero.
  - apply Hfresh.
  - exact HI.
  - exact HI.
  - exact HI.
  - destruct (drawCard_state rnd E Hrc) as (c & Hlast & ->). simpl.
    destruct HI as (H1 & H2 & H3 & H4 & H5 & H6 & H7).
    destruct (popped_base rnd _ c H6 Hlast) as [Hcb Hrest].
    assert (~ thresholdReached (state E)) as Hnt.
    { intros Ht. apply H1 in Ht. congruence. }
    unfold thresholdReached in Hnt.
    unfold cardsInv, roundEndedInv, thresholdReached, countedCenter,
      countedSide. simpl.
    destruct (baseDeck_ptype c Hcb) as [Hp|Hp]; rewrite Hp; simpl.
    + rewrite !orb_true_iff, !bool_decide_eq_true.
      split; [tauto|]. repeat (split; [lia|]). split; [done|].
      by intros ? [= <-].
    + rewrite !orb_true_iff, !bool_decide_eq_true.
      split; [tauto|]. repeat (split; [lia|]). split; [done|].
      by intros ? [= <-].
  - destruct (switchCard_state rnd E Hc Hb Hsw) as (c & Hlast & ->). simpl.
    destruct HI as (H1 & H2 & H3 & H4 & H5 & H6 & H7).
    destruct (popped_base rnd _ c H6 Hlast) as [Hcb Hrest].
    unfold cardsInv, roundEndedInv, thresholdReached. simpl.
    rewrite !orb_true_iff, !bool_decide_eq_true.
    split; [tauto|]. repeat (split; [lia|]). split; [done|].
    by intros ? [= <-].
  - exact HI.
  - destruct HI as (H1 & H2 & H3 & H4 & H5 & H6 & H7).
    unfold nextRoundState. case_bool_decide; simpl.
    + exact (conj H1 (conj H2 (conj H3 (conj H4 (conj H5 (conj H6 H7)))))).
    + apply Hfresh.
Qed.

Lemma played_cardsInv E : played full E -> cardsInv (state E).
Proof.
  revert E. apply played_ind.
  - unfold cardsInv, roundEndedInv, thresholdReached. simpl.
    split; [split; [done|lia]|]. repeat (split; [lia|]).
    split; [apply submseteq_nil_l|done].
  - intros E E' _ HI Hs. by apply (primStep_cardsInv E E').
Qed.

End Cards.

(** X10.  In every state of a session the cards drawn in the round are the center
    and the side cards counted, at most five of either and at most eight in
    all; a round marked ended has seen at least five cards; the deck holds
    cards of the ten-card base deck, none of them twice, and so does the
    current card. *)
Theorem card_counters_bounded (full : list StationData)
    (hudPP trainSlider : bool) (E : Engine) :
  reachable full hudPP trainSlider E ->
  drawsThisRound (state E) = (centerCount (state E) + sideCount (state E))%nat /\
  (centerCount (state E) ≤ 5)%nat /\ (sideCount (state E) ≤ 5)%nat /\
  (drawsThisRound (state E) ≤ 8)%nat /\
  (roundComplete (state E) = true -> (5 ≤ drawsThisRound (state E))%nat) /\
  deck (state E) ⊆+ baseDeck /\ NoDup (deck (state E)) /\
  (forall c, currentCard (state E) = Some c -> c ∈ baseDeck).
Proof.
  intros HE. apply reachable_played in HE.
  destruct (played_cardsInv full E HE) as (H1 & H2 & H3 & H4 & H5 & H6 & H7).
  repeat (split; [done|]). split; [|split; [done|split; [|done]]].
  - intros Hrc. apply H1 in Hrc. unfold thresholdReached in Hrc. lia.
  - apply (submseteq_NoDup' _ baseDeck); [apply baseDeck_NoDup|exact H6].
Qed.

(** X11.  While the round is not marked ended, drawCard in a state of a session
    reveals a card of the base deck that allows one build, counts it once as
    drawn and once under its platform type, and takes it off the deck. *)
Theorem drawCard_reveals_card (full : list StationData)
    (hudPP trainSlider : bool) (rnd : nat -> nat) (E : Engine) :
  reachable full hudPP trainSlider E ->
  roundComplete (state E) = false ->
  let E' := exec (drawCard rnd) E in
  exists c,
    currentCard (state E') = Some c /\ c ∈ baseDeck /\
    last (deckToPop rnd (state E)) = Some c /\
    deck (state E') = removelast (deckToPop rnd (state E)) /\
    ¬ c ∈ deck (state E') /\
    buildUsedForThisCard (state E') = false /\
    drawsThisRound (state E') = S (drawsThisRound (state E)) /\
    (ptype c = "center" ->
     centerCount (state E') = S (centerCount (state E)) /\
     sideCount (state E') = sideCount (state E)) /\
    (ptype c = "side" ->
     sideCount (state E') = S (sideCount (state E)) /\
     centerCount (state E') = centerCount (state E)) /\
    lineStates E' = lineStates E /\ stationOwner E' = stationOwner E.
Proof.
  intros HE Hrc. apply reachable_played in HE.
  destruct (played_cardsInv full E HE) as (H1 & H2 & H3 & H4 & H5 & H6 & H7).
  cbv zeta. destruct (drawCard_state rnd E Hrc) as (c & Hlast & ->). simpl.
  destruct (popped_base rnd _ c H6 Hlast) as [Hcb Hrest].
  exists c. repeat (split; [done|]).
  split.
  { (* the deck has no card twice *)
    pose proof (deckToPop_base rnd _ H6) as Hp.
    assert (NoDup (deckToPop rnd (state E))) as Hnd.
    { apply (submseteq_NoDup' _ baseDeck); [apply baseDeck_NoDup|exact Hp]. }
    assert (deckToPop rnd (state E) ≠ []) as Hne.
    { intros Hn. by rewrite Hn in Hlast. }
    destruct (exists_last Hne) as (d & c' & Hd). rewrite Hd in *.
    rewrite last_snoc in Hlast. injection Hlast as ->.
    rewrite removelast_last.
    apply NoDup_app in Hnd as (_ & Hnd & _). intros Hin.
    apply (Hnd c Hin). set_solver. }
  split; [done|]. split; [done|].
  unfold countedCenter, countedSide.
  split; [|split; [|done]].
  - intros ->. done.
  - intros ->. done.
Qed.

(* ========================================================================= *)
(*  Rounds, results and the handlers' completion                             *)
(* ========================================================================= *)

Lemma findLine_ids l : l ∈ map line_id LINES -> is_Some (findLine l).
Proof.
  simpl. rewrite !elem_of_cons, elem_of_nil.
  intros [->|[->|[->|[->|[]]]]]; unfold findLine; simpl; eauto.
Qed.

Lemma findLine_id l ln : findLine l = Some ln -> line_id ln = l.
Proof.
  unfold findLine. simpl.
  repeat (case_bool_decide; [intros [= <-]; done|]). done.
Qed.

Lemma roundInProgress_state E E' :
  order (state E') = order (state E) ->
  roundIndex (state E') = roundIndex (state E) ->
  roundInProgress E -> roundInProgress E'.
Proof.
  unfold roundInProgress, currentLine, currentLineId. by intros -> ->.
Qed.

Section Progress.

Variable full : list StationData.
Variables hudPP trainSlider : bool.

Lemma primStep_progressInv E E' :
  progressInv E -> primStep full E E' -> progressInv E'.
Proof.
  intros HI Hs.
  destruct Hs as [E|E ord rnd Hord|E l ln Hl Hg Hf|E sel|E|E rnd Hrc
                  |E rnd Hc Hb Hsw|E fromId toId l LS ln Hl Hg Hf Hc Hb Hcc
                  |E rnd l LS r Hl Hg Hsc].
  - unfold progressInv. simpl. split; [done|]. split; [lia|by left].
  - unfold progressInv. simpl. split; [done|]. split; [lia|by right].
  - exact HI.
  - exact HI.
  - exact HI.
  - destruct (drawCard_state rnd E Hrc) as (c & _ & ->). exact HI.
  - destruct (switchCard_state rnd E Hc Hb Hsw) as (c & _ & ->). exact HI.
  - exact HI.
  - destruct HI as (H1 & H2 & H3).
    assert (rr_lineId r = l) as Hr.
    { destruct (computeCurrentRoundScore_ensured full E l LS E) as (r' & Hr' & Hc' & _).
      - rewrite Hl. unfold ensureLineState. by rewrite Hg.
      - rewrite Hc' in Hsc. by injection Hsc as <-. }
    unfold currentLineId in Hl.
    assert (order (nextRoundState rnd (state E)) = order (state E) /\
            roundIndex (nextRoundState rnd (state E)) = S (roundIndex (state E)))
      as [Ho Hi].
    { unfold nextRoundState. by case_bool_decide. }
    unfold progressInv. simpl. rewrite Ho, Hi.
    split; [|split; [|done]].
    + rewrite fmap_app, H1. simpl. rewrite Hr.
      by rewrite (take_S_r _ _ _ Hl).
    + apply lookup_lt_Some in Hl. lia.
Qed.

Lemma played_progressInv E : played full E -> progressInv E.
Proof.
  revert E. apply played_ind.
  - unfold progressInv. simpl. split; [done|]. split; [lia|by left].
  - intros E E' _ HI Hs. by apply (primStep_progressInv E E').
Qed.

(** In a state of a session the current line, when there is one, is one of
    the four lines. *)
Lemma played_roundInProgress E :
  played full E -> is_Some (currentLineId E) -> roundInProgress E.
Proof.
  intros HE [l Hl]. destruct (played_progressInv E HE) as (_ & _ & [Ho|Ho]).
  - unfold currentLineId in Hl. by rewrite Ho in Hl.
  - unfold roundInProgress, currentLine. rewrite Hl.
    apply findLine_ids. rewrite <- Ho.
    unfold currentLineId in Hl. by apply list_elem_of_lookup_2 in Hl.
Qed.

Lemma primStep_segmentsKnown E E' :
  segmentsKnown full E -> primStep full E E' -> segmentsKnown full E'.
Proof.
  intros HI Hs. unfold segmentsKnown in *.
  destruct Hs as [E|E ord rnd Hord|E l ln Hl Hg Hf|E sel|E|E rnd Hrc
                  |E rnd Hc Hb Hsw|E fromId toId l LS ln Hl Hg Hf Hc Hb Hcc
                  |E rnd l LS r Hl Hg Hsc]; simpl.
  - constructor.
  - constructor.
  - rewrite allSegments_app. unfold allSegments at 2. simpl.
    by rewrite !app_nil_r.
  - exact HI.
  - exact HI.
  - by destruct (drawCard_effect rnd E) as (_ & _ & -> & _).
  - by destruct (switchCard_effect rnd E) as (_ & _ & -> & _).
  - rewrite (allSegments_extend _ _ _ _ _ Hg). constructor; [|done].
    apply (canConnect_accept full fromId toId E l LS ln Hl Hg Hf) in Hcc
      as (A & B & HA & HB & _).
    simpl. rewrite HA, HB. eauto.
  - exact HI.
Qed.

Lemma played_segmentsKnown E : played full E -> segmentsKnown full E.
Proof.
  revert E. apply played_ind.
  - unfold segmentsKnown. simpl. constructor.
  - intros E E' _ HI Hs. by apply (primStep_segmentsKnown E E').
Qed.

(** nextRound returns during a round. *)
Lemma nextRound_returns rnd E :
  roundInProgress E ->
  result (nextRound full hudPP trainSlider rnd) E = Some tt.
Proof.
  intros Hr. destruct (roundInProgress_ensure E Hr) as (l & LS & Hl & Hens).
  destruct (computeCurrentRoundScore_ensured full E l LS _ Hens)
    as (r & _ & Hc & _).
  unfold nextRound, result. munfold. rewrite Hc. cbv beta iota. simpl.
  case_bool_decide; [|done].
  match goal with
  | |- context [finishGame _ _ _ ?E0] =>
      destruct (finishGame_run full hudPP trainSlider E0) as [g ->]
  end. done.
Qed.

Lemma attemptConnection_returns fromId toId rnd E :
  roundInProgress E -> segmentsKnown full E ->
  result (attemptConnection full hudPP trainSlider fromId toId rnd) E = Some tt.
Proof.
  intros Hr Hk. unfold attemptConnection, result. munfold. simpl.
  destruct (bool_decide (currentCard (state E) = None)); [done|].
  destruct (buildUsedForThisCard (state E)); [done|].
  destruct (canConnect_returns full fromId toId E Hr Hk) as [ok Hok].
  pose proof (canConnect_exec full fromId toId E) as Hex.
  pose proof (ensureLineState_currentLine (currentLineId E) E) as Hcl.
  unfold result, exec in *.
  destruct (canConnect full fromId toId E) as [r E1]. simpl in *. subst r E1.
  set (E1 := (ensureLineState (currentLineId E) E).2) in *.
  destruct ok; [|done].
  assert (roundInProgress E1) as Hr1 by (unfold roundInProgress; by rewrite Hcl).
  destruct (addSegment_cases fromId toId E1)
    as [[He _]|[(l' & LS' & ln' & Hl' & Hf' & Hens' & Hadd)|
                (l' & LS' & Hl' & Hf' & _)]].
  - destruct (roundInProgress_ensure E1 Hr1) as (? & ? & _ & He'). congruence.
  - rewrite Hadd. simpl.
    destruct (roundComplete _) eqn:Hrc; simpl; [|done].
    match goal with
    | |- context [nextRound _ _ _ _ ?E0] =>
        pose proof (nextRound_returns rnd E0) as Hn
    end.
    unfold result in Hn. rewrite Hn; [done|].
    pose proof (ensureLineState_frame (currentLineId E1) E1) as (Hst & _).
    cbv zeta in Hst.
    apply (roundInProgress_state E1); [simpl; by rewrite Hst..|exact Hr1].
  - destruct Hr1 as [ln Hln]. unfold currentLine in Hln. rewrite Hl' in Hln.
    congruence.
Qed.

Lemma clickStation_returns id rnd E :
  roundInProgress E -> segmentsKnown full E ->
  result (clickStation full hudPP trainSlider id rnd) E = Some tt.
Proof.
  intros Hr Hk.
  destruct (roundInProgress_ensure E Hr) as (l & LS & Hl & Hens).
  pose proof (ensureLineState_currentLine (currentLineId E) E) as Hcl.
  pose proof (ensureLineState_allSegments (currentLineId E) E) as Hall.
  unfold clickStation, result. munfold. simpl. rewrite Hens. simpl.
  set (E1 := (ensureLineState (currentLineId E) E).2) in *.
  destruct Hr as [ln Hln]. rewrite <- Hcl in Hln.
  destruct (selectedStationId E1) as [fromId|]; simpl.
  - destruct (pencilMode (state E1)); simpl; [done|].
    apply attemptConnection_returns.
    + apply (roundInProgress_state E1); [done..|].
      unfold roundInProgress. rewrite Hln. eauto.
    + unfold segmentsKnown. simpl. by rewrite Hall.
  - rewrite Hln. simpl.
    destruct (bool_decide (length (segments LS) = 0%nat)); simpl;
      repeat (case_match; simpl; try done).
Qed.

End Progress.

(** X12.  The rounds of a session: the results recorded so far are those of the
    first lines of the order, one per round played and no line twice; the
    order is a permutation of the four lines once a game is started; and
    when no line is left, each of the four lines has exactly one result. *)
Theorem round_results_follow_order (full : list StationData)
    (hudPP trainSlider : bool) (E : Engine) :
  reachable full hudPP trainSlider E ->
  rr_lineId <$> roundResults E
    = take (roundIndex (state E)) (order (state E)) /\
  length (roundResults E) = roundIndex (state E) /\
  (roundIndex (state E) ≤ length (order (state E)))%nat /\
  (order (state E) = [] \/ order (state E) ≡ₚ map line_id LINES) /\
  NoDup (rr_lineId <$> roundResults E) /\
  (order (state E) ≠ [] -> currentLineId E = None ->
   rr_lineId <$> roundResults E ≡ₚ map line_id LINES) /\
  (is_Some (currentLineId E) <-> roundInProgress E).
Proof.
  intros HE. apply reachable_played in HE.
  destruct (played_progressInv full E HE) as (H1 & H2 & H3).
  assert (NoDup (order (state E))) as Hnd.
  { destruct H3 as [->|Hp]; [constructor|]. rewrite Hp.
    apply (bool_decide_unpack (NoDup (map line_id LINES))). vm_compute. exact I. }
  split; [done|]. split.
  { rewrite <- (length_fmap rr_lineId), H1, length_take. lia. }
  split; [done|]. split; [done|]. split.
  { rewrite H1. eapply sublist_NoDup; [exact Hnd|apply sublist_take]. }
  split.
  { intros Hne Hnone. rewrite H1.
    unfold currentLineId in Hnone. apply lookup_ge_None in Hnone.
    rewrite take_ge by lia. by destruct H3. }
  split; [by apply (played_roundInProgress full)|].
  unfold roundInProgress, currentLine. intros [ln Hln].
  destruct (currentLineId E); [eauto|done].
Qed.

(** X13.  During a round no handler throws: in a state of a session with a current
    line, every event is handled to its end.  Once a game has been started
    and no line is left, a click on a station and the end-of-round handler
    throw, reading the start of a line that is not there, and change
    nothing. *)
Theorem handlers_complete_during_round (full : list StationData)
    (hudPP trainSlider : bool) (E : Engine) :
  reachable full hudPP trainSlider E ->
  (roundInProgress E ->
   forall ev, result (handle full hudPP trainSlider ev) E = Some tt) /\
  (order (state E) ≠ [] -> currentLineId E = None ->
   forall id rnd,
     clickStation full hudPP trainSlider id rnd E = (None, E) /\
     nextRound full hudPP trainSlider rnd E = (None, E)).
Proof.
  intros HE. apply reachable_played in HE.
  pose proof (played_segmentsKnown full E HE) as Hk. split.
  - intros Hr [ord rnd|id rnd|rnd|rnd|rnd|rnd| |]; simpl.
    + done.
    + by apply clickStation_returns.
    + by destruct (drawCard_effect rnd E) as (-> & _).
    + by destruct (drawCard_effect rnd E) as (-> & _).
    + by apply nextRound_returns.
    + by destruct (switchCard_effect rnd E) as (-> & _).
    + done.
    + done.
  - intros _ Hnone id rnd.
    unfold clickStation, nextRound, computeCurrentRoundScore. munfold.
    cbv beta. rewrite Hnone. done.
Qed.

(* ========================================================================= *)
(*  Ownership of stations and the shape of the lines                         *)
(* ========================================================================= *)

Lemma lsGet_snoc l l' v ls :
  lsGet l ls = None ->
  lsGet l' (ls ++ [(l, v)]) =
  if bool_decide (l = l') then Some v else lsGet l' ls.
Proof.
  intros Hn. rewrite <- (lsSet_absent _ _ _ Hn).
  case_bool_decide as Hl.
  - subst. apply lsGet_lsSet_eq.
  - by apply lsGet_lsSet_ne.
Qed.

Lemma lsGet_lsSet l l' v ls :
  lsGet l' (lsSet l v ls) = if bool_decide (l = l') then Some v else lsGet l' ls.
Proof.
  case_bool_decide as Hl.
  - subst. apply lsGet_lsSet_eq.
  - by apply lsGet_lsSet_ne.
Qed.

Lemma findLine_start l ln : findLine l = Some ln -> line_start ln ∈ startStations.
Proof.
  unfold findLine, startStations. intros H.
  apply find_some in H as [Hin _]. apply list_elem_of_In in Hin.
  by apply list_elem_of_fmap_2.
Qed.

(** One ownership block changes at most the entry of its station, to the
    current line, and only if the station is the start or had no owner. *)
Lemma ownerAfter_lookup id s l (o : gmap Z Z) sid :
  ownerAfter id s l o !! sid = o !! sid \/
  (sid = id /\ id ≠ STATION_TRANSFER_EXCEPTION /\ (id = s \/ o !! id = None) /\
   ownerAfter id s l o !! sid = Some l).
Proof.
  unfold ownerAfter.
  destruct (bool_decide (id ≠ STATION_TRANSFER_EXCEPTION)
            && (bool_decide (id = s) || negb (bool_decide (is_Some (o !! id)))))
    eqn:Hc; [|by left].
  apply andb_true_iff in Hc as [H1 H2]. apply bool_decide_eq_true in H1.
  apply orb_true_iff in H2.
  destruct (decide (sid = id)) as [->|Hne].
  - right. split; [done|]. split; [done|]. split.
    + destruct H2 as [H2|H2]; [left; by apply bool_decide_eq_true in H2|].
      right. apply negb_true_iff, bool_decide_eq_false in H2.
      by apply eq_None_not_Some.
    + by rewrite lookup_insert_eq.
  - left. by rewrite lookup_insert_ne.
Qed.

(** After its ownership block a station free for the line is the exception
    or owned by the line. *)
Lemma ownerAfter_owned id s l (o : gmap Z Z) :
  id = STATION_TRANSFER_EXCEPTION \/ id = s \/ o !! id = None \/ o !! id = Some l ->
  id = STATION_TRANSFER_EXCEPTION \/ ownerAfter id s l o !! id = Some l.
Proof.
  intros Hfree.
  destruct (decide (id = STATION_TRANSFER_EXCEPTION)) as [|Hne]; [by left|].
  right. unfold ownerAfter.
  rewrite (bool_decide_eq_true_2 _ Hne). cbn [andb].
  destruct (bool_decide (id = s)) eqn:Hs; cbn [orb];
    [by rewrite lookup_insert_eq|].
  apply bool_decide_eq_false in Hs.
  destruct (bool_decide (is_Some (o !! id))) eqn:Hsome; cbn [negb].
  - apply bool_decide_eq_true in Hsome as [k Hk].
    destruct Hfree as [?|[?|[?|?]]]; congruence.
  - by rewrite lookup_insert_eq.
Qed.

Lemma ownerAfter_keeps id s l (o : gmap Z Z) sid :
  o !! sid = Some l -> ownerAfter id s l o !! sid = Some l.
Proof.
  intros Ho. destruct (ownerAfter_lookup id s l o sid) as [->|(_ & _ & _ & ->)];
    done.
Qed.

Section Ownership.

Variable full : list StationData.

Lemma primStep_ownershipInv E E' :
  ownershipInv E -> primStep full E E' -> ownershipInv E'.
Proof.
  intros [HI1 HI2] Hs.
  destruct Hs as [E|E ord rnd Hord|E l ln Hl Hg Hf|E sel|E|E rnd Hrc
                  |E rnd Hc Hb Hsw|E fromId toId l LS ln Hl Hg Hf Hc Hb Hcc
                  |E rnd l LS r Hl Hg Hsc].
  - split; simpl; [done|]. intros sid l H. by rewrite lookup_empty in H.
  - split; simpl; [done|]. intros sid l H. by rewrite lookup_empty in H.
  - split; simpl.
    + intros l' LS' sid. rewrite (lsGet_snoc _ _ _ _ Hg).
      case_bool_decide as Hll; [|apply HI1].
      intros [= <-]. simpl. rewrite elem_of_singleton. intros ->.
      right; left. by apply (findLine_start l).
    + intros sid l' Ho. destruct (HI2 sid l' Ho) as (LS' & Hg' & Hin).
      exists LS'. split; [|done]. rewrite (lsGet_snoc _ _ _ _ Hg).
      case_bool_decide; [congruence|done].
  - exact (conj HI1 HI2).
  - exact (conj HI1 HI2).
  - destruct (drawCard_effect rnd E) as (_ & _ & Hls & Ho & _).
    unfold ownershipInv. rewrite Hls, Ho. exact (conj HI1 HI2).
  - destruct (switchCard_effect rnd E) as (_ & _ & Hls & Ho & _).
    unfold ownershipInv. rewrite Hls, Ho. exact (conj HI1 HI2).
  - apply (canConnect_accept full fromId toId E l LS ln Hl Hg Hf) in Hcc
      as (A & B & HA & HB & Hne & Hof & Hot & _).
    apply ownedByOther_false in Hof, Hot. unfold stationFree in Hof, Hot.
    unfold ownershipInv, afterAddSegment. simpl.
    set (s := line_start ln) in *.
    set (o1 := ownerAfter fromId s l (stationOwner E)) in *.
    assert (fromId = STATION_TRANSFER_EXCEPTION \/
            ownerAfter toId s l o1 !! fromId = Some l) as Hfrom.
    { destruct (ownerAfter_owned fromId s l (stationOwner E) Hof) as [?|H];
        [by left|right]. by apply ownerAfter_keeps. }
    assert (toId = STATION_TRANSFER_EXCEPTION \/
            ownerAfter toId s l o1 !! toId = Some l) as Hto.
    { apply ownerAfter_owned.
      destruct (ownerAfter_lookup fromId s l (stationOwner E) toId)
        as [Heq|(? & _)]; [|congruence].
      fold o1 in Heq. rewrite Heq. exact Hot. }
    split.
    + intros l' LS' sid. rewrite lsGet_lsSet.
      case_bool_decide as Hll.
      * subst l'. intros [= <-]. simpl. rewrite !elem_of_union, !elem_of_singleton.
        intros [[Hin| ->]| ->]; [|tauto..].
        destruct (HI1 l LS sid Hg Hin) as [?|[?|Ho]]; [tauto..|].
        right; right. by apply ownerAfter_keeps, ownerAfter_keeps.
      * intros Hg' Hin.
        destruct (HI1 l' LS' sid Hg' Hin) as [?|[?|Ho]]; [tauto..|].
        destruct (ownerAfter_lookup toId s l o1 sid)
          as [Heq|(-> & _ & [->|Hnone] & _)].
        { rewrite Heq.
          destruct (ownerAfter_lookup fromId s l (stationOwner E) sid)
            as [Heq'|(-> & _ & [->|Hnone] & _)].
          - fold o1 in Heq'. rewrite Heq'. tauto.
          - right; left. by apply (findLine_start l).
          - congruence. }
        { right; left. by apply (findLine_start l). }
        { exfalso.
          destruct (ownerAfter_lookup fromId s l (stationOwner E) toId)
            as [Heq'|(? & _)]; [|congruence].
          fold o1 in Heq'. congruence. }
    + intros sid l' Ho.
      assert (stationOwner E !! sid = Some l' \/
              (l' = l /\ (sid = fromId \/ sid = toId))) as [Hold|[-> Hnew]].
      { destruct (ownerAfter_lookup toId s l o1 sid)
          as [Heq|(-> & _ & _ & Hl')].
        - rewrite Heq in Ho.
          destruct (ownerAfter_lookup fromId s l (stationOwner E) sid)
            as [Heq'|(-> & _ & _ & Hl')].
          + fold o1 in Heq'. rewrite Heq' in Ho. by left.
          + fold o1 in Hl'. right. split; [congruence|by left].
        - right. split; [congruence|by right]. }
      * destruct (HI2 sid l' Hold) as (LS' & Hg' & Hin).
        rewrite lsGet_lsSet. case_bool_decide as Hll.
        { subst l'. exists (extendLine fromId toId LS). split; [done|].
          simpl. rewrite Hg in Hg'. injection Hg' as <-. set_solver. }
        { by exists LS'. }
      * exists (extendLine fromId toId LS). rewrite lsGet_lsSet_eq.
        split; [done|]. simpl. set_solver.
  - exact (conj HI1 HI2).
Qed.

Lemma played_ownershipInv E : played full E -> ownershipInv E.
Proof.
  revert E. apply played_ind.
  - split; simpl; [done|]. intros sid l H. by rewrite lookup_empty in H.
  - intros E E' _ HI Hs. by apply (primStep_ownershipInv E E').
Qed.

End Ownership.

(** X14.  Lines meet only at transfer stations: in a state of a session a station
    on two different lines is the transfer exception (30) or one of the four
    start stations.  Every other station of a line is owned by that line,
    and an owned station is on the line that owns it. *)
Theorem lines_share_only_transfer_stations (full : list StationData)
    (hudPP trainSlider : bool) (E : Engine) :
  reachable full hudPP trainSlider E ->
  (forall l1 l2 LS1 LS2 sid,
     l1 ≠ l2 ->
     lsGet l1 (lineStates E) = Some LS1 -> lsGet l2 (lineStates E) = Some LS2 ->
     sid ∈ visited LS1 -> sid ∈ visited LS2 ->
     sid = 30 \/ sid ∈ [19; 28; 3; 39]) /\
  (forall l LS sid,
     lsGet l (lineStates E) = Some LS -> sid ∈ visited LS ->
     sid ≠ 30 -> sid ∉ [19; 28; 3; 39] -> stationOwner E !! sid = Some l) /\
  (forall sid l,
     stationOwner E !! sid = Some l ->
     exists LS, lsGet l (lineStates E) = Some LS /\ sid ∈ visited LS).
Proof.
  intros HE. apply reachable_played in HE.
  destruct (played_ownershipInv full E HE) as [H1 H2].
  split; [|split; [|exact H2]].
  - intros l1 l2 LS1 LS2 sid Hne Hg1 Hg2 Hin1 Hin2.
    destruct (H1 l1 LS1 sid Hg1 Hin1) as [?|[?|Ho1]]; [by left|by right|].
    destruct (H1 l2 LS2 sid Hg2 Hin2) as [?|[?|Ho2]]; [by left|by right|].
    congruence.
  - intros l LS sid Hg Hin Hn30 Hns.
    by destruct (H1 l LS sid Hg Hin) as [?|[?|?]].
Qed.

(* ------------------------------------------------------------------------- *)
(* Every line is a route                                                     *)
(* ------------------------------------------------------------------------- *)

Lemma hops_snoc a q t :
  hops ((a :: q) ++ [t]) = hops (a :: q) ++ [mkSegment (default a (last q)) t].
Proof.
  revert a. induction q as [|b q IH]; intros a; [done|].
  change (hops ((a :: b :: q) ++ [t]))
    with (mkSegment a b :: hops ((b :: q) ++ [t])).
  rewrite IH.
  change (hops (a :: b :: q)) with (mkSegment a b :: hops (b :: q)).
  rewrite <- app_comm_cons. do 3 f_equal.
  rewrite (last_cons b q). by destruct (last q).
Qed.

Lemma hops_length a q : length (hops (a :: q)) = length q.
Proof.
  revert a. induction q as [|b q IH]; intros a; [done|].
  simpl. f_equal. apply IH.
Qed.

Lemma pairKey_swap a b : pairKey (mkSegment a b) = pairKey (mkSegment b a).
Proof. unfold pairKey. simpl. f_equal; lia. Qed.

Lemma toggle_in (S : gset Z) v : v ∈ S -> toggle S v = S ∖ {[ v ]}.
Proof. intros H. unfold toggle. by rewrite bool_decide_eq_true_2. Qed.

Lemma toggle_notin (S : gset Z) v : v ∉ S -> toggle S v = S ∪ {[ v ]}.
Proof. intros H. unfold toggle. by rewrite bool_decide_eq_false_2. Qed.

Lemma toggle_pair_head (a z t : Z) :
  a ≠ z -> t ≠ a -> t ≠ z -> toggle (toggle {[ a; z ]} a) t = {[ t; z ]}.
Proof.
  intros. apply set_eq. intros v. rewrite !elem_of_toggle_iff. set_solver.
Qed.

Lemma toggle_pair_last (a z t : Z) :
  a ≠ z -> t ≠ a -> t ≠ z -> toggle (toggle {[ a; z ]} z) t = {[ a; t ]}.
Proof.
  intros. apply set_eq. intros v. rewrite !elem_of_toggle_iff. set_solver.
Qed.

Lemma toggle_first (a t : Z) : a ≠ t -> toggle (toggle ∅ a) t = {[ a; t ]}.
Proof.
  intros. apply set_eq. intros v. rewrite !elem_of_toggle_iff. set_solver.
Qed.

Lemma routeOf_fresh s : routeOf (freshLineState s) s [].
Proof.
  unfold routeOf. simpl. split; [apply NoDup_singleton|].
  split; [set_solver|]. done.
Qed.

(** An accepted section extends the route at one of its ends. *)
Lemma routeOf_extend LS a q s fromId toId :
  routeOf LS a q -> s ∈ a :: q ->
  fromId ≠ toId ->
  (if bool_decide (length (segments LS) = 0%nat)
   then fromId = s else fromId ∈ endpoints LS) ->
  toId ∉ visited LS ->
  exists a' q',
    routeOf (extendLine fromId toId LS) a' q' /\ s ∈ a' :: q'.
Proof.
  intros (Hnd & Hv & Hseg & Hend) Hs Hne Horigin Hto.
  assert (toId ∉ a :: q) as Hto' by (rewrite Hv in Hto; set_solver).
  assert (length (segments LS) = length q) as Hlen.
  { rewrite <- (length_fmap pairKey), Hseg, length_fmap. apply hops_length. }
  destruct (last q) as [z|] eqn:Hlast.
  - (* the route has two ends *)
    assert (q ≠ []) as Hq by (intros ->; done).
    assert (length (segments LS) ≠ 0%nat) as Hn0.
    { rewrite Hlen. destruct q; [done|]. simpl. lia. }
    rewrite (bool_decide_eq_false_2 _ Hn0) in Horigin.
    assert (z ∈ q) as Hz by (by apply last_Some_elem_of).
    assert (a ≠ z) as Haz.
    { intros ->. by apply NoDup_cons in Hnd as [? _]. }
    rewrite Hend in Horigin.
    apply elem_of_union in Horigin as [Hf|Hf]; apply elem_of_singleton in Hf;
      subst fromId.
    + (* from the head: the target comes first *)
      exists toId, (a :: q). split; [|set_solver].
      unfold routeOf, extendLine. cbn [segments endpoints visited].
      split; [by apply NoDup_cons|].
      split; [rewrite Hv; clear; set_solver|]. split.
      * rewrite fmap_app, Hseg.
        change (hops (toId :: a :: q)) with (mkSegment toId a :: hops (a :: q)).
        rewrite fmap_cons. cbn [fmap list_fmap].
        rewrite <- Permutation_cons_append. by rewrite pairKey_swap.
      * rewrite Hend.
        assert (last (a :: q) = Some z) as ->.
        { destruct q; [done|]. exact Hlast. }
        apply toggle_pair_head; [done|..]; intros ->; apply Hto'; set_solver.
    + (* from the last station: the target comes last *)
      exists a, (q ++ [toId]). split; [|set_solver].
      unfold routeOf, extendLine. cbn [segments endpoints visited].
      split.
      { change (NoDup ((a :: q) ++ [toId])). apply NoDup_app.
        split; [done|]. split; [|apply NoDup_singleton].
        intros x Hx Hx'. assert (x = toId) as -> by (clear -Hx'; set_solver).
        done. }
      split; [rewrite Hv; clear -Hz; set_solver|]. split.
      * rewrite fmap_app, Hseg.
        change (a :: q ++ [toId]) with ((a :: q) ++ [toId]).
        rewrite hops_snoc, Hlast, fmap_app. done.
      * rewrite Hend, last_snoc.
        apply toggle_pair_last; [done|..]; intros ->; apply Hto'; set_solver.
  - (* the route is the start station alone *)
    assert (q = []) as -> by (by apply last_None).
    assert (s = a) as -> by set_solver.
    assert (length (segments LS) = 0%nat) as Hn0 by (by rewrite Hlen).
    rewrite (bool_decide_eq_true_2 _ Hn0) in Horigin. subst fromId.
    apply length_zero_iff_nil in Hn0.
    exists a, [toId]. split; [|set_solver].
    unfold routeOf, extendLine. simpl. rewrite Hn0. simpl.
    split; [apply NoDup_cons; split; [set_solver|apply NoDup_singleton]|].
    split; [rewrite Hv; clear; set_solver|]. split; [done|].
    rewrite Hend. by apply toggle_first.
Qed.

Section Routes.

Variable full : list StationData.

Lemma primStep_routesInv E E' :
  routesInv E -> primStep full E E' -> routesInv E'.
Proof.
  unfold routesInv. intros HI Hs.
  destruct Hs as [E|E ord rnd Hord|E l ln Hl Hg Hf|E sel|E|E rnd Hrc
                  |E rnd Hc Hb Hsw|E fromId toId l LS ln Hl Hg Hf Hc Hb Hcc
                  |E rnd l LS r Hl Hg Hsc].
  - intros l LS H. done.
  - intros l LS H. done.
  - intros l' LS'. simpl. rewrite (lsGet_snoc _ _ _ _ Hg).
    case_bool_decide as Hll; [|apply HI].
    intros [= <-]. subst l'. exists ln, (line_start ln), [].
    split; [done|]. split; [apply routeOf_fresh|set_solver].
  - exact HI.
  - exact HI.
  - destruct (drawCard_effect rnd E) as (_ & _ & Hls & _).
    rewrite Hls. exact HI.
  - destruct (switchCard_effect rnd E) as (_ & _ & Hls & _).
    rewrite Hls. exact HI.
  - apply (canConnect_accept full fromId toId E l LS ln Hl Hg Hf) in Hcc
      as (A & B & HA & HB & Hne & _ & _ & _ & Horigin & _ & _ & _ & _ & Hto).
    intros l' LS'. simpl. rewrite lsGet_lsSet.
    destruct (decide (l = l')) as [<-|Hll];
      [rewrite bool_decide_eq_true_2 by done
      |rewrite bool_decide_eq_false_2 by done; apply HI].
    intros [= <-].
    destruct (HI l LS Hg) as (ln' & a & q & Hf' & Hroute & Hstart).
    rewrite Hf in Hf'. injection Hf' as <-.
    destruct (routeOf_extend LS a q (line_start ln) fromId toId
                Hroute Hstart Hne Horigin Hto) as (a' & q' & Hr' & Hs').
    by exists ln, a', q'.
  - exact HI.
Qed.

Lemma played_routesInv E : played full E -> routesInv E.
Proof.
  revert E. apply played_ind.
  - intros l LS H. done.
  - intros E E' _ HI Hs. by apply (primStep_routesInv E E').
Qed.

End Routes.

(** X15.  Every line is a simple route: in a state of a session the build state of
    a line lists, in some order and direction, exactly the sections between
    consecutive stations of a route that passes through the start station of
    the line and through no station twice; the visited stations are the
    stations of the route, the endpoints are its two ends (none before the
    first section), and there is one station more than there are sections:
    no branch and no loop. *)
Theorem lines_are_simple_routes (full : list StationData)
    (hudPP trainSlider : bool) (E : Engine) (l : Z) (LS : LineState) :
  reachable full hudPP trainSlider E ->
  lsGet l (lineStates E) = Some LS ->
  exists ln a q,
    findLine l = Some ln /\ line_start ln ∈ a :: q /\
    NoDup (a :: q) /\
    visited LS = list_to_set (a :: q) /\
    pairKey <$> segments LS ≡ₚ pairKey <$> hops (a :: q) /\
    endpoints LS = match last q with
                   | None => ∅
                   | Some z => {[ a; z ]}
                   end /\
    length (segments LS) = length q /\
    size (visited LS) = S (length (segments LS)).
Proof.
  intros HE Hg. apply reachable_played in HE.
  destruct (played_routesInv full E HE l LS Hg)
    as (ln & a & q & Hf & (Hnd & Hv & Hseg & Hend) & Hs).
  exists ln, a, q. repeat (split; [done|]).
  assert (length (segments LS) = length q) as Hlen.
  { rewrite <- (length_fmap pairKey), Hseg, length_fmap. apply hops_length. }
  split; [done|].
  rewrite Hv, Hlen, size_list_to_set by done. done.
Qed.

(* ------------------------------------------------------------------------- *)
(* The network of sections                                                   *)
(* ------------------------------------------------------------------------- *)

Section Network.

Variable full : list StationData.

Lemma primStep_networkInv E E' :
  segmentsKnown full E -> networkInv full E -> primStep full E E' ->
  networkInv full E'.
Proof.
  intros Hk HI Hs.
  destruct Hs as [E|E ord rnd Hord|E l ln Hl Hg Hf|E sel|E|E rnd Hrc
                  |E rnd Hc Hb Hsw|E fromId toId l LS ln Hl Hg Hf Hc Hb Hcc
                  |E rnd l LS r Hl Hg Hsc].
  - split; simpl; [intros s Hs|intros s t A B C D Hs]; by apply elem_of_nil in Hs.
  - split; simpl; [intros s Hs|intros s t A B C D Hs]; by apply elem_of_nil in Hs.
  - unfold networkInv. simpl.
    rewrite allSegments_app. unfold allSegments at 2 4 6. simpl.
    rewrite !app_nil_r. exact HI.
  - exact HI.
  - exact HI.
  - destruct (drawCard_effect rnd E) as (_ & _ & Hls & _).
    unfold networkInv. rewrite Hls. exact HI.
  - destruct (switchCard_effect rnd E) as (_ & _ & Hls & _).
    unfold networkInv. rewrite Hls. exact HI.
  - apply (canConnect_accept full fromId toId E l LS ln Hl Hg Hf) in Hcc
      as (A & B & HA & HB & Ht).
    apply (acceptTests_rules full E l LS ln fromId toId A B Hk) in Ht
      as (Hne & _ & _ & Hal & _ & _ & _ & Hbt & _ & Hcross & _).
    destruct HI as [HI1 HI2].
    assert (forall s,
              s ∈ allSegments
                    (lineStates (withState (setBuildUsed true)
                       (afterAddSegment fromId toId l LS ln E))) <->
              s = mkSegment fromId toId \/ s ∈ allSegments (lineStates E))
      as Hin.
    { intros s. simpl. rewrite (allSegments_extend _ _ _ _ _ Hg).
      apply elem_of_cons. }
    split.
    + intros s Hs. apply Hin in Hs as [->|Hs]; [|by apply HI1].
      simpl. split; [done|]. by exists A, B.
    + intros s t A' B' C D Hs Ht. apply Hin in Hs, Ht.
      destruct Hs as [->|Hs], Ht as [->|Ht]; simpl.
      * intros _ _ _ _ _. unfold sharesStation. simpl. by left.
      * rewrite HA, HB. intros [= <-] [= <-] HC HD Hm.
        by apply (Hcross t C D).
      * rewrite HA, HB. intros HA' HB' [= <-] [= <-] Hm.
        apply segmentsMeet_swap in Hm.
        pose proof (Hcross s A' B' Hs HA' HB' Hm) as Hsh.
        unfold sharesStation in *. simpl. clear -Hsh. intuition congruence.
      * by apply HI2.
  - exact HI.
Qed.

Lemma played_networkInv E : played full E -> networkInv full E.
Proof.
  revert E. apply played_ind.
  - split; simpl; [intros s Hs|intros s t A B C D Hs]; by apply elem_of_nil in Hs.
  - intros E E' HE HI Hs.
    apply (primStep_networkInv E E'); [by apply played_segmentsKnown|done..].
Qed.

End Network.

(** X18.  The sections of all lines form a network without crossings: in every
    state of a session each section joins two different known stations that
    are aligned, with no station strictly between them, and two sections
    (of one line or of two) that have a point in common have an end station
    in common. *)
Theorem sections_meet_only_at_stations (full : list StationData)
    (hudPP trainSlider : bool) (E : Engine) :
  reachable full hudPP trainSlider E ->
  (forall s, s ∈ allSegments (lineStates E) ->
     seg_a s ≠ seg_b s /\
     exists A B,
       stationById full !! seg_a s = Some A /\
       stationById full !! seg_b s = Some B /\
       isStraightOrDiag A B = true /\ ~ stationBetween full A B) /\
  (forall s t A B C D,
     s ∈ allSegments (lineStates E) -> t ∈ allSegments (lineStates E) ->
     stationById full !! seg_a s = Some A ->
     stationById full !! seg_b s = Some B ->
     stationById full !! seg_a t = Some C ->
     stationById full !! seg_b t = Some D ->
     segmentsMeet (pointOf A) (pointOf B) (pointOf C) (pointOf D) ->
     sharesStation (seg_a s) (seg_b s) t).
Proof.
  intros HE. apply reachable_played in HE.
  exact (played_networkInv full E HE).
Qed.

(* ------------------------------------------------------------------------- *)
(* The lines with a build state and the junctions                            *)
(* ------------------------------------------------------------------------- *)

Lemma lsGet_None_keys l ls : lsGet l ls = None <-> l ∉ ls.*1.
Proof.
  induction ls as [|[k v] ls IH]; simpl.
  - split; [intros _ H; by apply elem_of_nil in H|done].
  - rewrite not_elem_of_cons. case_bool_decide as Hk.
    + split; [done|]. intros [Hne _]. by subst.
    + rewrite IH. split; [by intros ?; split; [congruence|]|by intros [_ ?]].
Qed.

Lemma lsSet_keys l v ls : is_Some (lsGet l ls) -> (lsSet l v ls).*1 = ls.*1.
Proof.
  induction ls as [|[k w] ls IH]; simpl; [by intros [? ?]|].
  case_bool_decide as Hk; [done|]. intros H. simpl. f_equal. by apply IH.
Qed.

Lemma lsGet_elem l LS ls : NoDup ls.*1 -> (l, LS) ∈ ls -> lsGet l ls = Some LS.
Proof.
  induction ls as [|[k v] ls IH]; simpl; intros Hnd Hin.
  - by apply elem_of_nil in Hin.
  - apply NoDup_cons in Hnd as [Hk Hnd].
    apply elem_of_cons in Hin as [[= -> ->]|Hin].
    + by rewrite bool_decide_eq_true_2.
    + case_bool_decide as Hkl; [|by apply IH].
      subst. exfalso. apply Hk. apply list_elem_of_fmap. by exists (l, LS).
Qed.

Lemma elem_of_linesVisiting ls sid l :
  l ∈ linesVisiting ls sid <-> exists LS, (l, LS) ∈ ls /\ sid ∈ visited LS.
Proof.
  unfold linesVisiting. rewrite elem_of_list_to_set, list_elem_of_fmap. split.
  - intros ([l' LS] & -> & Hin). apply list_elem_of_filter in Hin as [Hv Hin].
    by exists LS.
  - intros (LS & Hin & Hv). exists (l, LS). split; [done|].
    by apply list_elem_of_filter.
Qed.

(** A set of at least two elements has two different elements. *)
Lemma size_two_elems (X : gset Z) :
  (2 ≤ size X)%nat -> exists x y, x ∈ X /\ y ∈ X /\ x ≠ y.
Proof.
  intros Hs.
  destruct (size_pos_elem_of X ltac:(lia)) as [x Hx].
  assert (0 < size (X ∖ {[ x ]}))%nat as Hpos.
  { rewrite size_difference by set_solver. rewrite size_singleton. lia. }
  destruct (size_pos_elem_of _ Hpos) as [y Hy].
  exists x, y. set_solver.
Qed.

Section Junctions.

Variable full : list StationData.
Variables hudPP trainSlider : bool.

Lemma primStep_keysInv E E' :
  keysInv E -> primStep full E E' -> keysInv E'.
Proof.
  intros [HI1 HI2] Hs.
  destruct Hs as [E|E ord rnd Hord|E l ln Hl Hg Hf|E sel|E|E rnd Hrc
                  |E rnd Hc Hb Hsw|E fromId toId l LS ln Hl Hg Hf Hc Hb Hcc
                  |E rnd l LS r Hl Hg Hsc].
  - split; simpl; [constructor|]. intros l H. by apply elem_of_nil in H.
  - split; simpl; [constructor|]. intros l H. by apply elem_of_nil in H.
  - split; simpl.
    + rewrite fmap_app. simpl. apply NoDup_app. split; [done|].
      split; [|apply NoDup_singleton].
      intros x Hx Hx'. apply lsGet_None_keys in Hg.
      assert (x = l) as -> by (clear -Hx'; set_solver). done.
    + intros l'. rewrite fmap_app, elem_of_app. simpl.
      intros [H|H]; [by apply HI2|].
      assert (l' = l) as -> by (clear -H; set_solver).
      exists (roundIndex (state E)). split; [lia|exact Hl].
  - exact (conj HI1 HI2).
  - exact (conj HI1 HI2).
  - destruct (drawCard_effect rnd E) as (_ & _ & Hls & _).
    destruct (drawCard_state rnd E Hrc) as (c & _ & Hex).
    unfold keysInv. rewrite Hls. rewrite Hex. exact (conj HI1 HI2).
  - destruct (switchCard_effect rnd E) as (_ & _ & Hls & _).
    destruct (switchCard_state rnd E Hc Hb Hsw) as (c & _ & Hex).
    unfold keysInv. rewrite Hls. rewrite Hex. exact (conj HI1 HI2).
  - unfold keysInv. simpl. rewrite lsSet_keys by (rewrite Hg; eauto).
    exact (conj HI1 HI2).
  - split; simpl; [done|]. intros l' Hl'.
    destruct (HI2 l' Hl') as (j & Hj & Ho). exists j.
    unfold nextRoundState. case_bool_decide; simpl; (split; [lia|done]).
Qed.

Lemma played_keysInv E : played full E -> keysInv E.
Proof.
  revert E. apply played_ind.
  - split; simpl; [constructor|]. intros l H. by apply elem_of_nil in H.
  - intros E E' _ HI Hs. by apply (primStep_keysInv E E').
Qed.

(** finishGame returns the junction counters. *)
Lemma finishGame_junctions E :
  exists g,
    finishGame full hudPP trainSlider E = (Some g, E) /\
    gr_P2 g = P2_spec (lineStates E) /\ gr_P3 g = P3_spec (lineStates E) /\
    gr_P4 g = P4_spec (lineStates E).
Proof.
  unfold finishGame. munfold. cbv beta. rewrite countJunctions_spec.
  destruct (updatePPView_run full hudPP trainSlider E) as [n ->].
  cbv beta iota. eexists. split; [reflexivity|]. done.
Qed.

(** A station on two lines is a transfer station. *)
Lemma played_junction_transfer E sid :
  played full E -> (2 ≤ size (linesVisiting (lineStates E) sid))%nat ->
  sid ∈ transferStations.
Proof.
  intros HE Hs.
  destruct (played_keysInv E HE) as [Hnd _].
  destruct (played_ownershipInv full E HE) as [Hown _].
  destruct (size_two_elems _ Hs) as (l1 & l2 & H1 & H2 & Hne).
  apply elem_of_linesVisiting in H1 as (LS1 & Hin1 & Hv1).
  apply elem_of_linesVisiting in H2 as (LS2 & Hin2 & Hv2).
  apply (lsGet_elem _ _ _ Hnd) in Hin1, Hin2.
  unfold transferStations. rewrite elem_of_list_to_set, elem_of_cons.
  destruct (Hown l1 LS1 sid Hin1 Hv1) as [?|[?|Ho1]]; [by left|by right|].
  destruct (Hown l2 LS2 sid Hin2 Hv2) as [?|[?|Ho2]]; [by left|by right|].
  congruence.
Qed.

Lemma junctions_transfer (P : nat -> Prop) `{!forall n, Decision (P n)} E :
  played full E -> (forall n, P n -> (2 ≤ n)%nat) ->
  filter (fun sid => P (size (linesVisiting (lineStates E) sid)))
         (visitedByAny (lineStates E)) ⊆ transferStations.
Proof.
  intros HE HP sid Hin. apply elem_of_filter in Hin as [Hp _].
  apply (played_junction_transfer E sid HE). by apply HP.
Qed.

End Junctions.

(** X19.  Junctions can only be transfer stations: in every state of a session no
    line has two build states and at most four lines have one; a station
    visited by two or more lines is station 30 or one of the four start
    stations; so finishGame counts at most five junction stations in all
    (P2 + P3 + P4 <= 5). *)
Theorem junctions_only_at_transfers (full : list StationData)
    (hudPP trainSlider : bool) (E : Engine) :
  reachable full hudPP trainSlider E ->
  NoDup (lineStates E).*1 /\ (length (lineStates E) ≤ 4)%nat /\
  (forall sid, (2 ≤ size (linesVisiting (lineStates E) sid))%nat ->
     sid = 30 \/ sid ∈ [19; 28; 3; 39]) /\
  (P2_spec (lineStates E) + P3_spec (lineStates E) + P4_spec (lineStates E)
   ≤ 5)%nat /\
  exists g,
    finishGame full hudPP trainSlider E = (Some g, E) /\
    (gr_P2 g + gr_P3 g + gr_P4 g ≤ 5)%nat.
Proof.
  intros HE. apply reachable_played in HE.
  destruct (played_keysInv full E HE) as [Hnd Hkeys].
  destruct (played_progressInv full E HE) as (_ & _ & Hord).
  assert (P2_spec (lineStates E) + P3_spec (lineStates E)
          + P4_spec (lineStates E) ≤ 5)%nat as Hsum.
  { unfold P2_spec, P3_spec, P4_spec, junctions.
    set (V := visitedByAny (lineStates E)).
    set (lv := fun sid => size (linesVisiting (lineStates E) sid)).
    rewrite <- !size_union.
    - assert (size transferStations = 5%nat) as <- by (vm_compute; reflexivity).
      apply subseteq_size.
      assert (forall n : nat, n = 2%nat -> (2 ≤ n)%nat) as A2 by (intros; lia).
      assert (forall n : nat, n = 3%nat -> (2 ≤ n)%nat) as A3 by (intros; lia).
      assert (forall n : nat, (4 ≤ n)%nat -> (2 ≤ n)%nat) as A4 by (intros; lia).
      pose proof (junctions_transfer full (fun n => n = 2%nat) E HE A2) as H2.
      pose proof (junctions_transfer full (fun n => n = 3%nat) E HE A3) as H3.
      pose proof (junctions_transfer full (fun n => (4 ≤ n)%nat) E HE A4) as H4.
      clear -H2 H3 H4. set_solver.
    - intros sid Hin1 Hin2. apply elem_of_union in Hin1.
      apply elem_of_filter in Hin2 as [Hp2 _].
      destruct Hin1 as [Hin1|Hin1]; apply elem_of_filter in Hin1 as [Hp1 _]; lia.
    - intros sid Hin1 Hin2.
      apply elem_of_filter in Hin1 as [Hp1 _].
      apply elem_of_filter in Hin2 as [Hp2 _]. lia. }
  split; [done|]. split.
  { (* the keys are different lines of the order *)
    rewrite <- (length_fmap fst).
    assert ((lineStates E).*1 ⊆+ order (state E)) as Hsub.
    { apply NoDup_submseteq; [done|]. intros l Hl.
      destruct (Hkeys l Hl) as (j & _ & Ho). by apply list_elem_of_lookup_2 in Ho. }
    apply submseteq_length in Hsub.
    destruct Hord as [Ho|Ho]; rewrite Ho in Hsub; simpl in Hsub; lia. }
  split.
  { intros sid Hs.
    pose proof (played_junction_transfer full E sid HE Hs) as Ht.
    unfold transferStations in Ht.
    rewrite elem_of_list_to_set, elem_of_cons in Ht. exact Ht. }
  split; [exact Hsum|].
  destruct (finishGame_junctions full hudPP trainSlider E)
    as (g & Hg & H2 & H3 & H4).
  exists g. split; [exact Hg|]. by rewrite H2, H3, H4.
Qed.

(* ------------------------------------------------------------------------- *)
(* One build per card                                                        *)
(* ------------------------------------------------------------------------- *)

Section Builds.

Variable full : list StationData.

Lemma primStep_buildsInv E E' :
  played full E -> buildsInv E -> primStep full E E' -> buildsInv E'.
Proof.
  intros HE [HI1 HI2] Hs.
  destruct (played_cardsInv full E HE) as (_ & _ & _ & _ & Hd8 & _).
  destruct (played_keysInv full E HE) as [_ Hkeys].
  destruct (played_progressInv full E HE) as (_ & _ & Hord).
  destruct Hs as [E|E ord rnd Hord'|E l ln Hl Hg Hf|E sel|E|E rnd Hrc
                  |E rnd Hc Hb Hsw|E fromId toId l LS ln Hl Hg Hf Hc Hb Hcc
                  |E rnd l LS r Hl Hg Hsc].
  - split; simpl; [unfold buildsLeft; simpl; lia|done].
  - split; simpl; [unfold buildsLeft; simpl; lia|done].
  - split; [exact HI1|]. simpl. intros l' LS'.
    rewrite (lsGet_snoc _ _ _ _ Hg).
    destruct (decide (l = l')) as [<-|Hll];
      [rewrite bool_decide_eq_true_2 by done
      |rewrite bool_decide_eq_false_2 by done; apply HI2].
    intros [= <-]. simpl. split; [lia|]. intros _. exact HI1.
  - exact (conj HI1 HI2).
  - exact (conj HI1 HI2).
  - destruct (drawCard_effect rnd E) as (_ & _ & Hls & _).
    destruct (drawCard_state rnd E Hrc) as (c & _ & Hex).
    unfold buildsInv. rewrite Hls. rewrite Hex. simpl.
    unfold buildsLeft, currentLineId. simpl.
    split; [lia|]. intros l LS Hg.
    destruct (HI2 l LS Hg) as [H8 Hcur]. split; [done|].
    intros Hl. specialize (Hcur Hl). lia.
  - destruct (switchCard_effect rnd E) as (_ & _ & Hls & _).
    destruct (switchCard_state rnd E Hc Hb Hsw) as (c & _ & Hex).
    unfold buildsInv. rewrite Hls. rewrite Hex. simpl.
    assert (buildsLeft (state E) = 1%nat) as Hleft.
    { unfold buildsLeft. by rewrite (bool_decide_eq_true_2 _ Hc), Hb. }
    rewrite Hleft in HI1.
    unfold buildsLeft, currentLineId. simpl. rewrite Hb. simpl.
    split; [done|]. intros l LS Hg.
    destruct (HI2 l LS Hg) as [H8 Hcur]. split; [done|].
    intros Hl. specialize (Hcur Hl). by rewrite Hleft in Hcur.
  - assert (buildsLeft (state E) = 1%nat) as Hleft.
    { unfold buildsLeft. by rewrite (bool_decide_eq_true_2 _ Hc), Hb. }
    destruct (HI2 l LS Hg) as [_ Hcur]. specialize (Hcur Hl).
    rewrite Hleft in Hcur.
    assert (buildsLeft (setBuildUsed true (state E)) = 0%nat) as Hleft'.
    { unfold buildsLeft. simpl. by rewrite andb_false_r. }
    split; simpl; [rewrite Hleft'; lia|].
    intros l' LS'. rewrite lsGet_lsSet.
    destruct (decide (l = l')) as [<-|Hll];
      [rewrite bool_decide_eq_true_2 by done
      |rewrite bool_decide_eq_false_2 by done].
    + intros [= <-]. simpl. rewrite length_app. simpl.
      split; [lia|]. intros _. rewrite Hleft'. lia.
    + intros Hg'. destruct (HI2 l' LS' Hg') as [H8 _]. split; [done|].
      unfold currentLineId. simpl. intros Hl'.
      unfold currentLineId in Hl. congruence.
  - assert (NoDup (order (state E))) as Hnd.
    { destruct Hord as [->|Hp]; [constructor|]. rewrite Hp.
      apply (bool_decide_unpack (NoDup (map line_id LINES))).
      vm_compute. exact I. }
    split; simpl.
    + unfold nextRoundState. case_bool_decide; [exact HI1|].
      unfold buildsLeft. simpl. lia.
    + intros l' LS' Hg'. destruct (HI2 l' LS' Hg') as [H8 _].
      split; [done|]. intros Hcur. exfalso.
      assert (l' ∈ (lineStates E).*1) as Hin.
      { apply dec_stable. intros Hn. apply lsGet_None_keys in Hn. congruence. }
      destruct (Hkeys l' Hin) as (j & Hj & Ho).
      unfold currentLineId in Hcur. simpl in Hcur.
      assert (order (nextRoundState rnd (state E)) = order (state E) /\
              roundIndex (nextRoundState rnd (state E)) = S (roundIndex (state E)))
        as [Ho' Hi'] by (unfold nextRoundState; by case_bool_decide).
      rewrite Ho', Hi' in Hcur.
      pose proof (NoDup_lookup _ _ _ _ Hnd Ho Hcur). lia.
Qed.

Lemma played_buildsInv E : played full E -> buildsInv E.
Proof.
  revert E. apply played_ind.
  - split; simpl; [unfold buildsLeft; simpl; lia|done].
  - intros E E' HE HI Hs. by apply (primStep_buildsInv E E').
Qed.

End Builds.

(** X20.  One build per card: in every state of a session the sections built on
    the current line, with the build the current card still allows, number
    at most the cards drawn in the round; so no line has more than eight
    sections or more than nine stations. *)
Theorem line_has_at_most_eight_sections (full : list StationData)
    (hudPP trainSlider : bool) (E : Engine) (l : Z) (LS : LineState) :
  reachable full hudPP trainSlider E ->
  lsGet l (lineStates E) = Some LS ->
  (length (segments LS) ≤ 8)%nat /\ (size (visited LS) ≤ 9)%nat /\
  (currentLineId E = Some l ->
   (length (segments LS) + buildsLeft (state E)
    ≤ drawsThisRound (state E))%nat).
Proof.
  intros HE Hg. apply reachable_played in HE.
  destruct (played_buildsInv full E HE) as [_ HI].
  destruct (HI l LS Hg) as [H8 Hcur].
  destruct (played_routesInv full E HE l LS Hg)
    as (ln & a & q & _ & (Hnd & Hv & Hseg & _) & _).
  assert (length (segments LS) = length q) as Hlen.
  { rewrite <- (length_fmap pairKey), Hseg, length_fmap. apply hops_length. }
  split; [done|]. split; [|done].
  rewrite Hv, size_list_to_set by done. simpl. lia.
Qed.

(* ========================================================================= *)
(*  The station click handler                                                *)
(* ========================================================================= *)

Section Click.

Variable full : list StationData.
Variables hudPP trainSlider : bool.

(** canConnect does not read the selection. *)
Lemma canConnect_selected fromId toId sel E :
  result (canConnect full fromId toId) (withSelected sel E) =
  result (canConnect full fromId toId) E.
Proof.
  unfold canConnect, result. munfold. simpl.
  assert (ensureLineState (currentLineId (withSelected sel E)) (withSelected sel E)
          = ((ensureLineState (currentLineId E) E).1,
             withSelected sel (ensureLineState (currentLineId E) E).2)) as ->.
  { change (currentLineId (withSelected sel E)) with (currentLineId E).
    destruct (ensureLineState_cases (currentLineId E) E)
      as [(l & LS & -> & Hg & ->)|[(l & ln & -> & Hg & Hf & ->)|[Hn ->]]].
    - unfold ensureLineState. simpl. by rewrite Hg.
    - unfold ensureLineState. simpl. rewrite Hg, Hf. simpl.
      by rewrite (lsSet_absent _ _ _ Hg).
    - simpl. destruct Hn as [->|(l & -> & Hg & Hf)]; [done|].
      unfold ensureLineState. simpl. by rewrite Hg, Hf. }
  destruct (ensureLineState (currentLineId E) E) as [[[l LS]|] E1]; simpl;
    [|done].
  destruct (stationById full !! fromId) as [A|]; [|done].
  destruct (stationById full !! toId) as [B|]; [|done].
  destruct (bool_decide (fromId = toId)); [done|]. simpl.
  change (currentLine (withSelected sel E1)) with (currentLine E1).
  destruct (currentLine E1) as [ln|]; [|done]. simpl.
  change (stationMatchesCard (withSelected sel E1) B)
    with (stationMatchesCard E1 B).
  repeat (case_match; simpl; try done).
  all: change (stationMatchesCard (withSelected sel E1) B)
         with (stationMatchesCard E1 B) in *; congruence.
Qed.

(** What a click on a station does. *)
Lemma clickStation_exec id rnd E :
  let E' := exec (clickStation full hudPP trainSlider id rnd) E in
  let E1 := exec (ensureLineState (currentLineId E)) E in
  (selectedStationId E = None /\
   (E' = E1 \/ E' = withSelected (Some id) E1)) \/
  (exists fromId,
     selectedStationId E = Some fromId /\
     ((E' = E /\ result (ensureLineState (currentLineId E)) E = None) \/
      (E' = withSelected None E1 /\ pencilMode (state E) = true) \/
      (pencilMode (state E) = false /\
       is_Some (result (ensureLineState (currentLineId E)) E) /\
       E' = exec (attemptConnection full hudPP trainSlider fromId id rnd)
                 (withSelected None E1)))).
Proof.
  cbv zeta. unfold clickStation. munfold. simpl.
  pose proof (ensureLineState_frame (currentLineId E) E) as (Hst & _ & _ & Hsel).
  unfold exec in *.
  destruct (ensureLineState_cases (currentLineId E) E)
    as [(l & LS & Hl & Hg & Hens)|[(l & ln & Hl & Hg & Hf & Hens)|[Hn Hens]]];
    rewrite Hens in *; simpl in *.
  - destruct (selectedStationId E) as [fromId|] eqn:Hs; simpl.
    + right. exists fromId. split; [done|].
      destruct (pencilMode (state E)); simpl; [by right; left|].
      right; right. eauto.
    + left. split; [done|].
      destruct (bool_decide (length (segments LS) = 0%nat)).
      * destruct (currentLine E) as [ln|]; simpl; [|by left].
        destruct (bool_decide (id = line_start ln)); simpl; [by right|by left].
      * destruct (bool_decide (id ∈ endpoints LS)); simpl; [by right|by left].
  - destruct (selectedStationId E) as [fromId|] eqn:Hs; simpl.
    + right. exists fromId. split; [done|].
      destruct (pencilMode (state E)); simpl; [by right; left|].
      right; right. eauto.
    + left. split; [done|].
      match goal with
      | |- context [currentLine ?E0] => destruct (currentLine E0) as [ln'|]
      end; simpl; [|by left].
      destruct (bool_decide (id = line_start ln')); simpl; [by right|by left].
  - destruct (selectedStationId E) as [fromId|] eqn:Hs.
    + right. exists fromId. split; [done|]. by left.
    + left. split; [done|]. by left.
Qed.

(** nextRound keeps the sections, the owners and the selection. *)
Lemma nextRound_keeps rnd E :
  let E' := exec (nextRound full hudPP trainSlider rnd) E in
  allSegments (lineStates E') = allSegments (lineStates E) /\
  stationOwner E' = stationOwner E /\
  selectedStationId E' = selectedStationId E.
Proof.
  cbv zeta.
  destruct (nextRound_exec full hudPP trainSlider rnd E)
    as [->|(l & LS & r & _ & _ & _ & ->)]; [done|].
  simpl.
  pose proof (ensureLineState_frame (currentLineId E) E) as (_ & Ho & _ & Hs).
  pose proof (ensureLineState_allSegments (currentLineId E) E) as Ha.
  done.
Qed.

Lemma nextRound_state rnd E :
  state (exec (nextRound full hudPP trainSlider rnd) E) = state E \/
  state (exec (nextRound full hudPP trainSlider rnd) E)
    = nextRoundState rnd (state E).
Proof.
  destruct (nextRound_exec full hudPP trainSlider rnd E)
    as [->|(l & LS & r & _ & _ & _ & ->)]; [by left|].
  right. simpl.
  by destruct (ensureLineState_frame (currentLineId E) E) as (-> & _).
Qed.

(** A click on a station either builds the section from the selected
    station that canConnect has accepted, or places nothing. *)
Lemma clickStation_outcome id rnd E :
  let E' := exec (clickStation full hudPP trainSlider id rnd) E in
  (exists fromId,
     selectedStationId E = Some fromId /\ pencilMode (state E) = false /\
     currentCard (state E) ≠ None /\ buildUsedForThisCard (state E) = false /\
     result (canConnect full fromId id) E = Some true /\
     allSegments (lineStates E') ≡ₚ
       mkSegment fromId id :: allSegments (lineStates E) /\
     selectedStationId E' = None /\
     ((roundComplete (state E) = false /\
       state E' = setBuildUsed true (state E) /\
       roundResults E' = roundResults E) \/
      (roundComplete (state E) = true /\
       state E' = nextRoundState rnd (setBuildUsed true (state E)) /\
       exists r, roundResults E' = roundResults E ++ [r]))) \/
  ((selectedStationId E = None \/ pencilMode (state E) = true \/
    currentCard (state E) = None \/ buildUsedForThisCard (state E) = true \/
    exists fromId, selectedStationId E = Some fromId /\
                   result (canConnect full fromId id) E ≠ Some true) /\
   state E' = state E /\ stationOwner E' = stationOwner E /\
   roundResults E' = roundResults E /\
   allSegments (lineStates E') = allSegments (lineStates E)).
Proof.
  cbv zeta.
  pose proof (ensureLineState_frame (currentLineId E) E) as (Hst & Ho & Hrr & Hs).
  pose proof (ensureLineState_allSegments (currentLineId E) E) as Ha.
  cbv zeta in Hst, Ho, Hrr, Hs.
  set (E1 := exec (ensureLineState (currentLineId E)) E) in *.
  destruct (clickStation_exec id rnd E)
    as [[Hsel [->| ->]]|(fromId & Hsel & [[-> Hthrow]|[[-> Hp]|(Hp & Hok & ->)]])];
    fold E1.
  - right. split; [by left|]. done.
  - right. split; [by left|]. done.
  - right. split; [|done]. do 4 right. exists fromId. split; [done|].
    intros Hacc. apply canConnect_accept_ensure in Hacc as (? & ? & ? & _ & _ & He).
    unfold result in Hthrow. by rewrite He in Hthrow.
  - right. split; [by right; left|]. done.
  - set (E2 := withSelected None E1).
    assert (result (canConnect full fromId id) E2 =
            result (canConnect full fromId id) E) as Hres.
    { unfold E2. rewrite canConnect_selected.
      destruct Hok as [[l LS] Hok]. unfold result in Hok.
      destruct (ensureLineState (currentLineId E) E) as [r E1'] eqn:He.
      simpl in Hok. subst r.
      destruct (canConnect_ensured full fromId id E l LS E1' He) as [Hc _].
      unfold result at 2. rewrite Hc. simpl.
      subst E1. unfold exec. by rewrite He. }
    pose proof (ensureLineState_frame (currentLineId E2) E2)
      as (Hst2 & Ho2 & Hrr2 & Hs2).
    pose proof (ensureLineState_allSegments (currentLineId E2) E2) as Ha2.
    cbv zeta in Hst2, Ho2, Hrr2, Hs2.
    destruct (attemptConnection_exec full hudPP trainSlider fromId id rnd E2)
      as [[-> Hwhy]|[[-> Hwhy]|(l & LS & ln & Hl & Hg & Hf & Hc & Hb & Hcc & Hfin)]].
    + right. split; [|done]. right; right.
      destruct Hwhy as [Hw|Hw]; [left|right; left]; simpl in Hw; congruence.
    + right. split.
      * do 4 right. exists fromId. split; [done|]. by rewrite <- Hres.
      * rewrite Hst2, Ho2, Hrr2, Ha2. done.
    + left. exists fromId.
      assert (result (canConnect full fromId id) E2 = Some true) as Hcc2.
      { revert Hcc. unfold exec.
        destruct (ensureLineState_cases (currentLineId E2) E2)
          as [(l2 & LS2 & _ & _ & He2)|[(l2 & ln2 & _ & _ & _ & He2)|[_ He2]]];
          rewrite He2; simpl; intros Hcc; [| |exact Hcc].
        - exact Hcc.
        - destruct (canConnect_ensured full fromId id E2 _ _ _ He2) as [Hc2 _].
          unfold result at 1. rewrite Hc2. exact Hcc. }
      set (E2' := exec (ensureLineState (currentLineId E2)) E2) in *.
      split; [done|]. split; [done|].
      assert (state E2 = state E) as HstE by (unfold E2; simpl; exact Hst).
      split; [by rewrite Hst2, HstE in Hc|].
      split; [by rewrite Hst2, HstE in Hb|].
      split; [by rewrite <- Hres|].
      assert (allSegments
                (lineStates (withState (setBuildUsed true)
                   (afterAddSegment fromId id l LS ln E2'))) ≡ₚ
              mkSegment fromId id :: allSegments (lineStates E)) as Hperm.
      { simpl. rewrite (allSegments_extend _ _ _ _ _ Hg), Ha2.
        unfold E2. simpl. by rewrite Ha. }
      assert (roundResults E2' = roundResults E) as HrrE.
      { rewrite Hrr2. unfold E2. simpl. exact Hrr. }
      cbv zeta in Hfin. destruct Hfin as [[Hrc ->]|[Hrc ->]].
      * split; [exact Hperm|]. simpl. rewrite Hs2.
        split; [by unfold E2|]. left.
        simpl in Hrc. rewrite Hst2, HstE in Hrc.
        split; [exact Hrc|]. split; [by rewrite Hst2, HstE|exact HrrE].
      * destruct (nextRound_keeps rnd
                    (withState (setBuildUsed true)
                       (afterAddSegment fromId id l LS ln E2')))
          as (Hna & _ & Hns).
        cbv zeta in Hna, Hns. rewrite Hna, Hns.
        split; [exact Hperm|]. simpl. rewrite Hs2.
        split; [by unfold E2|].
        simpl in Hrc. rewrite Hst2, HstE in Hrc.
        right. split; [exact Hrc|].
        assert (roundInProgress
                  (withState (setBuildUsed true)
                     (afterAddSegment fromId id l LS ln E2'))) as Hr3.
        { apply (roundInProgress_state E2'); [done|done|].
          unfold roundInProgress, currentLine. rewrite Hl, Hf. eauto. }
        destruct (nextRound_in_round full hudPP trainSlider rnd _ Hr3)
          as [r Hn].
        cbv zeta in Hn. rewrite Hn.
        match goal with
        | |- context [exec (ensureLineState ?i) ?E0] =>
            pose proof (ensureLineState_frame i E0) as (Hst3 & _ & Hrr3 & _)
        end.
        cbv zeta in Hst3, Hrr3. simpl. rewrite Hst3, Hrr3. simpl.
        rewrite Hst2, HstE, HrrE. split; [done|by exists r].
Qed.

(** In a game in play a used switch stays used until the next round. *)
Lemma switchUsed_kept ev E :
  inGameEvent ev -> switchUsedThisRound (state E) = true ->
  let E' := exec (handle full hudPP trainSlider ev) E in
  switchUsedThisRound (state E') = true \/
  roundIndex (state E') = S (roundIndex (state E)).
Proof.
  intros Hev Hsw. cbv zeta.
  assert (forall rnd s,
            switchUsedThisRound s = true ->
            switchUsedThisRound (nextRoundState rnd s) = true \/
            roundIndex (nextRoundState rnd s) = S (roundIndex s)) as Hnext.
  { intros rnd s _. right. unfold nextRoundState. by case_bool_decide. }
  destruct ev as [ord rnd|id rnd|rnd|rnd|rnd|rnd| |]; simpl; try done.
  - destruct (clickStation_outcome id rnd E)
      as [(fromId & _ & _ & _ & _ & _ & _ & _ & [(_ & Hst & _)|(_ & Hst & _)])
         |(_ & Hst & _)]; rewrite Hst.
    + by left.
    + exact (Hnext rnd (setBuildUsed true (state E)) Hsw).
    + by left.
  - destruct (roundComplete (state E)) eqn:Hrc.
    + left. unfold drawCard, exec. munfold. simpl. by rewrite Hrc.
    + destruct (drawCard_state rnd E Hrc) as (c & _ & ->). by left.
  - destruct (roundComplete (state E)) eqn:Hrc.
    + left. unfold drawCard, exec. munfold. simpl. by rewrite Hrc.
    + destruct (drawCard_state rnd E Hrc) as (c & _ & ->). by left.
  - destruct (nextRound_state rnd E) as [Hn|Hn]; rewrite Hn;
      [by left|by apply Hnext].
  - left. unfold switchCard, exec. munfold. simpl.
    destruct (bool_decide (currentCard (state E) = None)); [done|].
    destruct (buildUsedForThisCard (state E)); [done|].
    by rewrite Hsw.
  - by left.
Qed.

End Click.

(** X16.  A click on a station places at most one section: the one from the
    selected station to the clicked one, and only when pencil mode is off, a
    card is drawn and not yet used for a build, and canConnect accepts the
    section.  The build clears the selection.  When the round is not marked
    ended, it marks the card as used and nothing else of the round state
    changes, and no result is recorded.  When the round is marked ended,
    nextRound runs: the result of the line is recorded and the round state
    is the one of the next round (the round index one higher; a new deck
    and cleared counters unless that was the last line).  Every other click
    (the first of a pair, a click in pencil mode, without a fresh card, or
    one that canConnect rejects) leaves the round state, the owners, the
    results and the sections as they were. *)
Theorem click_builds_only_accepted (full : list StationData)
    (hudPP trainSlider : bool) (id : Z) (rnd : nat -> nat) (E : Engine) :
  let E' := exec (clickStation full hudPP trainSlider id rnd) E in
  ((exists fromId,
     selectedStationId E = Some fromId /\ pencilMode (state E) = false /\
     currentCard (state E) ≠ None /\ buildUsedForThisCard (state E) = false /\
     result (canConnect full fromId id) E = Some true /\
     allSegments (lineStates E') ≡ₚ
       mkSegment fromId id :: allSegments (lineStates E) /\
     selectedStationId E' = None /\
     ((roundComplete (state E) = false /\
       state E' = setBuildUsed true (state E) /\
       roundResults E' = roundResults E) \/
      (roundComplete (state E) = true /\
       state E' = nextRoundState rnd (setBuildUsed true (state E)) /\
       exists r, roundResults E' = roundResults E ++ [r]))) \/
  ((selectedStationId E = None \/ pencilMode (state E) = true \/
    currentCard (state E) = None \/ buildUsedForThisCard (state E) = true \/
    exists fromId, selectedStationId E = Some fromId /\
                   result (canConnect full fromId id) E ≠ Some true) /\
   state E' = state E /\ stationOwner E' = stationOwner E /\
   roundResults E' = roundResults E /\
   allSegments (lineStates E') = allSegments (lineStates E))) /\
  (length (allSegments (lineStates E'))
   ≤ S (length (allSegments (lineStates E))))%nat.
Proof.
  cbv zeta.
  destruct (clickStation_outcome full hudPP trainSlider id rnd E)
    as [(fromId & H1 & H2 & H3 & H4 & H5 & Hperm & H6)|(Hwhy & H1 & H2 & H3 & Hsame)].
  - split.
    + left. exists fromId. repeat (split; [assumption|]). exact H6.
    + rewrite Hperm. simpl. lia.
  - split.
    + right. repeat (split; [assumption|]). exact Hsame.
    + rewrite Hsame. lia.
Qed.

(** X17.  The switch can be used once per round: a second switchCard right after
    the first changes nothing, switchCard never changes the counters of the
    round, the sections or the owners, and in a game in play a used switch
    stays used until the round index moves on. *)
Theorem switchCard_once_per_round (full : list StationData)
    (hudPP trainSlider : bool) (rnd rnd' : nat -> nat) (E : Engine) :
  let E1 := exec (switchCard rnd) E in
  exec (switchCard rnd') E1 = E1 /\
  drawsThisRound (state E1) = drawsThisRound (state E) /\
  centerCount (state E1) = centerCount (state E) /\
  sideCount (state E1) = sideCount (state E) /\
  lineStates E1 = lineStates E /\ stationOwner E1 = stationOwner E /\
  (switchUsedThisRound (state E) = true ->
   forall ev, inGameEvent ev ->
     let E' := exec (handle full hudPP trainSlider ev) E in
     switchUsedThisRound (state E') = true \/
     roundIndex (state E') = S (roundIndex (state E))).
Proof.
  cbv zeta. split; [|split; [|split; [|split; [|split; [|split]]]]].
  - destruct (decide (currentCard (state E) = None)) as [Hc|Hc].
    { assert (exec (switchCard rnd) E = E) as ->.
      { unfold switchCard, exec. munfold. simpl.
        by rewrite (bool_decide_eq_true_2 _ Hc). }
      unfold switchCard, exec. munfold. simpl.
      by rewrite (bool_decide_eq_true_2 _ Hc). }
    destruct (buildUsedForThisCard (state E)) eqn:Hb.
    { assert (exec (switchCard rnd) E = E) as ->.
      { unfold switchCard, exec. munfold. simpl.
        by rewrite (bool_decide_eq_false_2 _ Hc), Hb. }
      unfold switchCard, exec. munfold. simpl.
      by rewrite (bool_decide_eq_false_2 _ Hc), Hb. }
    destruct (switchUsedThisRound (state E)) eqn:Hs.
    { assert (exec (switchCard rnd) E = E) as ->.
      { unfold switchCard, exec. munfold. simpl.
        by rewrite (bool_decide_eq_false_2 _ Hc), Hb, Hs. }
      unfold switchCard, exec. munfold. simpl.
      by rewrite (bool_decide_eq_false_2 _ Hc), Hb, Hs. }
    destruct (switchCard_state rnd E Hc Hb Hs) as (c & _ & ->).
    unfold switchCard, exec. munfold. simpl. by rewrite Hb.
  - destruct (decide (currentCard (state E) = None)) as [Hc|Hc];
      [|destruct (buildUsedForThisCard (state E)) eqn:Hb;
        [|destruct (switchUsedThisRound (state E)) eqn:Hs]].
    4: by destruct (switchCard_state rnd E Hc Hb Hs) as (c & _ & ->).
    all: unfold switchCard, exec; munfold; simpl.
    + by rewrite (bool_decide_eq_true_2 _ Hc).
    + by rewrite (bool_decide_eq_false_2 _ Hc), Hb.
    + by rewrite (bool_decide_eq_false_2 _ Hc), Hb, Hs.
  - destruct (decide (currentCard (state E) = None)) as [Hc|Hc];
      [|destruct (buildUsedForThisCard (state E)) eqn:Hb;
        [|destruct (switchUsedThisRound (state E)) eqn:Hs]].
    4: by destruct (switchCard_state rnd E Hc Hb Hs) as (c & _ & ->).
    all: unfold switchCard, exec; munfold; simpl.
    + by rewrite (bool_decide_eq_true_2 _ Hc).
    + by rewrite (bool_decide_eq_false_2 _ Hc), Hb.
    + by rewrite (bool_decide_eq_false_2 _ Hc), Hb, Hs.
  - destruct (decide (currentCard (state E) = None)) as [Hc|Hc];
      [|destruct (buildUsedForThisCard (state E)) eqn:Hb;
        [|destruct (switchUsedThisRound (state E)) eqn:Hs]].
    4: by destruct (switchCard_state rnd E Hc Hb Hs) as (c & _ & ->).
    all: unfold switchCard, exec; munfold; simpl.
    + by rewrite (bool_decide_eq_true_2 _ Hc).
    + by rewrite (bool_decide_eq_false_2 _ Hc), Hb.
    + by rewrite (bool_decide_eq_false_2 _ Hc), Hb, Hs.
  - by destruct (switchCard_effect rnd E) as (_ & _ & ? & _).
  - by destruct (switchCard_effect rnd E) as (_ & _ & _ & ? & _).
  - intros Hsw ev Hev. by apply switchUsed_kept.
Qed.

(* ------------------------------------------------------------------------- *)
(* Train hubs                                                                *)
(* ------------------------------------------------------------------------- *)

Lemma size_list_to_set_le (l : list Z) :
  (size (list_to_set l : gset Z) ≤ length l)%nat.
Proof.
  induction l as [|x l IH].
  - rewrite list_to_set_nil, size_empty. simpl. lia.
  - rewrite list_to_set_cons, size_union_alt, size_singleton. simpl.
    assert (size (list_to_set l ∖ {[ x ]} : gset Z) ≤ size (list_to_set l : gset Z))%nat
      by (apply subseteq_size; set_solver).
    lia.
Qed.

(** A train hub is one of the ids collected when the data was loaded. *)
Lemma isTrainHub_listed (full : list StationData) sid :
  isTrainHub full sid -> sid ∈ TRAIN_STATION_IDS full.
Proof.
  unfold isTrainHub. rewrite getStationMeta_lookup, stationMetaById_lookup.
  destruct (last (filter (fun s => sd_id s = sid) full)) as [meta|] eqn:Hm;
    [|done].
  apply (last_filter_Some (fun s => sd_id s = sid)) in Hm as [Hid Hin].
  intros Htrain. unfold TRAIN_STATION_IDS.
  apply (list_elem_of_fmap_2' sd_id _ meta); [|done].
  by apply list_elem_of_filter.
Qed.

(** X21.  The train-hub count never exceeds the number of train stations of the
    dataset: updatePPView always returns, changes nothing, and what it
    returns (the value it gives the train slider) is at most the length of
    TRAIN_STATION_IDS and at most the maximum it gives the slider. *)
Theorem updatePPView_within_slider (full : list StationData)
    (hudPP trainSlider : bool) (E : Engine) :
  exists PP,
    updatePPView full hudPP trainSlider E = (Some PP, E) /\
    (PP ≤ length (TRAIN_STATION_IDS full))%nat /\
    (PP ≤ trainSliderMax full)%nat.
Proof.
  rewrite updatePPView_spec. eexists. split; [reflexivity|].
  assert (PP_spec full (lineStates E) ≤ length (TRAIN_STATION_IDS full))%nat
    as Hle.
  { unfold PP_spec.
    etrans; [|apply (size_list_to_set_le (TRAIN_STATION_IDS full))].
    apply subseteq_size. intros sid Hin.
    apply elem_of_filter in Hin as [Hhub _].
    apply elem_of_list_to_set. by apply isTrainHub_listed. }
  unfold trainSliderMax.
  destruct (negb hudPP && negb trainSlider); case_bool_decide; lia.
Qed.

(* ------------------------------------------------------------------------- *)
(* Drawing coordinates and the time display                                  *)
(* ------------------------------------------------------------------------- *)



(** The decimal text of an integer stands for that integer. *)
Lemma parseDecimal_numberToString z : parseDecimal (numberToString z) = Some z.
Proof.
  unfold parseDecimal, numberToString.
  rewrite DecimalString.NilEmpty.isi. simpl. by rewrite DecimalZ.of_to.
Qed.

(** The seconds of the display: two characters that stand for the number. *)
Lemma padStart2_seconds r :
  0 ≤ r < 60 ->
  String.length (padStart2 (numberToString r)) = 2%nat /\
  parseDecimal (padStart2 (numberToString r)) = Some r.
Proof.
  intros Hr.
  assert (forallb
            (fun k =>
               let t := padStart2 (numberToString (Z.of_nat k)) in
               bool_decide (String.length t = 2%nat) &&
               bool_decide (parseDecimal t = Some (Z.of_nat k)))
            (seq 0 60) = true) as Hall by (vm_compute; reflexivity).
  rewrite forallb_forall in Hall.
  specialize (Hall (Z.to_nat r)). rewrite Z2Nat.id in Hall by lia.
  cbv zeta in Hall. rewrite andb_true_iff, !bool_decide_eq_true in Hall.
  apply Hall. apply in_seq. lia.
Qed.

Lemma string_length_app (s t : string) :
  String.length (s +:+ t) = (String.length s + String.length t)%nat.
Proof. induction s as [|c s IH]; simpl; [done|by rewrite IH]. Qed.

(** Texts with tails of the same length are equal part by part. *)
Lemma string_app_inj_tail (s1 s2 t1 t2 : string) :
  s1 +:+ t1 = s2 +:+ t2 -> String.length t1 = String.length t2 ->
  s1 = s2 /\ t1 = t2.
Proof.
  revert s2. induction s1 as [|c s1 IH]; intros [|d s2]; simpl; intros Heq Hlen.
  - done.
  - exfalso. apply (f_equal String.length) in Heq. simpl in Heq.
    rewrite ?string_length_app in Heq. simpl in Heq. lia.
  - exfalso. apply (f_equal String.length) in Heq. simpl in Heq.
    rewrite ?string_length_app in Heq. simpl in Heq. lia.
  - injection Heq as -> Heq. destruct (IH s2 Heq Hlen) as [-> ->]. done.
Qed.

(** X23.  The time display is right: for a time of less than 2^31 minutes,
    formatDuration gives the minutes in decimal, a colon and the seconds of
    the minute in exactly two digits; the text stands for the number of
    seconds it was made from, and different times get different texts. *)
Theorem formatDuration_round_trip (seconds : Z) :
  0 ≤ seconds < 60 * 2 ^ 31 ->
  (exists mm ss,
     formatDuration seconds = mm +:+ ":" +:+ ss /\
     String.length ss = 2%nat /\
     parseDecimal mm = Some (seconds / 60) /\
     parseDecimal ss = Some (seconds mod 60)) /\
  (forall seconds',
     0 ≤ seconds' < 60 * 2 ^ 31 ->
     formatDuration seconds' = formatDuration seconds -> seconds' = seconds).
Proof.
  assert (forall t, 0 ≤ t < 60 * 2 ^ 31 ->
            formatDuration t =
            numberToString (t / 60) +:+ ":"
              +:+ padStart2 (numberToString (t mod 60))) as Hfmt.
  { intros t Ht. unfold formatDuration. cbv zeta.
    rewrite Z.quot_div_nonneg, Z.rem_mod_nonneg by lia.
    assert (0 ≤ t / 60 < 2 ^ 31) as Hm.
    { split; [apply Z.div_pos; lia|apply Z.div_lt_upper_bound; lia]. }
    unfold toInt32. rewrite Z.mod_small by lia. do 2 f_equal. lia. }
  intros Hs. split.
  - exists (numberToString (seconds / 60)),
           (padStart2 (numberToString (seconds mod 60))).
    split; [by apply Hfmt|].
    pose proof (Z.mod_pos_bound seconds 60 ltac:(lia)) as Hr.
    destruct (padStart2_seconds _ Hr) as [Hlen Hparse].
    split; [exact Hlen|]. split; [apply parseDecimal_numberToString|exact Hparse].
  - intros t Ht Heq. rewrite (Hfmt t Ht), (Hfmt seconds Hs) in Heq.
    pose proof (Z.mod_pos_bound seconds 60 ltac:(lia)) as Hr.
    pose proof (Z.mod_pos_bound t 60 ltac:(lia)) as Hr'.
    destruct (padStart2_seconds _ Hr) as [Hlen Hparse].
    destruct (padStart2_seconds _ Hr') as [Hlen' Hparse'].
    apply string_app_inj_tail in Heq as [Hmm Htail];
      [|by rewrite !string_length_app, Hlen, Hlen'].
    apply String.app_inj in Htail. rename Htail into Hss.
    apply (f_equal parseDecimal) in Hmm, Hss.
    rewrite !parseDecimal_numberToString in Hmm.
    rewrite Hparse, Hparse' in Hss.
    injection Hmm as Hmm. injection Hss as Hss.
    rewrite (Z.div_mod t 60), (Z.div_mod seconds 60) by lia. lia.
Qed.

(* ========================================================================= *)
(*  The further properties on the sample board                               *)
(* ========================================================================= *)

(** The sample session after the game has started and one card is drawn. *)
Lemma sessionDrawn_valid : Forall validEvent (sessionStart ++ [EvDraw rnd0]).
Proof. repeat (constructor; [by simpl|]). constructor. Qed.



(** On the sample board with the first card drawn, canConnect accepts the
    section 19 - 20 of M1, so the section obeys the placement rules. *)
Lemma canConnect_accepts_iff_rules_witness :
  let E := sampleRun (sessionStart ++ [EvDraw rnd0]) in
  let M1 := mkLine 0 "M1" "#FFD800" 19 in
  currentLineId E = Some 0 /\ findLine 0 = Some M1 /\
  segmentsKnown sampleStations E /\
  placementRules sampleStations E 0 M1 19 20.
Proof.
  cbv zeta.
  assert (currentLineId (sampleRun (sessionStart ++ [EvDraw rnd0])) = Some 0)
    as H1 by (vm_compute; reflexivity).
  assert (findLine 0 = Some (mkLine 0 "M1" "#FFD800" 19))
    as H2 by (vm_compute; reflexivity).
  assert (segmentsKnown sampleStations
            (sampleRun (sessionStart ++ [EvDraw rnd0]))) as H3.
  { unfold segmentsKnown. vm_compute. constructor. }
  split; [exact H1|]. split; [exact H2|]. split; [exact H3|].
  apply (proj1 (canConnect_accepts_iff_rules sampleStations 19 20 _ 0 _ H1 H2 H3)).
  clear. vm_compute. reflexivity.
Defined.

(** The card counters after the round of M1 has ended. *)
Lemma card_counters_bounded_witness :
  let E := sampleRun sessionM1Ended in
  reachable sampleStations true true E /\
  drawsThisRound (state E) = (centerCount (state E) + sideCount (state E))%nat /\
  (centerCount (state E) ≤ 5)%nat /\ (sideCount (state E) ≤ 5)%nat /\
  (drawsThisRound (state E) ≤ 8)%nat /\
  (roundComplete (state E) = true -> (5 ≤ drawsThisRound (state E))%nat) /\
  deck (state E) ⊆+ baseDeck /\ NoDup (deck (state E)) /\
  (forall c, currentCard (state E) = Some c -> c ∈ baseDeck).
Proof.
  cbv zeta.
  assert (reachable sampleStations true true (sampleRun sessionM1Ended)) as HR.
  { apply sampleRun_reachable, sessionM1Ended_valid. }
  split; [exact HR|].
  exact (card_counters_bounded sampleStations true true _ HR).
Defined.

(** drawCard right after the start of the sample game. *)
Lemma drawCard_reveals_card_witness :
  let E := sampleRun sessionStart in
  let E' := exec (drawCard rnd0) E in
  reachable sampleStations true true E /\
  roundComplete (state E) = false /\
  exists c,
    currentCard (state E') = Some c /\ c ∈ baseDeck /\
    last (deckToPop rnd0 (state E)) = Some c /\
    deck (state E') = removelast (deckToPop rnd0 (state E)) /\
    ¬ c ∈ deck (state E') /\
    buildUsedForThisCard (state E') = false /\
    drawsThisRound (state E') = S (drawsThisRound (state E)) /\
    (ptype c = "center" ->
     centerCount (state E') = S (centerCount (state E)) /\
     sideCount (state E') = sideCount (state E)) /\
    (ptype c = "side" ->
     sideCount (state E') = S (sideCount (state E)) /\
     centerCount (state E') = centerCount (state E)) /\
    lineStates E' = lineStates E /\ stationOwner E' = stationOwner E.
Proof.
  cbv zeta.
  assert (reachable sampleStations true true (sampleRun sessionStart)) as HR.
  { apply sampleRun_reachable, sessionStart_valid. }
  assert (roundComplete (state (sampleRun sessionStart)) = false) as Hrc
    by (vm_compute; reflexivity).
  split; [exact HR|]. split; [exact Hrc|].
  exact (drawCard_reveals_card sampleStations true true rnd0 _ HR Hrc).
Defined.

(** The results after the round of M1 is scored and M2 is begun. *)
Lemma round_results_follow_order_witness :
  let E := sampleRun sessionM2 in
  reachable sampleStations true true E /\
  rr_lineId <$> roundResults E
    = take (roundIndex (state E)) (order (state E)) /\
  length (roundResults E) = roundIndex (state E) /\
  (roundIndex (state E) ≤ length (order (state E)))%nat /\
  (order (state E) = [] \/ order (state E) ≡ₚ map line_id LINES) /\
  NoDup (rr_lineId <$> roundResults E) /\
  (order (state E) ≠ [] -> currentLineId E = None ->
   rr_lineId <$> roundResults E ≡ₚ map line_id LINES) /\
  (is_Some (currentLineId E) <-> roundInProgress E).
Proof.
  cbv zeta.
  assert (reachable sampleStations true true (sampleRun sessionM2)) as HR.
  { apply sampleRun_reachable, sessionM2_valid. }
  split; [exact HR|].
  exact (round_results_follow_order sampleStations true true _ HR).
Defined.

(** The handlers in the round of M2 of the sample session. *)
Lemma handlers_complete_during_round_witness :
  let E := sampleRun sessionM2 in
  reachable sampleStations true true E /\
  (roundInProgress E ->
   forall ev, result (handle sampleStations true true ev) E = Some tt) /\
  (order (state E) ≠ [] -> currentLineId E = None ->
   forall id rnd,
     clickStation sampleStations true true id rnd E = (None, E) /\
     nextRound sampleStations true true rnd E = (None, E)).
Proof.
  cbv zeta.
  assert (reachable sampleStations true true (sampleRun sessionM2)) as HR.
  { apply sampleRun_reachable, sessionM2_valid. }
  split; [exact HR|].
  exact (handlers_complete_during_round sampleStations true true _ HR).
Defined.

(** M1 and M2 of the sample session meet at station 30 only. *)
Lemma lines_share_only_transfer_stations_witness :
  let E := sampleRun sessionM2 in
  reachable sampleStations true true E /\
  (forall l1 l2 LS1 LS2 sid,
     l1 ≠ l2 ->
     lsGet l1 (lineStates E) = Some LS1 -> lsGet l2 (lineStates E) = Some LS2 ->
     sid ∈ visited LS1 -> sid ∈ visited LS2 ->
     sid = 30 \/ sid ∈ [19; 28; 3; 39]) /\
  (forall l LS sid,
     lsGet l (lineStates E) = Some LS -> sid ∈ visited LS ->
     sid ≠ 30 -> sid ∉ [19; 28; 3; 39] -> stationOwner E !! sid = Some l) /\
  (forall sid l,
     stationOwner E !! sid = Some l ->
     exists LS, lsGet l (lineStates E) = Some LS /\ sid ∈ visited LS).
Proof.
  cbv zeta.
  assert (reachable sampleStations true true (sampleRun sessionM2)) as HR.
  { apply sampleRun_reachable, sessionM2_valid. }
  split; [exact HR|].
  exact (lines_share_only_transfer_stations sampleStations true true _ HR).
Defined.

(** M1 of the sample session is the route 19 - 20 - 21 - 22 - 30 (in one
    direction or the other). *)
Lemma lines_are_simple_routes_witness :
  let E := sampleRun sessionM2 in
  reachable sampleStations true true E /\
  lsGet 0 (lineStates E) = Some sampleM1 /\
  exists ln a q,
    findLine 0 = Some ln /\ line_start ln ∈ a :: q /\
    NoDup (a :: q) /\
    visited sampleM1 = list_to_set (a :: q) /\
    pairKey <$> segments sampleM1 ≡ₚ pairKey <$> hops (a :: q) /\
    endpoints sampleM1 = match last q with
                         | None => ∅
                         | Some z => {[ a; z ]}
                         end /\
    length (segments sampleM1) = length q /\
    size (visited sampleM1) = S (length (segments sampleM1)).
Proof.
  cbv zeta.
  assert (reachable sampleStations true true (sampleRun sessionM2)) as HR.
  { apply sampleRun_reachable, sessionM2_valid. }
  split; [exact HR|]. split; [exact sessionM2_line|].
  exact (lines_are_simple_routes sampleStations true true _ 0 sampleM1 HR
           sessionM2_line).
Defined.

(** The five sections of the sample session meet at stations only. *)
Lemma sections_meet_only_at_stations_witness :
  let E := sampleRun sessionM2 in
  reachable sampleStations true true E /\
  (forall s, s ∈ allSegments (lineStates E) ->
     seg_a s ≠ seg_b s /\
     exists A B,
       stationById sampleStations !! seg_a s = Some A /\
       stationById sampleStations !! seg_b s = Some B /\
       isStraightOrDiag A B = true /\ ~ stationBetween sampleStations A B) /\
  (forall s t A B C D,
     s ∈ allSegments (lineStates E) -> t ∈ allSegments (lineStates E) ->
     stationById sampleStations !! seg_a s = Some A ->
     stationById sampleStations !! seg_b s = Some B ->
     stationById sampleStations !! seg_a t = Some C ->
     stationById sampleStations !! seg_b t = Some D ->
     segmentsMeet (pointOf A) (pointOf B) (pointOf C) (pointOf D) ->
     sharesStation (seg_a s) (seg_b s) t).
Proof.
  cbv zeta.
  assert (reachable sampleStations true true (sampleRun sessionM2)) as HR.
  { apply sampleRun_reachable, sessionM2_valid. }
  split; [exact HR|].
  exact (sections_meet_only_at_stations sampleStations true true _ HR).
Defined.

(** The junctions of the sample session: station 30 is on M1 and M2. *)
Lemma junctions_only_at_transfers_witness :
  let E := sampleRun sessionM2 in
  reachable sampleStations true true E /\
  NoDup (lineStates E).*1 /\ (length (lineStates E) ≤ 4)%nat /\
  (forall sid, (2 ≤ size (linesVisiting (lineStates E) sid))%nat ->
     sid = 30 \/ sid ∈ [19; 28; 3; 39]) /\
  (P2_spec (lineStates E) + P3_spec (lineStates E) + P4_spec (lineStates E)
   ≤ 5)%nat /\
  exists g,
    finishGame sampleStations true true E = (Some g, E) /\
    (gr_P2 g + gr_P3 g + gr_P4 g ≤ 5)%nat.
Proof.
  cbv zeta.
  assert (reachable sampleStations true true (sampleRun sessionM2)) as HR.
  { apply sampleRun_reachable, sessionM2_valid. }
  split; [exact HR|].
  exact (junctions_only_at_transfers sampleStations true true _ HR).
Defined.

(** M1 of the sample session has four sections and five stations. *)
Lemma line_has_at_most_eight_sections_witness :
  let E := sampleRun sessionM2 in
  reachable sampleStations true true E /\
  lsGet 0 (lineStates E) = Some sampleM1 /\
  (length (segments sampleM1) ≤ 8)%nat /\ (size (visited sampleM1) ≤ 9)%nat /\
  (currentLineId E = Some 0 ->
   (length (segments sampleM1) + buildsLeft (state E)
    ≤ drawsThisRound (state E))%nat).
Proof.
  cbv zeta.
  assert (reachable sampleStations true true (sampleRun sessionM2)) as HR.
  { apply sampleRun_reachable, sessionM2_valid. }
  split; [exact HR|]. split; [exact sessionM2_line|].
  exact (line_has_at_most_eight_sections sampleStations true true _ 0 sampleM1
           HR sessionM2_line).
Defined.

(** Two minutes and five seconds are displayed as 2:05. *)
Lemma formatDuration_round_trip_witness :
  0 ≤ 125 < 60 * 2 ^ 31 /\
  formatDuration 125 = "2:05" /\
  (exists mm ss,
     formatDuration 125 = mm +:+ ":" +:+ ss /\
     String.length ss = 2%nat /\
     parseDecimal mm = Some (125 / 60) /\
     parseDecimal ss = Some (125 mod 60)) /\
  (forall seconds',
     0 ≤ seconds' < 60 * 2 ^ 31 ->
     formatDuration seconds' = formatDuration 125 -> seconds' = 125).
Proof.
  assert (0 ≤ 125 < 60 * 2 ^ 31) as H by lia.
  split; [exact H|]. split; [vm_compute; reflexivity|].
  exact (formatDuration_round_trip 125 H).
Defined.

(** The two diagonals of a grid square cross in its centre. *)
Lemma segmentsIntersect_iff_meet_witness :
  let a1 := mkPoint 0 0 in let a2 := mkPoint 2 2 in
  let b1 := mkPoint 0 2 in let b2 := mkPoint 2 0 in
  inExactRange a1 /\ inExactRange a2 /\ inExactRange b1 /\ inExactRange b2 /\
  segmentsIntersect a1 a2 b1 b2 = true /\ segmentsMeet a1 a2 b1 b2.
Proof.
  cbv zeta.
  assert (inExactRange (mkPoint 0 0)) as H1 by (unfold inExactRange; simpl; lia).
  assert (inExactRange (mkPoint 2 2)) as H2 by (unfold inExactRange; simpl; lia).
  assert (inExactRange (mkPoint 0 2)) as H3 by (unfold inExactRange; simpl; lia).
  assert (inExactRange (mkPoint 2 0)) as H4 by (unfold inExactRange; simpl; lia).
  split; [exact H1|]. split; [exact H2|]. split; [exact H3|].
  split; [exact H4|].
  assert (segmentsIntersect (mkPoint 0 0) (mkPoint 2 2) (mkPoint 0 2)
            (mkPoint 2 0) = true) as Hs by (vm_compute; reflexivity).
  split; [exact Hs|].
  exact (proj1 (proj2 (segmentsIntersect_iff_meet _ _ _ _ H1 H2 H3 H4)) Hs).
Defined.

(** A section along the top of a grid square and one that ends on it, in
    every order and direction. *)
Lemma segmentsIntersect_symmetric_witness :
  let a1 := mkPoint 0 0 in let a2 := mkPoint 4 0 in
  let b1 := mkPoint 2 0 in let b2 := mkPoint 2 3 in
  inExactRange a1 /\ inExactRange a2 /\ inExactRange b1 /\ inExactRange b2 /\
  segmentsIntersect b1 b2 a1 a2 = segmentsIntersect a1 a2 b1 b2 /\
  segmentsIntersect a2 a1 b1 b2 = segmentsIntersect a1 a2 b1 b2 /\
  segmentsIntersect a1 a2 b2 b1 = segmentsIntersect a1 a2 b1 b2.
Proof.
  cbv zeta.
  assert (inExactRange (mkPoint 0 0)) as H1 by (unfold inExactRange; simpl; lia).
  assert (inExactRange (mkPoint 4 0)) as H2 by (unfold inExactRange; simpl; lia).
  assert (inExactRange (mkPoint 2 0)) as H3 by (unfold inExactRange; simpl; lia).
  assert (inExactRange (mkPoint 2 3)) as H4 by (unfold inExactRange; simpl; lia).
  split; [exact H1|]. split; [exact H2|]. split; [exact H3|].
  split; [exact H4|].
  exact (segmentsIntersect_symmetric _ _ _ _ H1 H2 H3 H4).
Defined.
